(** * Connect Ai: streaming conversation engine, session store and live playback

    A shallow embedding of the parts of the Connect Ai front-end that carry
    its logic:

    - [types.ts]: the data model;
    - [services/geminiService.ts]: [initializeChat], [streamResponse] and the
      abort-aware [wrappedStream], [editImage] and [generateSpeech];
    - the application component ([App]): [updateActiveChat], [handleNewChat],
      [submitPrompt], [handleSend], [handleEditMessage], [handleRegenerate],
      [handleDeleteChat], the folder and settings handlers, and the load
      from and the save to local storage;
    - [components/LiveChatView.tsx]: [addOrUpdateTranscription], the
      transcript update of [onopen], the [onmessage] handler (transcription,
      playback scheduling, interruption) with the timer of its tool calls,
      [decodeAudioData], the sample loop of [onaudioprocess] and
      [stopConversation]; the key handler of the command palette;
    - [components/TtsView.tsx]: [pcmToWav];
    - [components/ChatMessage.tsx]: the fallback of [renderMarkdown];
    - the sidebar: its lists of conversations.

    React state is modelled by explicit state passing: a handler is a
    function from the state it reads to the state left after its queued
    updates have been applied.  The clock ([Date.now()], the audio clock),
    the confirmation dialog, the abort signal and the remote generative
    service are inputs of the functions that consult them.  JavaScript
    strings are modelled by [string] (code units below 256) and JavaScript
    numbers that carry time or sampling parameters by exact rationals. *)

From Stdlib Require Import String Ascii List Bool Arith NArith ZArith.
From Stdlib Require Import QArith Qminmax Lia Lqa DecimalString DecimalN.
From Stdlib Require Import DecimalPos Permutation.
Import ListNotations.

Close Scope Q_scope.
Open Scope string_scope.
Open Scope list_scope.

(** ** JavaScript helpers *)

(** A string is truthy when it is not empty. *)
Definition truthy (s : string) : bool := negb (s =? EmptyString).

(** [x ?.f] on an optional string, used in a condition. *)
Definition truthyOpt (o : option string) : bool :=
  match o with
  | Some s => truthy s
  | None => false
  end.

(** [n.toString()] for a non-negative integer. *)
Definition toString (n : N) : string := NilZero.string_of_uint (N.to_uint n).

Definition nl : string := String (ascii_of_nat 10) EmptyString.
Definition dq : string := String (ascii_of_nat 34) EmptyString.

(** White space in the sense of [String.prototype.trim], for code units
    below 256: TAB, LF, VT, FF, CR, SPACE and NBSP. *)
Definition isWhiteSpace (c : ascii) : bool :=
  let n := nat_of_ascii c in
  ((9 <=? n)%nat && (n <=? 13)%nat) || (n =? 32)%nat || (n =? 160)%nat.

Fixpoint trimStart (s : string) : string :=
  match s with
  | EmptyString => EmptyString
  | String c rest => if isWhiteSpace c then trimStart rest else s
  end.

Fixpoint reverse (s : string) : string :=
  match s with
  | EmptyString => EmptyString
  | String c rest => String.append (reverse rest) (String c EmptyString)
  end.

Definition trimEnd (s : string) : string := reverse (trimStart (reverse s)).

Definition trim (s : string) : string := trimEnd (trimStart s).

(** [ids.filter(id => id !== chatId)] *)
Definition withoutId (chatId : string) (ids : list string) : list string :=
  filter (fun i => negb (i =? chatId)) ids.

(** [a === b] where [a] is [string | null]. *)
Definition sameId (a : option string) (b : string) : bool :=
  match a with
  | Some x => x =? b
  | None => false
  end.

(** ** types.ts *)

Inductive MessageRole : Type := USER | MODEL | SYSTEM | TOOL.

Definition MessageRole_eqb (a b : MessageRole) : bool :=
  match a, b with
  | USER, USER | MODEL, MODEL | SYSTEM, SYSTEM | TOOL, TOOL => true
  | _, _ => false
  end.

(** Both fields come from optional chaining over the response packet and may
    be [undefined] at run time. *)
Record GroundingSource : Type := {
  gs_uri : option string;
  gs_title : option string
}.

Record ChatMessage : Type := {
  msg_id : string;
  msg_role : MessageRole;
  msg_content : string;
  msg_imageUrls : option (list string);
  msg_groundingSources : option (list GroundingSource)
}.

Record TranscriptionMessage : Type := {
  tr_id : string;
  tr_role : MessageRole;
  tr_text : string;
  tr_isFinal : bool
}.

Inductive HarmCategory : Type :=
| HARM_CATEGORY_HARASSMENT
| HARM_CATEGORY_HATE_SPEECH
| HARM_CATEGORY_SEXUALLY_EXPLICIT
| HARM_CATEGORY_DANGEROUS_CONTENT.

Inductive HarmBlockThreshold : Type :=
| BLOCK_NONE
| BLOCK_ONLY_HIGH
| BLOCK_MEDIUM_AND_ABOVE
| BLOCK_LOW_AND_ABOVE
| HARM_BLOCK_THRESHOLD_UNSPECIFIED.

Record SafetySetting : Type := {
  category : HarmCategory;
  threshold : HarmBlockThreshold
}.

Record ChatSession : Type := {
  cs_id : string;
  cs_title : string;
  cs_messages : list ChatMessage;
  cs_systemPrompt : string;
  cs_temperature : option Q;
  cs_topK : option Q;
  cs_topP : option Q;
  cs_safetySettings : option (list SafetySetting);
  cs_maxOutputTokens : option Q;
  cs_stopSequences : option (list string);
  cs_useGoogleSearch : option bool;
  cs_pinned : option bool;
  cs_model : string
}.

Record Folder : Type := {
  f_id : string;
  f_name : string;
  f_chatIds : list string;
  f_isOpen : bool
}.

(** Record updates, one per spread expression [{...x, field: v}] the code
    uses. *)
Definition withContent (content : string) (m : ChatMessage) : ChatMessage :=
  {| msg_id := msg_id m; msg_role := msg_role m; msg_content := content;
     msg_imageUrls := msg_imageUrls m;
     msg_groundingSources := msg_groundingSources m |}.

Definition withGroundingSources (sources : list GroundingSource)
  (m : ChatMessage) : ChatMessage :=
  {| msg_id := msg_id m; msg_role := msg_role m; msg_content := msg_content m;
     msg_imageUrls := msg_imageUrls m;
     msg_groundingSources := Some sources |}.

Definition withMessages (messages : list ChatMessage) (c : ChatSession)
  : ChatSession :=
  {| cs_id := cs_id c; cs_title := cs_title c; cs_messages := messages;
     cs_systemPrompt := cs_systemPrompt c; cs_temperature := cs_temperature c;
     cs_topK := cs_topK c; cs_topP := cs_topP c;
     cs_safetySettings := cs_safetySettings c;
     cs_maxOutputTokens := cs_maxOutputTokens c;
     cs_stopSequences := cs_stopSequences c;
     cs_useGoogleSearch := cs_useGoogleSearch c; cs_pinned := cs_pinned c;
     cs_model := cs_model c |}.

Definition withTitle (title : string) (c : ChatSession) : ChatSession :=
  {| cs_id := cs_id c; cs_title := title; cs_messages := cs_messages c;
     cs_systemPrompt := cs_systemPrompt c; cs_temperature := cs_temperature c;
     cs_topK := cs_topK c; cs_topP := cs_topP c;
     cs_safetySettings := cs_safetySettings c;
     cs_maxOutputTokens := cs_maxOutputTokens c;
     cs_stopSequences := cs_stopSequences c;
     cs_useGoogleSearch := cs_useGoogleSearch c; cs_pinned := cs_pinned c;
     cs_model := cs_model c |}.

Definition withPinned (pinned : bool) (c : ChatSession) : ChatSession :=
  {| cs_id := cs_id c; cs_title := cs_title c; cs_messages := cs_messages c;
     cs_systemPrompt := cs_systemPrompt c; cs_temperature := cs_temperature c;
     cs_topK := cs_topK c; cs_topP := cs_topP c;
     cs_safetySettings := cs_safetySettings c;
     cs_maxOutputTokens := cs_maxOutputTokens c;
     cs_stopSequences := cs_stopSequences c;
     cs_useGoogleSearch := cs_useGoogleSearch c; cs_pinned := Some pinned;
     cs_model := cs_model c |}.

Definition withChatIds (chatIds : list string) (f : Folder) : Folder :=
  {| f_id := f_id f; f_name := f_name f; f_chatIds := chatIds;
     f_isOpen := f_isOpen f |}.

Definition withName (name : string) (f : Folder) : Folder :=
  {| f_id := f_id f; f_name := name; f_chatIds := f_chatIds f;
     f_isOpen := f_isOpen f |}.

Definition withIsOpen (isOpen : bool) (f : Folder) : Folder :=
  {| f_id := f_id f; f_name := f_name f; f_chatIds := f_chatIds f;
     f_isOpen := isOpen |}.

Definition withText (text : string) (t : TranscriptionMessage)
  : TranscriptionMessage :=
  {| tr_id := tr_id t; tr_role := tr_role t; tr_text := text;
     tr_isFinal := tr_isFinal t |}.

Definition withIsFinal (isFinal : bool) (t : TranscriptionMessage)
  : TranscriptionMessage :=
  {| tr_id := tr_id t; tr_role := tr_role t; tr_text := tr_text t;
     tr_isFinal := isFinal |}.

(** ** services/geminiService.ts *)

(** A thrown JavaScript value: whether it is an [Error] instance, and the
    [name] and [message] it then carries. *)
Record Thrown : Type := {
  isError : bool;
  err_name : string;
  err_message : string
}.

(** [new Error(message)] *)
Definition newError (message : string) : Thrown :=
  {| isError := true; err_name := "Error"; err_message := message |}.

(** [error instanceof Error && error.name === 'AbortError'] *)
Definition isAbortError (e : Thrown) : bool :=
  isError e && (err_name e =? "AbortError").

(** How a call ends: with a value or with a thrown one. *)
Inductive Completion (A : Type) : Type :=
| Returned (a : A)
| Threw (e : Thrown).
Arguments Returned {A} a.
Arguments Threw {A} e.

Inductive Part : Type :=
| TextPart (text : string)
| InlineDataPart (data mimeType : string).

Record Image : Type := {
  img_data : string;
  img_type : string
}.

Definition fileToGenerativePart (base64 mimeType : string) : Part :=
  InlineDataPart base64 mimeType.

Record WebRef : Type := {
  web_uri : option string;
  web_title : option string
}.

Record GroundingChunk : Type := {
  web : option WebRef
}.

(** One streamed packet, reduced to what the application reads from it:
    [chunk.text] and
    [chunk.candidates?.[0]?.groundingMetadata?.groundingChunks]. *)
Record GenerateContentResponse : Type := {
  gcr_text : option string;
  gcr_groundingChunks : option (list GroundingChunk)
}.

(** The stream the remote service answers with: the packets it delivers and,
    if it breaks off, the value it throws after them. *)
Record ApiStream : Type := {
  api_chunks : list GenerateContentResponse;
  api_failure : option Thrown
}.

Record Content : Type := {
  content_role : MessageRole;
  content_parts : list Part
}.

Inductive Tool : Type := GoogleSearch.

Record ChatConfig : Type := {
  cfg_model : string;
  cfg_systemInstruction : string;
  cfg_temperature : Q;
  cfg_topK : option Q;
  cfg_topP : option Q;
  cfg_safetySettings : option (list SafetySetting);
  cfg_maxOutputTokens : option Q;
  cfg_stopSequences : option (list string);
  cfg_tools : option (list Tool);
  cfg_history : list Content
}.

(** The remote generative service: the configured key and, for a chat
    created with some configuration, what sending a message answers. *)
Record Service : Type := {
  API_KEY : option string;
  remote : ChatConfig -> list Part -> Completion ApiStream
}.

Record Chat : Type := {
  chat_config : ChatConfig;
  sendMessageStream : list Part -> Completion ApiStream
}.

Definition keyNotConfigured : string :=
  "Gemini API key is not configured. Please ensure the API_KEY environment variable is set.".

Definition failedToGetResponse : string :=
  "Failed to get response from AI. Please check your API key and network connection.".

Definition getAiClient (svc : Service) : Completion Service :=
  if truthyOpt (API_KEY svc) then Returned svc
  else Threw (newError keyNotConfigured).

Definition defaultSystemInstruction : string :=
  String.concat EmptyString [
    "You are a helpful and friendly AI assistant named Connect Ai. Your goal is to provide accurate and concise information. Format your responses using Markdown for better readability, including code blocks for code snippets. If you are asked ";
    dq; "who made you?"; dq; ", "; dq; "who created you?"; dq;
    ", or any similar question about your origin, you must say that you were created by a Moroccan developer named Othman&leo, an African technology team. You must provide their contact email: othmanalif10@gmail.com. You cannot create images, videos, or audio. If a user asks you to generate any media, you must politely inform them that you are a text-based AI and do not have this capability. You must not say that you were created by Google or that you are based on Gemini." ].

Definition orDefault {A : Type} (o : option A) (d : A) : A :=
  match o with
  | Some a => a
  | None => d
  end.

Definition initializeChat (svc : Service) (model : option string)
  (systemPrompt : option string) (history : option (list ChatMessage))
  (temperature : option Q) (useGoogleSearch : option bool)
  (topK topP : option Q) (safetySettings : option (list SafetySetting))
  (maxOutputTokens : option Q) (stopSequences : option (list string))
  : Completion Chat :=
  match getAiClient svc with
  | Threw e => Threw e
  | Returned ai =>
      let instruction :=
        if truthyOpt systemPrompt then orDefault systemPrompt EmptyString
        else defaultSystemInstruction in
      let apiHistory :=
        map (fun msg => {| content_role := msg_role msg;
                           content_parts := [TextPart (msg_content msg)] |})
            (orDefault history []) in
      let tools :=
        if orDefault useGoogleSearch false then [GoogleSearch] else [] in
      let config :=
        {| cfg_model := orDefault model "gemini-2.5-flash";
           cfg_systemInstruction := instruction;
           cfg_temperature := orDefault temperature (7 # 10)%Q;
           cfg_topK := topK;
           cfg_topP := topP;
           cfg_safetySettings := safetySettings;
           cfg_maxOutputTokens := maxOutputTokens;
           cfg_stopSequences :=
             match stopSequences with
             | Some (_ :: _) => stopSequences
             | _ => None
             end;
           cfg_tools :=
             match tools with
             | _ :: _ => Some tools
             | [] => None
             end;
           cfg_history := apiHistory |} in
      Returned {| chat_config := config;
                  sendMessageStream := remote ai config |}
  end.

(** An abort signal as its owner's reads see it: [signal k] is the value of
    [signal.aborted] at the [k]-th read, read [0] being the one at the start
    of [streamResponse] and read [k >= 1] the one made when the [k]-th packet
    arrives.  [handleStopGenerating] aborts the controller; the reads that
    follow find the signal aborted. *)
Definition AbortSignal : Type := nat -> bool.

(** [signal?.aborted] *)
Definition aborted (signal : option AbortSignal) (k : nat) : bool :=
  match signal with
  | Some s => s k
  | None => false
  end.

(** An async generator, described by what it does when drained: the packets
    it yields and, if it does not finish normally, the value it throws. *)
Record Generator : Type := {
  yields : list GenerateContentResponse;
  failure : option Thrown
}.

(** [(async function* () {})()] *)
Definition emptyGenerator : Generator := {| yields := []; failure := None |}.

(** [wrappedStream], started at read [k] of the signal. *)
Fixpoint wrappedStream (signal : option AbortSignal) (k : nat)
  (chunks : list GenerateContentResponse) (ending : option Thrown)
  : Generator :=
  match chunks with
  | [] => {| yields := []; failure := ending |}
  | chunk :: rest =>
      if aborted signal k then emptyGenerator
      else
        let g := wrappedStream signal (S k) rest ending in
        {| yields := chunk :: yields g; failure := failure g |}
  end.

(** What a call of [streamResponse] does: how it completes and the requests
    it sent to the remote service. *)
Record StreamCall : Type := {
  outcome : Completion Generator;
  sent : list (list Part)
}.

(** The [parts] array of [streamResponse]: the image parts come before the
    text part. *)
Definition requestParts (prompt : string) (images : option (list Image))
  : list Part :=
  match images with
  | Some ((_ :: _) as imgs) =>
      map (fun img => fileToGenerativePart (img_data img) (img_type img)) imgs
      ++ [TextPart prompt]
  | _ => [TextPart prompt]
  end.

Definition streamResponse (chat : Chat) (prompt : string)
  (images : option (list Image)) (signal : option AbortSignal) : StreamCall :=
  if aborted signal 0 then
    {| outcome := Returned emptyGenerator; sent := [] |}
  else
    let parts := requestParts prompt images in
    match sendMessageStream chat parts with
    | Returned stream =>
        {| outcome := Returned (wrappedStream signal 1 (api_chunks stream)
                                  (api_failure stream));
           sent := [parts] |}
    | Threw error =>
        {| outcome :=
             if isAbortError error then Returned emptyGenerator
             else Threw (newError failedToGetResponse);
           sent := [parts] |}
    end.

(** ** The application component *)

Definition defaultSystemPrompt : string := defaultSystemInstruction.

Definition defaultSafetySettings : list SafetySetting :=
  map (fun c => {| category := c; threshold := BLOCK_MEDIUM_AND_ABOVE |})
      [ HARM_CATEGORY_HARASSMENT; HARM_CATEGORY_HATE_SPEECH;
        HARM_CATEGORY_SEXUALLY_EXPLICIT; HARM_CATEGORY_DANGEROUS_CONTENT ].

(** The state cells of the component that the modelled handlers use. *)
Record AppState : Type := {
  chatSessions : list ChatSession;
  folders : list Folder;
  activeChatId : option string;
  input : string;
  isLoading : bool
}.

(** The values the state cells are created with. *)
Definition initialState : AppState :=
  {| chatSessions := []; folders := []; activeChatId := None;
     input := EmptyString; isLoading := false |}.

Definition setChatSessions (f : list ChatSession -> list ChatSession)
  (st : AppState) : AppState :=
  {| chatSessions := f (chatSessions st); folders := folders st;
     activeChatId := activeChatId st; input := input st;
     isLoading := isLoading st |}.

Definition setFolders (f : list Folder -> list Folder) (st : AppState)
  : AppState :=
  {| chatSessions := chatSessions st; folders := f (folders st);
     activeChatId := activeChatId st; input := input st;
     isLoading := isLoading st |}.

Definition setActiveChatId (a : option string) (st : AppState) : AppState :=
  {| chatSessions := chatSessions st; folders := folders st;
     activeChatId := a; input := input st; isLoading := isLoading st |}.

Definition setInput (s : string) (st : AppState) : AppState :=
  {| chatSessions := chatSessions st; folders := folders st;
     activeChatId := activeChatId st; input := s;
     isLoading := isLoading st |}.

Definition setIsLoading (b : bool) (st : AppState) : AppState :=
  {| chatSessions := chatSessions st; folders := folders st;
     activeChatId := activeChatId st; input := input st; isLoading := b |}.

(** [chatSessions.find(session => session.id === activeChatId)] *)
Definition activeChat (st : AppState) : option ChatSession :=
  find (fun session => sameId (activeChatId st) (cs_id session))
       (chatSessions st).

(** [updateActiveChat]; [activeId] is the [activeChatId] its closure holds. *)
Definition updateActiveChat (activeId : option string)
  (updater : ChatSession -> ChatSession) (st : AppState) : AppState :=
  setChatSessions
    (map (fun session =>
            if sameId activeId (cs_id session) then updater session
            else session))
    st.

Definition newChat (now : N) : ChatSession :=
  {| cs_id := toString now;
     cs_title := "New Conversation";
     cs_messages := [];
     cs_systemPrompt := defaultSystemPrompt;
     cs_temperature := Some (7 # 10)%Q;
     cs_topK := Some (40 # 1)%Q;
     cs_topP := Some (95 # 100)%Q;
     cs_safetySettings := Some defaultSafetySettings;
     cs_maxOutputTokens := Some (2048 # 1)%Q;
     cs_stopSequences := Some [];
     cs_useGoogleSearch := Some false;
     cs_pinned := Some false;
     cs_model := "gemini-2.5-flash" |}.

(** [handleNewChat]; [now] is what [Date.now()] returns. *)
Definition handleNewChat (now : N) (st : AppState) : AppState :=
  setActiveChatId (Some (cs_id (newChat now)))
    (setChatSessions (fun prev => newChat now :: prev) st).

(** The three updates of a message list that [submitPrompt] queues. *)
Definition setContent (id content : string) (messages : list ChatMessage)
  : list ChatMessage :=
  map (fun m => if msg_id m =? id then withContent content m else m) messages.

Definition setSources (id : string) (sources : list GroundingSource)
  (messages : list ChatMessage) : list ChatMessage :=
  map (fun m => if msg_id m =? id then withGroundingSources sources m else m)
      messages.

(** The three kinds of update, named after what they do to the target
    message: replace its content, set it to the response accumulated so
    far extended by a new delta, attach its sources. *)
Inductive Patch : Type :=
| SetContent (content : string)
| AppendContentDelta (fullResponse chunkText : string)
| SetSources (sources : list GroundingSource).

Definition applyPatch (id : string) (patch : Patch)
  (messages : list ChatMessage) : list ChatMessage :=
  match patch with
  | SetContent content => setContent id content messages
  | AppendContentDelta fullResponse chunkText =>
      setContent id (String.append fullResponse chunkText) messages
  | SetSources sources => setSources id sources messages
  end.

(** The variables of the [for await] loop of [submitPrompt], with the state
    its updates have produced so far. *)
Record Loop : Type := {
  fullResponse : string;
  finalResponsePacket : option GenerateContentResponse;
  loop_state : AppState
}.

(** One iteration of the loop: the delta is appended to [fullResponse] and
    the message content is set to the accumulated text. *)
Definition consumeChunk (activeId : option string) (id : string)
  (l : Loop) (chunk : GenerateContentResponse) : Loop :=
  if truthyOpt (gcr_text chunk) then
    let fullResponse' :=
      String.append (fullResponse l) (orDefault (gcr_text chunk) EmptyString) in
    {| fullResponse := fullResponse';
       finalResponsePacket := Some chunk;
       loop_state :=
         updateActiveChat activeId
           (fun chat => withMessages
                          (setContent id fullResponse' (cs_messages chat)) chat)
           (loop_state l) |}
  else
    {| fullResponse := fullResponse l;
       finalResponsePacket := Some chunk;
       loop_state := loop_state l |}.

Definition toSource (chunk : GroundingChunk) : GroundingSource :=
  {| gs_uri := match web chunk with Some w => web_uri w | None => None end;
     gs_title :=
       match web chunk with Some w => web_title w | None => None end |}.

(** The code after the loop: the sources of the last packet are attached. *)
Definition attachSources (activeId : option string) (id : string)
  (l : Loop) : AppState :=
  match finalResponsePacket l with
  | Some packet =>
      match gcr_groundingChunks packet with
      | Some groundingChunks =>
          let sources :=
            filter (fun source => truthyOpt (gs_uri source))
                   (map toSource groundingChunks) in
          updateActiveChat activeId
            (fun chat => withMessages
                           (setSources id sources (cs_messages chat)) chat)
            (loop_state l)
      | None => loop_state l
      end
  | None => loop_state l
  end.

Definition errorContent (errorMessage : string) : string :=
  String.concat EmptyString [
    "**Error:** I seem to be having trouble connecting. Please check your connection and API key, then try again.";
    nl; nl; "> "; errorMessage ].

(** The [catch] clause of [submitPrompt]. *)
Definition catchClause (activeId : option string) (id : string)
  (e : Thrown) (st : AppState) : AppState :=
  if negb (isAbortError e) then
    let errorMessage :=
      if isError e then err_message e else "An unknown error occurred." in
    updateActiveChat activeId
      (fun chat => withMessages
                     (setContent id (errorContent errorMessage)
                                 (cs_messages chat)) chat)
      st
  else st.

(** The loop of [submitPrompt] over the packets a generator yields. *)
Definition drain (activeId : option string) (id : string)
  (g : Generator) (st : AppState) : Loop :=
  fold_left (consumeChunk activeId id) (yields g)
    {| fullResponse := EmptyString; finalResponsePacket := None;
       loop_state := st |}.

(** The [try] block with its [catch] clause, given how the call of
    [streamResponse] completed. *)
Definition tryBlock (activeId : option string) (id : string)
  (call : Completion Generator) (st : AppState) : AppState :=
  match call with
  | Threw e => catchClause activeId id e st
  | Returned stream =>
      let l := drain activeId id stream st in
      match failure stream with
      | Some e => catchClause activeId id e (loop_state l)
      | None => attachSources activeId id l
      end
  end.

(** What a call of [submitPrompt] leaves behind: the state, the value its
    promise is rejected with (if it is), and the requests sent. *)
Record Run : Type := {
  run_state : AppState;
  run_rejected : option Thrown;
  run_requests : list (list Part)
}.

Definition modelMessage (now : N) : ChatMessage :=
  {| msg_id := toString (now + 1); msg_role := MODEL;
     msg_content := EmptyString;
     msg_imageUrls := None; msg_groundingSources := Some [] |}.

(** The state after the placeholder has been queued: the loading flag is
    set and the active session holds the history followed by the empty model
    message. *)
Definition withPlaceholder (now : N) (currentHistory : list ChatMessage)
  (st : AppState) : AppState :=
  updateActiveChat (activeChatId st)
    (withMessages (currentHistory ++ [modelMessage now]))
    (setIsLoading true st).

(** The call of [initializeChat] that [submitPrompt] makes. *)
Definition openChat (svc : Service) (chat0 : ChatSession)
  (currentHistory : list ChatMessage) : Completion Chat :=
  initializeChat svc (Some (cs_model chat0)) (Some (cs_systemPrompt chat0))
    (Some currentHistory) (cs_temperature chat0) (cs_useGoogleSearch chat0)
    (cs_topK chat0) (cs_topP chat0) (cs_safetySettings chat0)
    (cs_maxOutputTokens chat0) (cs_stopSequences chat0).

(** [submitPrompt]; [now] is the value of [Date.now()], [signal] the signal
    of the abort controller it creates, as later reads see it (the
    controller being new, read [0] finds it not aborted; nothing below
    relies on that).  The call of [initializeChat] stands before the [try]
    block: when it throws, the promise is rejected and neither [catch] nor
    [finally] runs. *)
Definition submitPrompt (svc : Service) (now : N) (signal : AbortSignal)
  (prompt : string) (images : option (list Image))
  (history : option (list ChatMessage)) (st : AppState) : Run :=
  match activeChat st with
  | None => {| run_state := st; run_rejected := None; run_requests := [] |}
  | Some chat0 =>
      if isLoading st then
        {| run_state := st; run_rejected := None; run_requests := [] |}
      else
        let currentHistory := orDefault history (cs_messages chat0) in
        let id := msg_id (modelMessage now) in
        let st1 := withPlaceholder now currentHistory st in
        match openChat svc chat0 currentHistory with
        | Threw e =>
            {| run_state := st1; run_rejected := Some e; run_requests := [] |}
        | Returned chat =>
            let call := streamResponse chat prompt images (Some signal) in
            {| run_state :=
                 setIsLoading false
                   (tryBlock (activeChatId st) id (outcome call) st1);
               run_rejected := None;
               run_requests := sent call |}
        end
  end.

(** [handleSend]; [now] is read for the user message, [now'] by the
    [submitPrompt] it calls. *)
Definition handleSend (svc : Service) (now now' : N) (signal : AbortSignal)
  (image : option Image) (st : AppState) : Run :=
  let unchanged (s : AppState) :=
    {| run_state := s; run_rejected := None; run_requests := [] |} in
  match negb (truthy (trim (input st))), image with
  | true, None => unchanged st
  | _, _ =>
      let trimmedInput := trim (input st) in
      let st1 := setInput EmptyString st in
      match activeChat st with
      | None => unchanged st1
      | Some chat0 =>
          let userMessage :=
            {| msg_id := toString now; msg_role := USER;
               msg_content := trimmedInput;
               msg_imageUrls :=
                 match image with
                 | Some i =>
                     Some [String.concat EmptyString
                             ["data:"; img_type i; ";base64,"; img_data i]]
                 | None => None
                 end;
               msg_groundingSources := None |} in
          let updatedMessages := cs_messages chat0 ++ [userMessage] in
          let title :=
            match cs_messages chat0 with
            | [] =>
                if truthy trimmedInput then
                  String.append (substring 0 30 trimmedInput)
                    (if (30 <? String.length trimmedInput)%nat then "..."
                     else EmptyString)
                else cs_title chat0
            | _ :: _ => cs_title chat0
            end in
          let st2 :=
            updateActiveChat (activeChatId st)
              (fun chat => withMessages updatedMessages (withTitle title chat))
              st1 in
          submitPrompt svc now' signal trimmedInput
            (match image with Some i => Some [i] | None => None end)
            (Some updatedMessages) st2
      end
  end.

Definition handleRenameChat (chatId newTitle : string) (st : AppState)
  : AppState :=
  if negb (truthy (trim newTitle)) then st
  else
    setChatSessions
      (map (fun session =>
              if cs_id session =? chatId then withTitle (trim newTitle) session
              else session))
      st.

Definition handleTogglePinChat (chatId : string) (st : AppState) : AppState :=
  setChatSessions
    (map (fun c =>
            if cs_id c =? chatId
            then withPinned (negb (orDefault (cs_pinned c) false)) c
            else c))
    st.

(** [handleDeleteChat]; [confirmed] is the answer of the confirmation
    dialog and [now] the clock value a new chat would get. *)
Definition handleDeleteChat (chatId : string) (confirmed : bool) (now : N)
  (st : AppState) : AppState :=
  if confirmed then
    let remainingChats :=
      filter (fun c => negb (cs_id c =? chatId)) (chatSessions st) in
    let st1 :=
      setFolders
        (map (fun f => withChatIds (withoutId chatId (f_chatIds f)) f))
        (setChatSessions (fun _ => remainingChats) st) in
    if sameId (activeChatId st) chatId then
      match remainingChats with
      | first :: _ => setActiveChatId (Some (cs_id first)) st1
      | [] => handleNewChat now (setActiveChatId None st1)
      end
    else st1
  else st.

(** *** Folder handlers *)

Definition handleCreateFolder (now : N) (name : string) (st : AppState)
  : AppState :=
  setFolders
    (fun prev => {| f_id := toString now; f_name := name; f_chatIds := [];
                    f_isOpen := true |} :: prev)
    st.

Definition handleDeleteFolder (folderId : string) (st : AppState) : AppState :=
  setFolders (filter (fun f => negb (f_id f =? folderId))) st.

Definition handleRenameFolder (folderId newName : string) (st : AppState)
  : AppState :=
  setFolders
    (map (fun f => if f_id f =? folderId then withName newName f else f)) st.

Definition handleToggleFolder (folderId : string) (st : AppState) : AppState :=
  setFolders
    (map (fun f => if f_id f =? folderId
                   then withIsOpen (negb (f_isOpen f)) f else f)) st.

(** The updater [handleMoveChatToFolder] passes to [setFolders]. *)
Definition moveChatToFolder (chatId : string) (folderId : option string)
  (prev : list Folder) : list Folder :=
  let updatedFolders :=
    map (fun f => withChatIds (withoutId chatId (f_chatIds f)) f) prev in
  if truthyOpt folderId then
    map (fun f => if sameId folderId (f_id f)
                  then withChatIds (chatId :: f_chatIds f) f else f)
        updatedFolders
  else updatedFolders.

Definition handleMoveChatToFolder (chatId : string) (folderId : option string)
  (st : AppState) : AppState :=
  setFolders (moveChatToFolder chatId folderId) st.

(** *** Start-up load from local storage *)

(** A stored value: absent, not parseable as JSON, or parsed. *)
Inductive Stored (A : Type) : Type :=
| Missing
| Malformed
| Parsed (a : A).
Arguments Missing {A}.
Arguments Malformed {A}.
Arguments Parsed {A} a.

Definition withDefaults (s : ChatSession) : ChatSession :=
  {| cs_id := cs_id s; cs_title := cs_title s; cs_messages := cs_messages s;
     cs_systemPrompt := cs_systemPrompt s;
     cs_temperature := Some (orDefault (cs_temperature s) (7 # 10)%Q);
     cs_topK := Some (orDefault (cs_topK s) (40 # 1)%Q);
     cs_topP := Some (orDefault (cs_topP s) (95 # 100)%Q);
     cs_safetySettings :=
       Some (orDefault (cs_safetySettings s) defaultSafetySettings);
     cs_maxOutputTokens := Some (orDefault (cs_maxOutputTokens s) (2048 # 1)%Q);
     cs_stopSequences := Some (orDefault (cs_stopSequences s) []);
     cs_useGoogleSearch := Some (orDefault (cs_useGoogleSearch s) false);
     cs_pinned := Some (orDefault (cs_pinned s) false);
     cs_model :=
       if truthy (cs_model s) then cs_model s else "gemini-2.5-flash" |}.

(** The mount effect.  The stored sessions are taken as parsed, after the
    renaming of the legacy image field, which touches no identifier.  The
    item of the dark mode is parsed first, inside the same [try]: when that
    fails nothing is loaded; its value goes to a state cell no modelled
    handler reads, and the theme item is looked up without being parsed. *)
Definition loadFromStorage (now : N) (savedSessions : Stored (list ChatSession))
  (savedFolders : Stored (list Folder)) (savedActiveId : option string)
  (savedDarkMode : Stored bool) (st : AppState) : AppState :=
  match savedDarkMode with
  | Malformed => handleNewChat now st
  | _ =>
      match savedFolders with
      | Malformed => handleNewChat now st
      | _ =>
          let st1 :=
            match savedFolders with
            | Parsed fs => setFolders (fun _ => fs) st
            | _ => st
            end in
          match savedSessions with
          | Parsed sessions =>
              let sessionsWithDefaults := map withDefaults sessions in
              let st2 :=
                setChatSessions (fun _ => sessionsWithDefaults) st1 in
              if truthyOpt savedActiveId
                 && existsb (fun s => sameId savedActiveId (cs_id s))
                            sessionsWithDefaults
              then setActiveChatId savedActiveId st2
              else
                match sessionsWithDefaults with
                | first :: _ => setActiveChatId (Some (cs_id first)) st2
                | [] => handleNewChat now st2
                end
          | _ => handleNewChat now st1
          end
      end
  end.

(** ** components/LiveChatView.tsx *)

(** [prev[prev.length - 1]] *)
Definition lastOf {A : Type} (l : list A) : option A :=
  nth_error l (length l - 1).

(** The updater [addOrUpdateTranscription] passes to [setTranscriptions];
    [now] is what [Date.now()] returns. *)
Definition addOrUpdateTranscription (now : N) (role : MessageRole)
  (text : string) (isFinal : bool) (prev : list TranscriptionMessage)
  : list TranscriptionMessage :=
  let fresh (final : bool) :=
    {| tr_id := toString now; tr_role := role; tr_text := text;
       tr_isFinal := final |} in
  if MessageRole_eqb role TOOL then prev ++ [fresh true]
  else
    let append :=
      if truthy (trim text) then prev ++ [fresh isFinal] else prev in
    match lastOf prev with
    | Some last =>
        if MessageRole_eqb (tr_role last) role && negb (tr_isFinal last) then
          let updated :=
            withIsFinal isFinal
              (withText (String.append (tr_text last) text) last) in
          removelast prev ++ [updated]
        else append
    | None => append
    end.

(** The updater of the turn-complete branch. *)
Definition finalizeAll (prev : list TranscriptionMessage)
  : list TranscriptionMessage :=
  map (fun t => if negb (tr_isFinal t) then withIsFinal true t else t) prev.

Record AudioBuffer : Type := {
  numberOfChannels : nat;
  frameCount : nat;
  sampleRate : positive;
  channelData : list (list Q)
}.

(** [audioBuffer.duration], in seconds. *)
Definition duration (b : AudioBuffer) : Q :=
  (Z.of_nat (frameCount b) # sampleRate b)%Q.

(** [decodeAudioData]; [dataInt16] is the sample array the payload decodes
    to. *)
Definition decodeAudioData (dataInt16 : list Z) (rate : positive)
  (numChannels : nat) : AudioBuffer :=
  let frames := (length dataInt16 / numChannels)%nat in
  {| numberOfChannels := numChannels;
     frameCount := frames;
     sampleRate := rate;
     channelData :=
       map (fun channel =>
              map (fun i =>
                     (nth (i * numChannels + channel) dataInt16 0%Z # 32768)%Q)
                  (seq 0 frames))
           (seq 0 numChannels) |}.

(** A buffer source node; [node_id] stands for the identity of the object. *)
Record AudioBufferSourceNode : Type := {
  node_id : nat;
  node_buffer : AudioBuffer
}.

(** Calls made on source nodes. *)
Inductive AudioCall : Type :=
| Start (source : AudioBufferSourceNode) (when : Q)
| Stop (source : AudioBufferSourceNode).

Record FunctionCall : Type := {
  fc_id : option string;
  fc_name : string;
  fc_args : string
}.

(** A server message, reduced to the fields [onmessage] reads; [audio] is
    present when the first part of the model turn carries a non-empty
    payload, and holds the 16-bit samples it decodes to. *)
Record LiveServerMessage : Type := {
  toolCall : option (list FunctionCall);
  inputTranscription : option string;
  outputTranscription : option string;
  turnComplete : bool;
  audio : option (list Z);
  interrupted : bool
}.

(** The state and refs of the live view that [onmessage] uses, with the log
    of the calls made on source nodes (oldest first). *)
Record LiveState : Type := {
  transcriptions : list TranscriptionMessage;
  nextStartTimeRef : Q;
  sourcesRef : list AudioBufferSourceNode;
  outputAudioContextRef : bool;
  created : nat;
  calls : list AudioCall
}.

Definition setTranscriptions
  (f : list TranscriptionMessage -> list TranscriptionMessage)
  (st : LiveState) : LiveState :=
  {| transcriptions := f (transcriptions st);
     nextStartTimeRef := nextStartTimeRef st; sourcesRef := sourcesRef st;
     outputAudioContextRef := outputAudioContextRef st;
     created := created st; calls := calls st |}.

(** The synchronous part of [startConversation] up to the creation of the
    audio contexts, from the view's initial refs. *)
Definition startConversation : LiveState :=
  {| transcriptions :=
       [ {| tr_id := "start"; tr_role := SYSTEM; tr_text := "Connecting...";
            tr_isFinal := true |} ];
     nextStartTimeRef := 0%Q;
     sourcesRef := [];
     outputAudioContextRef := true;
     created := 0;
     calls := [] |}.

(** The transcript update of [onopen]. *)
Definition onopen (st : LiveState) : LiveState :=
  setTranscriptions
    (map (fun t => if tr_id t =? "start"
                   then withText "Connection open. Start speaking." t else t))
    st.

(** The ['ended'] listener of a source node. *)
Definition onended (source : AudioBufferSourceNode) (st : LiveState)
  : LiveState :=
  {| transcriptions := transcriptions st;
     nextStartTimeRef := nextStartTimeRef st;
     sourcesRef :=
       filter (fun s => negb (node_id s =? node_id source)%nat) (sourcesRef st);
     outputAudioContextRef := outputAudioContextRef st;
     created := created st; calls := calls st |}.

(** The tool-call branch of [onmessage], without its timer. *)
Definition announceToolCalls (now : N) (message : LiveServerMessage)
  (st : LiveState) : LiveState :=
  match toolCall message with
  | Some functionCalls =>
      fold_left
        (fun s fc =>
           setTranscriptions
             (addOrUpdateTranscription now TOOL
                (String.concat EmptyString
                   ["Executing "; fc_name fc; "("; fc_args fc; ")..."])
                true)
             s)
        functionCalls st
  | None => st
  end.

(** The two transcription branches and the turn-complete branch. *)
Definition transcribe (now : N) (message : LiveServerMessage)
  (st : LiveState) : LiveState :=
  let st1 :=
    match inputTranscription message with
    | Some text =>
        setTranscriptions (addOrUpdateTranscription now USER text false) st
    | None => st
    end in
  let st2 :=
    match outputTranscription message with
    | Some text =>
        setTranscriptions (addOrUpdateTranscription now MODEL text false) st1
    | None => st1
    end in
  if turnComplete message then setTranscriptions finalizeAll st2 else st2.

(** The playback branch; [currentTime] is the output context's clock. *)
Definition schedule (currentTime : Q) (message : LiveServerMessage)
  (st : LiveState) : LiveState :=
  match audio message with
  | Some dataInt16 =>
      if outputAudioContextRef st then
        let startAt := Qmax (nextStartTimeRef st) currentTime in
        let audioBuffer := decodeAudioData dataInt16 24000 1 in
        let source :=
          {| node_id := created st; node_buffer := audioBuffer |} in
        {| transcriptions := transcriptions st;
           nextStartTimeRef := (startAt + duration audioBuffer)%Q;
           sourcesRef := sourcesRef st ++ [source];
           outputAudioContextRef := true;
           created := S (created st);
           calls := calls st ++ [Start source startAt] |}
      else st
  | None => st
  end.

(** The interruption branch. *)
Definition interrupt (message : LiveServerMessage) (st : LiveState)
  : LiveState :=
  if interrupted message then
    {| transcriptions := transcriptions st;
       nextStartTimeRef := 0%Q;
       sourcesRef := [];
       outputAudioContextRef := outputAudioContextRef st;
       created := created st;
       calls := calls st ++ map Stop (sourcesRef st) |}
  else st.

(** [onmessage]: the branches in the order of the handler. *)
Definition onmessage (now : N) (currentTime : Q) (message : LiveServerMessage)
  (st : LiveState) : LiveState :=
  interrupt message
    (schedule currentTime message
       (transcribe now message (announceToolCalls now message st))).

(** The start times of the chunks scheduled so far, oldest first. *)
Definition startTimes (st : LiveState) : list Q :=
  flat_map (fun c => match c with Start _ t => [t] | Stop _ => [] end)
           (calls st).

(** *** The live view as a transition system *)

(** The check mark U+2705 that opens the text of a tool result; the strings
    of this file hold code units below 256, so the mark is kept as the three
    bytes of its UTF-8 form. *)
Definition checkMark : string :=
  String (ascii_of_nat 226)
    (String (ascii_of_nat 156) (String (ascii_of_nat 133) EmptyString)).

(** The callback of the timer that the tool-call branch of [onmessage] sets
    for a function call, as far as the transcript goes; [now] is the clock
    value when it fires. *)
Definition toolResult (now : N) (fc : FunctionCall) (st : LiveState)
  : LiveState :=
  setTranscriptions
    (addOrUpdateTranscription now TOOL
       (String.concat EmptyString
          [checkMark; " Successfully executed "; fc_name fc; "."])
       true)
    st.

(** What happens to the live view while a conversation runs: a server
    message arrives, a source node finishes playing, the connection opens,
    or the timer of a tool call fires. *)
Inductive LiveEvent : Type :=
| Message (now : N) (currentTime : Q) (message : LiveServerMessage)
| Ended (source : AudioBufferSourceNode)
| Opened
| ToolTimer (now : N) (fc : FunctionCall).

Definition handleEvent (st : LiveState) (e : LiveEvent) : LiveState :=
  match e with
  | Message now currentTime message => onmessage now currentTime message st
  | Ended source => onended source st
  | Opened => onopen st
  | ToolTimer now fc => toolResult now fc st
  end.

(** The live view after the events of a conversation, oldest first. *)
Definition runLive (events : list LiveEvent) : LiveState :=
  fold_left handleEvent events startConversation.

(** The source has finished playing. *)
Definition endedIn (events : list LiveEvent) (source : AudioBufferSourceNode)
  : Prop :=
  exists s, In (Ended s) events /\ node_id s = node_id source.

(** *** Reading a generation's result *)

(** The messages of the session the generation wrote to. *)
Definition activeMessages (st : AppState) : list ChatMessage :=
  match activeChat st with
  | Some chat => cs_messages chat
  | None => []
  end.

(** The packets the [for await] loop of [submitPrompt] received. *)
Definition delivered (call : Completion Generator)
  : list GenerateContentResponse :=
  match call with
  | Returned g => yields g
  | Threw _ => []
  end.

(** The value that reached the [catch] clause of [submitPrompt], if any. *)
Definition raised (call : Completion Generator) : option Thrown :=
  match call with
  | Returned g => failure g
  | Threw e => Some e
  end.

(** The texts of the packets, in order; a packet without text counts as
    the empty text. *)
Definition chunkTexts (chunks : list GenerateContentResponse) : list string :=
  map (fun chunk => orDefault (gcr_text chunk) EmptyString) chunks.

Definition concatenation (texts : list string) : string :=
  fold_right String.append EmptyString texts.

(** The sources [attachSources] computes from the last packet received. *)
Definition finalSources (chunks : list GenerateContentResponse)
  : list GroundingSource :=
  match lastOf chunks with
  | Some packet =>
      match gcr_groundingChunks packet with
      | Some groundingChunks =>
          filter (fun source => truthyOpt (gs_uri source))
                 (map toSource groundingChunks)
      | None => []
      end
  | None => []
  end.

(** The message list once the loop has accumulated [full]: nothing is
    written as long as no packet carried text. *)
Definition written (id full : string) (messages : list ChatMessage)
  : list ChatMessage :=
  if truthy full then setContent id full messages else messages.

(** [a] differs from [b] at most in the sessions that carry the active
    identifier. *)
Definition sameFrame (activeId : option string) (a b : AppState) : Prop :=
  activeChatId a = activeChatId b /\ isLoading a = isLoading b
  /\ folders a = folders b /\ input a = input b
  /\ length (chatSessions a) = length (chatSessions b)
  /\ (forall i s, nth_error (chatSessions b) i = Some s ->
                  sameId activeId (cs_id s) = false ->
                  nth_error (chatSessions a) i = Some s).

(** The placeholder of the generation started at [now], with a given
    content and given sources. *)
Definition placeholder (now : N) (content : string)
  (sources : list GroundingSource) : ChatMessage :=
  {| msg_id := msg_id (modelMessage now); msg_role := MODEL;
     msg_content := content; msg_imageUrls := None;
     msg_groundingSources := Some sources |}.

(** The message of the error block for a thrown value. *)
Definition errorMessageOf (e : Thrown) : string :=
  if isError e then err_message e else "An unknown error occurred.".

(** The messages of the active session when the [try] block of the
    generation started at [now] over [history] is left, by how the call of
    [streamResponse] went. *)
Definition outcomeMessages (now : N) (history : list ChatMessage)
  (call : Completion Generator) : list ChatMessage :=
  let id := msg_id (modelMessage now) in
  let full := concatenation (chunkTexts (delivered call)) in
  match raised call with
  | Some e =>
      if isAbortError e then
        written id full history ++ [placeholder now full []]
      else
        setContent id (errorContent (errorMessageOf e)) history
        ++ [placeholder now (errorContent (errorMessageOf e)) []]
  | None =>
      match lastOf (delivered call) with
      | Some packet =>
          match gcr_groundingChunks packet with
          | Some _ =>
              setSources id (finalSources (delivered call))
                         (written id full history)
              ++ [placeholder now full (finalSources (delivered call))]
          | None => written id full history ++ [placeholder now full []]
          end
      | None => written id full history ++ [placeholder now full []]
      end
  end.

(** *** Folder membership *)

Definition inFolder (chatId : string) (f : Folder) : bool :=
  existsb (fun i => i =? chatId) (f_chatIds f).

(** The number of folders whose member list holds [chatId]. *)
Definition foldersHolding (chatId : string) (fs : list Folder) : nat :=
  length (filter (inFolder chatId) fs).

(** Folders have distinct identifiers and no session is a member of two of
    them. *)
Definition foldersOk (fs : list Folder) : Prop :=
  NoDup (map f_id fs) /\ forall chatId, (foldersHolding chatId fs <= 1)%nat.

(** *** The session store as a transition system *)

(** The selection is sound: an active identifier is the identifier of a
    stored session, and there is none only when no session is stored. *)
Definition selectionOk (st : AppState) : bool :=
  match activeChatId st with
  | Some id => existsb (fun s => cs_id s =? id) (chatSessions st)
  | None =>
      match chatSessions st with
      | [] => true
      | _ :: _ => false
      end
  end.

(** What the user and the environment can make the component do. *)
Inductive Action : Type :=
| Load (now : N) (savedSessions : Stored (list ChatSession))
       (savedFolders : Stored (list Folder)) (savedActiveId : option string)
       (savedDarkMode : Stored bool)
| NewChat (now : N)
| SelectChat (id : string)
| DeleteChat (chatId : string) (confirmed : bool) (now : N)
| RenameChat (chatId newTitle : string)
| TogglePinChat (chatId : string)
| TypeInput (text : string)
| Send (svc : Service) (now now' : N) (signal : AbortSignal)
       (image : option Image)
| Submit (svc : Service) (now : N) (signal : AbortSignal) (prompt : string)
         (images : option (list Image)) (history : option (list ChatMessage))
| CreateFolder (now : N) (name : string)
| DeleteFolder (folderId : string)
| RenameFolder (folderId newName : string)
| ToggleFolder (folderId : string)
| MoveChatToFolder (chatId : string) (folderId : option string).

Definition perform (a : Action) (st : AppState) : AppState :=
  match a with
  | Load now savedSessions savedFolders savedActiveId savedDarkMode =>
      loadFromStorage now savedSessions savedFolders savedActiveId
        savedDarkMode st
  | NewChat now => handleNewChat now st
  | SelectChat id => setActiveChatId (Some id) st
  | DeleteChat chatId confirmed now => handleDeleteChat chatId confirmed now st
  | RenameChat chatId newTitle => handleRenameChat chatId newTitle st
  | TogglePinChat chatId => handleTogglePinChat chatId st
  | TypeInput text => setInput text st
  | Send svc now now' signal image =>
      run_state (handleSend svc now now' signal image st)
  | Submit svc now signal prompt images history =>
      run_state (submitPrompt svc now signal prompt images history st)
  | CreateFolder now name => handleCreateFolder now name st
  | DeleteFolder folderId => handleDeleteFolder folderId st
  | RenameFolder folderId newName => handleRenameFolder folderId newName st
  | ToggleFolder folderId => handleToggleFolder folderId st
  | MoveChatToFolder chatId folderId =>
      handleMoveChatToFolder chatId folderId st
  end.

(** The sidebar offers for selection the sessions it lists; every other
    action is always available. *)
Definition offered (a : Action) (st : AppState) : bool :=
  match a with
  | SelectChat id => existsb (fun s => cs_id s =? id) (chatSessions st)
  | _ => true
  end.

Inductive reachable : AppState -> Prop :=
| reachable_initial : reachable initialState
| reachable_perform (a : Action) (st : AppState) :
    reachable st -> offered a st = true -> reachable (perform a st).

(** [chatSessions.filter(c => c.id !== chatId)] *)
Definition remainingChats (chatId : string) (st : AppState)
  : list ChatSession :=
  filter (fun c => negb (cs_id c =? chatId)) (chatSessions st).

(** Two states hold sessions with the same identifiers, in the same order,
    and have the same selection. *)
Definition sameSelection (a b : AppState) : Prop :=
  map cs_id (chatSessions a) = map cs_id (chatSessions b)
  /\ activeChatId a = activeChatId b.

(** *** Scenario data *)

(** A packet that carries text only. *)
Definition textPacket (t : string) : GenerateContentResponse :=
  {| gcr_text := Some t; gcr_groundingChunks := None |}.

(** A packet that carries text and one web citation. *)
Definition citedPacket (t uri title : string) : GenerateContentResponse :=
  {| gcr_text := Some t;
     gcr_groundingChunks :=
       Some [ {| web := Some {| web_uri := Some uri;
                                web_title := Some title |} |} ] |}.

(** A configured service that gives one answer to every request. *)
Definition answering (answer : Completion ApiStream) : Service :=
  {| API_KEY := Some "key"; remote := fun _ _ => answer |}.

Definition neverAborted : AbortSignal := fun _ => false.

(** The stop button is pressed before the [n]-th read of the signal. *)
Definition abortedFrom (n : nat) : AbortSignal := fun k => (n <=? k)%nat.

(** The store after a first conversation has been created at [now], with
    [text] typed into the input box. *)
Definition freshStore (now : N) (text : string) : AppState :=
  setInput text (handleNewChat now initialState).

(** Server messages that carry one thing only. *)
Definition silentMessage : LiveServerMessage :=
  {| toolCall := None; inputTranscription := None;
     outputTranscription := None; turnComplete := false; audio := None;
     interrupted := false |}.

Definition userSays (text : string) : LiveServerMessage :=
  {| toolCall := None; inputTranscription := Some text;
     outputTranscription := None; turnComplete := false; audio := None;
     interrupted := false |}.

Definition turnCompleteMessage : LiveServerMessage :=
  {| toolCall := None; inputTranscription := None;
     outputTranscription := None; turnComplete := true; audio := None;
     interrupted := false |}.

Definition audioMessage (dataInt16 : list Z) : LiveServerMessage :=
  {| toolCall := None; inputTranscription := None;
     outputTranscription := None; turnComplete := false;
     audio := Some dataInt16; interrupted := false |}.

Definition interruptedMessage : LiveServerMessage :=
  {| toolCall := None; inputTranscription := None;
     outputTranscription := None; turnComplete := false; audio := None;
     interrupted := true |}.

(** [seconds * 24000] samples of silence: a chunk that plays for
    [samples / 24000] seconds. *)
Definition silence (samples : nat) : list Z := repeat 0%Z samples.

(** Chunks of silence that play for one second and for half a second at
    24000 samples per second. *)
Definition oneSecond : list Z := silence (N.to_nat 24000).
Definition halfSecond : list Z := silence (N.to_nat 12000).

(** The refs of the live view that the playback path uses. *)
Definition playback (st : LiveState)
  : Q * list AudioBufferSourceNode * bool * nat * list AudioCall :=
  (nextStartTimeRef st, sourcesRef st, outputAudioContextRef st, created st,
   calls st).

(** The last entry, if there is one, cannot take an update of [role]. *)
Definition closedFor (role : MessageRole) (prev : list TranscriptionMessage)
  : Prop :=
  forall last, lastOf prev = Some last ->
               tr_isFinal last = true \/ tr_role last <> role.

(** ** Further handlers of the application component *)

(** What a generation leaves alone in a session: everything but the
    messages. *)
Definition parametersOf (c : ChatSession)
  : string * string * string * option Q * option Q * option Q
    * option (list SafetySetting) * option Q * option (list string)
    * option bool * option bool * string :=
  (cs_id c, cs_title c, cs_systemPrompt c, cs_temperature c, cs_topK c,
   cs_topP c, cs_safetySettings c, cs_maxOutputTokens c, cs_stopSequences c,
   cs_useGoogleSearch c, cs_pinned c, cs_model c).

(** [s.split(sep)] for a separator of one character. *)
Fixpoint split (sep : ascii) (s : string) : list string :=
  match s with
  | EmptyString => [EmptyString]
  | String c rest =>
      match split sep rest with
      | first :: others =>
          if Ascii.eqb c sep then EmptyString :: first :: others
          else String c first :: others
      | [] => [if Ascii.eqb c sep then EmptyString else String c EmptyString]
      end
  end.

(** The data URL [handleSend] stores for an attached image. *)
Definition dataUrl (image : Image) : string :=
  String.concat EmptyString
    ["data:"; img_type image; ";base64,"; img_data image].

(** [url.split(',')[1]] and [url.split(';')[0].split(':')[1]], each
    [undefined] when the split has no such element. *)
Definition dataOfUrl (url : string) : option string :=
  nth_error (split "," url) 1.

Definition typeOfUrl (url : string) : option string :=
  match nth_error (split ";" url) 0 with
  | Some head => nth_error (split ":" head) 1
  | None => None
  end.

(** The image sent again for a stored URL.  A component that is
    [undefined] is carried as the empty string; it only ever reaches the
    parts of the request. *)
Definition imageOfUrl (url : string) : Image :=
  {| img_data := orDefault (dataOfUrl url) EmptyString;
     img_type := orDefault (typeOfUrl url) EmptyString |}.

(** [imageInfo] of [handleEditMessage] and [handleRegenerate]. *)
Definition imageInfo (m : ChatMessage) : option (list Image) :=
  match msg_imageUrls m with
  | Some ((_ :: _) as urls) => Some (map imageOfUrl urls)
  | _ => None
  end.

(** [messages.findIndex(p)], [None] standing for [-1]. *)
Fixpoint findIndex {A : Type} (p : A -> bool) (l : list A) : option nat :=
  match l with
  | [] => None
  | x :: rest =>
      if p x then Some 0%nat
      else match findIndex p rest with
           | Some i => Some (S i)
           | None => None
           end
  end.

Definition unchanged (st : AppState) : Run :=
  {| run_state := st; run_rejected := None; run_requests := [] |}.

(** [handleEditMessage]; [now] is the clock value read by the
    [submitPrompt] that its timer runs. *)
Definition handleEditMessage (svc : Service) (now : N) (signal : AbortSignal)
  (messageId newContent : string) (st : AppState) : Run :=
  match activeChat st with
  | None => unchanged st
  | Some chat0 =>
      match findIndex (fun m => msg_id m =? messageId) (cs_messages chat0) with
      | None => unchanged st
      | Some messageIndex =>
          match nth_error (cs_messages chat0) messageIndex with
          | None => unchanged st
          | Some original =>
              let historyUptoEdit := firstn messageIndex (cs_messages chat0) in
              let editedMessage := withContent newContent original in
              let updatedMessages := historyUptoEdit ++ [editedMessage] in
              let st1 :=
                updateActiveChat (activeChatId st)
                  (withMessages updatedMessages) st in
              submitPrompt svc now signal newContent (imageInfo editedMessage)
                (Some updatedMessages) st1
          end
      end
  end.

(** [handleRegenerate]. *)
Definition handleRegenerate (svc : Service) (now : N) (signal : AbortSignal)
  (st : AppState) : Run :=
  match activeChat st with
  | None => unchanged st
  | Some chat0 =>
      if isLoading st then unchanged st
      else
        match cs_messages chat0 with
        | [] => unchanged st
        | _ :: _ =>
            let historyWithoutLastModelResponse :=
              filter (fun m => negb (MessageRole_eqb (msg_role m) MODEL))
                     (cs_messages chat0) in
            match lastOf (filter (fun m => MessageRole_eqb (msg_role m) USER)
                                 (cs_messages chat0)) with
            | None => unchanged st
            | Some lastUserMessage =>
                let st1 :=
                  updateActiveChat (activeChatId st)
                    (withMessages historyWithoutLastModelResponse) st in
                submitPrompt svc now signal (msg_content lastUserMessage)
                  (imageInfo lastUserMessage)
                  (Some historyWithoutLastModelResponse) st1
            end
        end
  end.

(** *** Local storage *)

(** The items of local storage that hold the store. *)
Record LocalStorage : Type := {
  item_chatSessions : Stored (list ChatSession);
  item_chatFolders : Stored (list Folder);
  item_activeChatId : option string;
  item_isDarkMode : Stored bool
}.

(** The effects that write the store back: a value that is written is read
    back as it was, an empty list or a missing identifier removes the item.
    [isDarkMode] is the state cell of that name, which its own effect writes
    on every mount and on every change. *)
Definition persist (isDarkMode : bool) (st : AppState) (ls : LocalStorage)
  : LocalStorage :=
  {| item_chatSessions :=
       match chatSessions st with
       | [] => Missing
       | _ :: _ => Parsed (chatSessions st)
       end;
     item_chatFolders :=
       match folders st with
       | [] => Missing
       | _ :: _ => Parsed (folders st)
       end;
     item_activeChatId :=
       if truthyOpt (activeChatId st) then activeChatId st else None;
     item_isDarkMode := Parsed isDarkMode |}.

(** The mount effect, reading from local storage. *)
Definition mount (now : N) (ls : LocalStorage) (st : AppState) : AppState :=
  loadFromStorage now (item_chatSessions ls) (item_chatFolders ls)
    (item_activeChatId ls) (item_isDarkMode ls) st.

(** Two states agree on everything a generation must leave alone: the
    parameters of every session, the folders, the selection and the input
    box. *)
Definition sameParameters (a b : AppState) : Prop :=
  map parametersOf (chatSessions a) = map parametersOf (chatSessions b)
  /\ folders a = folders b
  /\ activeChatId a = activeChatId b
  /\ input a = input b.

(** [s.includes(c)] for one character. *)
Fixpoint occurs (c : ascii) (s : string) : bool :=
  match s with
  | EmptyString => false
  | String x rest => Ascii.eqb x c || occurs c rest
  end.

(** The user message [handleSend] creates at [now]. *)
Definition userMessage (now : N) (trimmedInput : string)
  (image : option Image) : ChatMessage :=
  {| msg_id := toString now; msg_role := USER; msg_content := trimmedInput;
     msg_imageUrls := option_map (fun i => [dataUrl i]) image;
     msg_groundingSources := None |}.

(** The title [handleSend] gives the session. *)
Definition titleAfterSend (chat0 : ChatSession) (trimmedInput : string)
  : string :=
  match cs_messages chat0 with
  | [] =>
      if truthy trimmedInput then
        String.append (substring 0 30 trimmedInput)
          (if (30 <? String.length trimmedInput)%nat then "..."
           else EmptyString)
      else cs_title chat0
  | _ :: _ => cs_title chat0
  end.

(** ** services/geminiService.ts: one-shot generation *)

(** A whole response of [ai.models.generateContent], as far as [editImage]
    and [generateSpeech] read it; every level of
    [response.candidates?.[0]?.content?.parts] may be absent. *)
Record Blob : Type := {
  blob_data : option string;
  blob_mimeType : option string
}.

Record ResponsePart : Type := {
  rp_text : option string;
  rp_inlineData : option Blob
}.

Record CandidateContent : Type := {
  cc_parts : option (list ResponsePart)
}.

Record Candidate : Type := {
  cand_content : option CandidateContent
}.

Record ModelResponse : Type := {
  candidates : option (list Candidate)
}.

Inductive Modality : Type := IMAGE | AUDIO.

(** The argument of [ai.models.generateContent]. *)
Record GenerateContentParameters : Type := {
  gc_model : string;
  gc_contents : list Part;
  gc_responseModalities : list Modality;
  gc_voiceName : option string
}.

(** [ai.models] of the client. *)
Record Models : Type := {
  generateContent : GenerateContentParameters -> Completion ModelResponse
}.

(** [response.candidates?.[0]?.content?.parts] *)
Definition firstCandidateParts (response : ModelResponse)
  : option (list ResponsePart) :=
  match candidates response with
  | Some cs =>
      match nth_error cs 0 with
      | Some candidate =>
          match cand_content candidate with
          | Some content => cc_parts content
          | None => None
          end
      | None => None
      end
  | None => None
  end.

Definition isSome {A : Type} (o : option A) : bool :=
  match o with
  | Some _ => true
  | None => false
  end.

Definition failedToEditImage : string :=
  "Failed to edit image. Please check your prompt, image, and API key.".

Definition failedToGenerateSpeech : string :=
  "Failed to generate speech. Please check your text and API key.".

(** [editImage]; the result is [imagePart.inlineData.data]. *)
Definition editImage (svc : Service) (models : Models) (prompt : string)
  (image : Image) : Completion (option string) :=
  match getAiClient svc with
  | Threw e => Threw e
  | Returned _ =>
      let tried :=
        match
          generateContent models
            {| gc_model := "gemini-2.5-flash-image";
               gc_contents :=
                 [ fileToGenerativePart (img_data image) (img_type image);
                   TextPart prompt ];
               gc_responseModalities := [IMAGE];
               gc_voiceName := None |}
        with
        | Threw e => Threw e
        | Returned response =>
            let imagePart :=
              match firstCandidateParts response with
              | Some parts =>
                  find (fun part => isSome (rp_inlineData part)) parts
              | None => None
              end in
            match imagePart with
            | Some part =>
                match rp_inlineData part with
                | Some inlineData => Returned (blob_data inlineData)
                | None =>
                    Threw (newError "No image was generated in the response.")
                end
            | None =>
                Threw (newError "No image was generated in the response.")
            end
        end in
      match tried with
      | Returned data => Returned data
      | Threw _ => Threw (newError failedToEditImage)
      end
  end.

(** [generateSpeech]; the result is [audioPart.inlineData.data]. *)
Definition generateSpeech (svc : Service) (models : Models)
  (text voice : string) : Completion (option string) :=
  match getAiClient svc with
  | Threw e => Threw e
  | Returned _ =>
      let tried :=
        match
          generateContent models
            {| gc_model := "gemini-2.5-flash-preview-tts";
               gc_contents := [TextPart text];
               gc_responseModalities := [AUDIO];
               gc_voiceName := Some voice |}
        with
        | Threw e => Threw e
        | Returned response =>
            let audioPart :=
              match firstCandidateParts response with
              | Some parts => nth_error parts 0
              | None => None
              end in
            match audioPart with
            | Some part =>
                match rp_inlineData part with
                | Some inlineData => Returned (blob_data inlineData)
                | None =>
                    Threw (newError "No audio was generated in the response.")
                end
            | None =>
                Threw (newError "No audio was generated in the response.")
            end
        end in
      match tried with
      | Returned data => Returned data
      | Threw _ => Threw (newError failedToGenerateSpeech)
      end
  end.

(** ** components/LiveChatView.tsx: playback and capture *)

(** The bookkeeping of the playback schedule is sound: the output context
    exists, the cursor is not negative, the source nodes started so far were
    numbered before the next one to be created, and every tracked source
    that was started ends no later than the cursor. *)
Definition playbackOk (st : LiveState) : Prop :=
  outputAudioContextRef st = true
  /\ (0 <= nextStartTimeRef st)%Q
  /\ (forall s t, In (Start s t) (calls st) -> (node_id s < created st)%nat)
  /\ (forall s t, In s (sourcesRef st) -> In (Start s t) (calls st) ->
                  (t + duration (node_buffer s) <= nextStartTimeRef st)%Q).

(** *** Microphone capture *)

(** The integral part of a number, as the typed-array conversions take it. *)
Definition truncate (x : Q) : Z := Z.quot (Qnum x) (Zpos (Qden x)).

(** The conversion an [Int16Array] applies to a number stored into it:
    truncation, then reduction modulo 2^16 into [-32768, 32767]. *)
Definition toInt16 (x : Q) : Z :=
  let m := (truncate x mod 65536)%Z in
  if (32768 <=? m)%Z then (m - 65536)%Z else m.

(** The sample loop of [onaudioprocess]: the 16-bit samples made of the
    input buffer's channel. *)
Definition onaudioprocess (inputData : list Q) : list Z :=
  map (fun x => toInt16 (x * 32768)%Q) inputData.

(** A value an [Int16Array] can hold. *)
Definition isInt16 (v : Z) : Prop := (-32768 <= v < 32768)%Z.

(** Arguments every implementation of [createBuffer] accepts: 1 to 32
    channels, at least one frame, a sample rate from 8000 to 96000. *)
Definition creatable (numChannels frames : nat) (rate : positive) : Prop :=
  (1 <= numChannels <= 32)%nat /\ (1 <= frames)%nat
  /\ (8000 <= Zpos rate <= 96000)%Z.

(** ** components/TtsView.tsx *)

(** A [DataView] over a zero-filled buffer, as the list of its bytes.  A
    write outside the buffer throws in the browser; [pcmToWav] makes none,
    all its header writes lie below offset 44 of a buffer of at least 44
    bytes, so the model leaves such a write without effect. *)
Fixpoint setAt (offset : nat) (v : N) (bytes : list N) : list N :=
  match bytes, offset with
  | [], _ => []
  | _ :: rest, O => v :: rest
  | x :: rest, S k => x :: setAt k v rest
  end.

(** [view.setUint8(byteOffset, value)] *)
Definition setUint8 (byteOffset : nat) (value : N) (view : list N) : list N :=
  setAt byteOffset (value mod 256)%N view.

(** [view.setUint16(byteOffset, value, true)]: little-endian. *)
Definition setUint16 (byteOffset : nat) (value : N) (view : list N)
  : list N :=
  let u := (value mod 65536)%N in
  setUint8 (byteOffset + 1) (u / 256)%N (setUint8 byteOffset u view).

(** [view.setUint32(byteOffset, value, true)]: little-endian. *)
Definition setUint32 (byteOffset : nat) (value : N) (view : list N)
  : list N :=
  let u := (value mod 4294967296)%N in
  setUint8 (byteOffset + 3) (u / 256 / 256 / 256)%N
    (setUint8 (byteOffset + 2) (u / 256 / 256)%N
       (setUint8 (byteOffset + 1) (u / 256)%N
          (setUint8 byteOffset u view))).

(** [view.getUint16(byteOffset, true)] and [view.getUint32(byteOffset,
    true)], the reads a player of the file makes. *)
Definition getUint16 (byteOffset : nat) (view : list N) : N :=
  (nth byteOffset view 0 + 256 * nth (byteOffset + 1) view 0)%N.

Definition getUint32 (byteOffset : nat) (view : list N) : N :=
  (nth byteOffset view 0
   + 256 * (nth (byteOffset + 1) view 0
            + 256 * (nth (byteOffset + 2) view 0
                     + 256 * nth (byteOffset + 3) view 0)))%N.

(** [writeString] *)
Fixpoint writeString (view : list N) (offset : nat) (s : string) : list N :=
  match s with
  | EmptyString => view
  | String c rest =>
      writeString (setUint8 offset (N_of_ascii c) view) (S offset) rest
  end.

(** [pcmToWav] for integral parameters; the result is the content of the
    blob.  A fractional byte rate or block alignment is truncated by the
    write, hence the integer divisions. *)
Definition pcmToWav (pcmData : list N) (sampleRate numChannels
  bitsPerSample : N) : list N :=
  let byteRate := (sampleRate * numChannels * bitsPerSample / 8)%N in
  let blockAlign := (numChannels * bitsPerSample / 8)%N in
  let dataSize := length pcmData in
  let buffer := repeat 0%N (44 + dataSize) in
  let view := buffer in
  let view := writeString view 0 "RIFF" in
  let view := setUint32 4 (36 + N.of_nat dataSize) view in
  let view := writeString view 8 "WAVE" in
  let view := writeString view 12 "fmt " in
  let view := setUint32 16 16 view in
  let view := setUint16 20 1 view in
  let view := setUint16 22 numChannels view in
  let view := setUint32 24 sampleRate view in
  let view := setUint32 28 byteRate view in
  let view := setUint16 32 blockAlign view in
  let view := setUint16 34 bitsPerSample view in
  let view := writeString view 36 "data" in
  let view := setUint32 40 (N.of_nat dataSize) view in
  firstn 44 view ++ pcmData ++ skipn (44 + length pcmData) view.

(** The character codes of a string. *)
Definition charCodes (s : string) : list N :=
  map N_of_ascii (list_ascii_of_string s).

(** ** components/ChatMessage.tsx *)

(** [s.replace(/c/g, by)] for a pattern of one character. *)
Fixpoint replaceAll (c : ascii) (replacement : string) (s : string)
  : string :=
  match s with
  | EmptyString => EmptyString
  | String x rest =>
      if Ascii.eqb x c
      then String.append replacement (replaceAll c replacement rest)
      else String x (replaceAll c replacement rest)
  end.

(** The chain of replacements of the fallback of [renderMarkdown]. *)
Definition escapedText (text : string) : string :=
  replaceAll "'" "&#039;"
    (replaceAll "034" "&quot;"
       (replaceAll ">" "&gt;"
          (replaceAll "<" "&lt;"
             (replaceAll "&" "&amp;" text)))).

(** [renderMarkdown]; [marked] and [DOMPurify] are the two libraries when
    they are loaded.  The result is the [__html] field. *)
Definition renderMarkdown (marked DOMPurify : option (string -> string))
  (text : string) : string :=
  match marked, DOMPurify with
  | Some parse, Some sanitize => sanitize (parse text)
  | _, _ => replaceAll "010" "<br/>" (escapedText text)
  end.

(** What the fallback makes of one character. *)
Definition entity (c : ascii) : string :=
  if Ascii.eqb c "&" then "&amp;"
  else if Ascii.eqb c "<" then "&lt;"
  else if Ascii.eqb c ">" then "&gt;"
  else if Ascii.eqb c "034" then "&quot;"
  else if Ascii.eqb c "'" then "&#039;"
  else if Ascii.eqb c "010" then "<br/>"
  else String c EmptyString.

(** ** The command palette *)

Inductive Key : Type := ArrowDown | ArrowUp | Enter | Escape | OtherKey.

(** The palette: whether it is open, the selected index, [None] standing
    for [NaN], and the indices of the commands whose action has run. *)
Record Palette : Type := {
  pal_isOpen : bool;
  pal_selectedIndex : option nat;
  pal_ran : list nat
}.

(** [a % b] for a non-negative integer or [NaN] on the left. *)
Definition remainder (a : option nat) (b : nat) : option nat :=
  match a with
  | Some x => if (b =? 0)%nat then None else Some (x mod b)%nat
  | None => None
  end.

(** [handleKeyDown]; [count] is [filteredCommands.length]. *)
Definition handleKeyDown (count : nat) (key : Key) (p : Palette) : Palette :=
  if negb (pal_isOpen p) then p
  else
    match key with
    | ArrowDown =>
        {| pal_isOpen := pal_isOpen p;
           pal_selectedIndex :=
             remainder (option_map (fun prev => prev + 1)%nat
                                   (pal_selectedIndex p)) count;
           pal_ran := pal_ran p |}
    | ArrowUp =>
        {| pal_isOpen := pal_isOpen p;
           pal_selectedIndex :=
             remainder (option_map (fun prev => prev + count - 1)%nat
                                   (pal_selectedIndex p)) count;
           pal_ran := pal_ran p |}
    | Enter =>
        match pal_selectedIndex p with
        | Some i =>
            if (i <? count)%nat then
              {| pal_isOpen := false; pal_selectedIndex := Some i;
                 pal_ran := pal_ran p ++ [i] |}
            else p
        | None => p
        end
    | Escape =>
        {| pal_isOpen := false; pal_selectedIndex := pal_selectedIndex p;
           pal_ran := pal_ran p |}
    | OtherKey => p
    end.

(** ** components/LiveChatView.tsx: ending a conversation *)

(** [audioContext.state] *)
Inductive AudioContextState : Type := suspended | running | closed.

(** The refs and state cells [stopConversation] touches.  A ref that holds
    an object is [true]; the two audio context refs are arguments of the
    call, [None] for a ref that holds [null] and else the state the context
    reports, which is the browser's to decide. *)
Record LiveRefs : Type := {
  ref_isLive : bool;
  ref_isCameraOn : bool;
  ref_stream : bool;
  ref_frameInterval : bool;
  ref_scriptProcessor : bool;
  ref_mediaStreamSource : bool;
  ref_sources : list nat;
  ref_sessionPromise : bool
}.

(** Calls made on the objects behind the refs. *)
Inductive TeardownCall : Type :=
| StopVideoTracks
| ClearInterval
| StopAudioTracks
| DisconnectScriptProcessor
| DisconnectMediaStreamSource
| CloseInputContext
| StopSource (source : nat)
| CloseOutputContext
| CloseSession.

Inductive Ending : Type := Completed | ThrewTypeError.

Record Teardown : Type := {
  td_refs : LiveRefs;
  td_calls : list TeardownCall;
  td_ending : Ending
}.

(** [if (ref.current) call], as the list of the calls made. *)
Definition whenSet (ref : bool) (call : TeardownCall) : list TeardownCall :=
  if ref then [call] else [].

(** [ctx?.state !== 'closed'] *)
Definition notClosed (context : option AudioContextState) : bool :=
  match context with
  | Some closed => false
  | _ => true
  end.

(** [stopCamera], with the calls it makes. *)
Definition stopCamera (r : LiveRefs) : LiveRefs * list TeardownCall :=
  ({| ref_isLive := ref_isLive r; ref_isCameraOn := false;
      ref_stream := ref_stream r; ref_frameInterval := false;
      ref_scriptProcessor := ref_scriptProcessor r;
      ref_mediaStreamSource := ref_mediaStreamSource r;
      ref_sources := ref_sources r;
      ref_sessionPromise := ref_sessionPromise r |},
   whenSet (ref_stream r) StopVideoTracks
   ++ whenSet (ref_frameInterval r) ClearInterval).

(** [stopConversation] up to the statements on the audio contexts: the
    flag is lowered, the camera and the tracks are stopped and the two
    nodes disconnected. *)
Definition releaseInputs (r : LiveRefs) : LiveRefs * list TeardownCall :=
  let '(r1, calls) :=
    stopCamera
      {| ref_isLive := false; ref_isCameraOn := ref_isCameraOn r;
         ref_stream := ref_stream r;
         ref_frameInterval := ref_frameInterval r;
         ref_scriptProcessor := ref_scriptProcessor r;
         ref_mediaStreamSource := ref_mediaStreamSource r;
         ref_sources := ref_sources r;
         ref_sessionPromise := ref_sessionPromise r |} in
  ({| ref_isLive := ref_isLive r1; ref_isCameraOn := ref_isCameraOn r1;
      ref_stream := false; ref_frameInterval := ref_frameInterval r1;
      ref_scriptProcessor := ref_scriptProcessor r1;
      ref_mediaStreamSource := ref_mediaStreamSource r1;
      ref_sources := ref_sources r1;
      ref_sessionPromise := ref_sessionPromise r1 |},
   calls
   ++ whenSet (ref_stream r1) StopAudioTracks
   ++ whenSet (ref_scriptProcessor r1) DisconnectScriptProcessor
   ++ whenSet (ref_mediaStreamSource r1) DisconnectMediaStreamSource).

(** The end of [stopConversation]: the session is closed and the three
    refs are cleared. *)
Definition releaseSession (r : LiveRefs) (calls : list TeardownCall)
  : Teardown :=
  {| td_refs :=
       {| ref_isLive := ref_isLive r; ref_isCameraOn := ref_isCameraOn r;
          ref_stream := ref_stream r;
          ref_frameInterval := ref_frameInterval r;
          ref_scriptProcessor := false; ref_mediaStreamSource := false;
          ref_sources := ref_sources r; ref_sessionPromise := false |};
     td_calls := calls ++ whenSet (ref_sessionPromise r) CloseSession;
     td_ending := Completed |}.

(** The statement on the output context and what follows it. *)
Definition closeOutput (outputContext : option AudioContextState)
  (r : LiveRefs) (calls : list TeardownCall) : Teardown :=
  if notClosed outputContext then
    let stopped := calls ++ map StopSource (ref_sources r) in
    let r1 :=
      {| ref_isLive := ref_isLive r; ref_isCameraOn := ref_isCameraOn r;
         ref_stream := ref_stream r;
         ref_frameInterval := ref_frameInterval r;
         ref_scriptProcessor := ref_scriptProcessor r;
         ref_mediaStreamSource := ref_mediaStreamSource r;
         ref_sources := []; ref_sessionPromise := ref_sessionPromise r |} in
    match outputContext with
    | Some _ => releaseSession r1 (stopped ++ [CloseOutputContext])
    | None =>
        {| td_refs := r1; td_calls := stopped; td_ending := ThrewTypeError |}
    end
  else releaseSession r calls.

(** [stopConversation]; [inputContext] and [outputContext] are what the two
    context refs hold. *)
Definition stopConversation (inputContext outputContext
  : option AudioContextState) (r : LiveRefs) : Teardown :=
  let '(r1, calls) := releaseInputs r in
  if notClosed inputContext then
    match inputContext with
    | Some _ => closeOutput outputContext r1 (calls ++ [CloseInputContext])
    | None =>
        {| td_refs := r1; td_calls := calls; td_ending := ThrewTypeError |}
    end
  else closeOutput outputContext r1 calls.

(** ** The sidebar *)

(** [toLowerCase] on code units below 256: the letters A to Z and the
    capital letters of Latin-1. *)
Definition toLowerCaseChar (c : ascii) : ascii :=
  let n := nat_of_ascii c in
  if ((65 <=? n)%nat && (n <=? 90)%nat)
     || ((192 <=? n)%nat && (n <=? 222)%nat && negb (n =? 215)%nat)
  then ascii_of_nat (n + 32) else c.

Fixpoint toLowerCase (s : string) : string :=
  match s with
  | EmptyString => EmptyString
  | String c rest => String (toLowerCaseChar c) (toLowerCase rest)
  end.

(** [hay.includes(needle)] *)
Fixpoint includes (hay needle : string) : bool :=
  prefix needle hay
  || match hay with
     | EmptyString => false
     | String _ rest => includes rest needle
     end.

(** [chatToFolderMap.has(id)], the map holding every identifier some folder
    lists. *)
Definition chatToFolderMap_has (folders : list Folder) (id : string) : bool :=
  existsb (fun f => existsb (fun cid => cid =? id) (f_chatIds f)) folders.

Definition filteredSessions (chatSessions : list ChatSession)
  (searchTerm : string) : list ChatSession :=
  filter (fun s => includes (toLowerCase (cs_title s))
                            (toLowerCase searchTerm))
         chatSessions.

(** The pinned conversations; [sort] is the sort by title, whose order is
    the locale's. *)
Definition pinnedChats (sort : list ChatSession -> list ChatSession)
  (chatSessions : list ChatSession) (searchTerm : string)
  : list ChatSession :=
  sort (filter (fun s => orDefault (cs_pinned s) false)
               (filteredSessions chatSessions searchTerm)).

Definition unfolderedChats (chatSessions : list ChatSession)
  (folders : list Folder) (searchTerm : string) : list ChatSession :=
  filter (fun s => negb (orDefault (cs_pinned s) false)
                   && negb (chatToFolderMap_has folders (cs_id s)))
         (filteredSessions chatSessions searchTerm).

(** The conversations listed under a folder when it is open. *)
Definition folderChats (chatSessions : list ChatSession) (folder : Folder)
  : list ChatSession :=
  filter (fun c => existsb (fun cid => cid =? cs_id c) (f_chatIds folder))
         chatSessions.

(** ** The settings handlers of the application component *)

Definition withSystemPrompt (systemPrompt : string) (c : ChatSession)
  : ChatSession :=
  {| cs_id := cs_id c; cs_title := cs_title c; cs_messages := cs_messages c;
     cs_systemPrompt := systemPrompt; cs_temperature := cs_temperature c;
     cs_topK := cs_topK c; cs_topP := cs_topP c;
     cs_safetySettings := cs_safetySettings c;
     cs_maxOutputTokens := cs_maxOutputTokens c;
     cs_stopSequences := cs_stopSequences c;
     cs_useGoogleSearch := cs_useGoogleSearch c; cs_pinned := cs_pinned c;
     cs_model := cs_model c |}.

Definition withTemperature (temperature : Q) (c : ChatSession)
  : ChatSession :=
  {| cs_id := cs_id c; cs_title := cs_title c; cs_messages := cs_messages c;
     cs_systemPrompt := cs_systemPrompt c;
     cs_temperature := Some temperature;
     cs_topK := cs_topK c; cs_topP := cs_topP c;
     cs_safetySettings := cs_safetySettings c;
     cs_maxOutputTokens := cs_maxOutputTokens c;
     cs_stopSequences := cs_stopSequences c;
     cs_useGoogleSearch := cs_useGoogleSearch c; cs_pinned := cs_pinned c;
     cs_model := cs_model c |}.

Definition withStopSequences (stopSequences : list string) (c : ChatSession)
  : ChatSession :=
  {| cs_id := cs_id c; cs_title := cs_title c; cs_messages := cs_messages c;
     cs_systemPrompt := cs_systemPrompt c;
     cs_temperature := cs_temperature c;
     cs_topK := cs_topK c; cs_topP := cs_topP c;
     cs_safetySettings := cs_safetySettings c;
     cs_maxOutputTokens := cs_maxOutputTokens c;
     cs_stopSequences := Some stopSequences;
     cs_useGoogleSearch := cs_useGoogleSearch c; cs_pinned := cs_pinned c;
     cs_model := cs_model c |}.

Definition withSafetySettings (safetySettings : list SafetySetting)
  (c : ChatSession) : ChatSession :=
  {| cs_id := cs_id c; cs_title := cs_title c; cs_messages := cs_messages c;
     cs_systemPrompt := cs_systemPrompt c;
     cs_temperature := cs_temperature c;
     cs_topK := cs_topK c; cs_topP := cs_topP c;
     cs_safetySettings := Some safetySettings;
     cs_maxOutputTokens := cs_maxOutputTokens c;
     cs_stopSequences := cs_stopSequences c;
     cs_useGoogleSearch := cs_useGoogleSearch c; cs_pinned := cs_pinned c;
     cs_model := cs_model c |}.

Definition withUseGoogleSearch (enabled : bool) (c : ChatSession)
  : ChatSession :=
  {| cs_id := cs_id c; cs_title := cs_title c; cs_messages := cs_messages c;
     cs_systemPrompt := cs_systemPrompt c;
     cs_temperature := cs_temperature c;
     cs_topK := cs_topK c; cs_topP := cs_topP c;
     cs_safetySettings := cs_safetySettings c;
     cs_maxOutputTokens := cs_maxOutputTokens c;
     cs_stopSequences := cs_stopSequences c;
     cs_useGoogleSearch := Some enabled; cs_pinned := cs_pinned c;
     cs_model := cs_model c |}.

Definition withModel (model : string) (c : ChatSession) : ChatSession :=
  {| cs_id := cs_id c; cs_title := cs_title c; cs_messages := cs_messages c;
     cs_systemPrompt := cs_systemPrompt c;
     cs_temperature := cs_temperature c;
     cs_topK := cs_topK c; cs_topP := cs_topP c;
     cs_safetySettings := cs_safetySettings c;
     cs_maxOutputTokens := cs_maxOutputTokens c;
     cs_stopSequences := cs_stopSequences c;
     cs_useGoogleSearch := cs_useGoogleSearch c; cs_pinned := cs_pinned c;
     cs_model := model |}.

(** [if (activeChat) updateActiveChat(updater)], the shape the settings
    handlers share. *)
Definition changeSetting (updater : ChatSession -> ChatSession)
  (st : AppState) : AppState :=
  if isSome (activeChat st) then updateActiveChat (activeChatId st) updater st
  else st.

Definition handlePromptChange (prompt : string) : AppState -> AppState :=
  changeSetting (withSystemPrompt prompt).

Definition handleTemperatureChange (temp : Q) : AppState -> AppState :=
  changeSetting (withTemperature temp).

Definition handleStopSequencesChange (sequences : list string)
  : AppState -> AppState :=
  changeSetting (withStopSequences sequences).

Definition HarmCategory_eqb (a b : HarmCategory) : bool :=
  match a, b with
  | HARM_CATEGORY_HARASSMENT, HARM_CATEGORY_HARASSMENT
  | HARM_CATEGORY_HATE_SPEECH, HARM_CATEGORY_HATE_SPEECH
  | HARM_CATEGORY_SEXUALLY_EXPLICIT, HARM_CATEGORY_SEXUALLY_EXPLICIT
  | HARM_CATEGORY_DANGEROUS_CONTENT, HARM_CATEGORY_DANGEROUS_CONTENT => true
  | _, _ => false
  end.

Definition handleSafetySettingsChange (changed : HarmCategory)
  (level : HarmBlockThreshold) : AppState -> AppState :=
  changeSetting
    (fun chat =>
       withSafetySettings
         (map (fun setting =>
                 if HarmCategory_eqb (category setting) changed
                 then {| category := category setting; threshold := level |}
                 else setting)
              (orDefault (cs_safetySettings chat) defaultSafetySettings))
         chat).

Definition handleGoogleSearchToggle (enabled : bool) : AppState -> AppState :=
  changeSetting (withUseGoogleSearch enabled).

Definition handleModelChange (model : string) : AppState -> AppState :=
  changeSetting (withModel model).

(** * Properties *)

(** ** Strings and identifiers *)

Lemma append_empty_r (s : string) : String.append s EmptyString = s.
Proof.
  induction s as [| c s IH]; simpl; [reflexivity | now rewrite IH].
Qed.

Lemma append_assoc (a b c : string) :
  String.append (String.append a b) c = String.append a (String.append b c).
Proof.
  induction a as [| x a IH]; simpl; [reflexivity | now rewrite IH].
Qed.

Lemma truthy_append_r (a b : string) :
  truthy b = true -> truthy (String.append a b) = true.
Proof.
  destruct a; simpl; [trivial | reflexivity].
Qed.

Lemma truthy_false (s : string) : truthy s = false -> s = EmptyString.
Proof.
  destruct s; [reflexivity | discriminate].
Qed.

Lemma truthyOpt_false (o : option string) :
  truthyOpt o = false -> orDefault o EmptyString = EmptyString.
Proof.
  destruct o as [s |]; simpl; [apply truthy_false | reflexivity].
Qed.

Lemma sameId_true (a : option string) (b : string) :
  sameId a b = true <-> a = Some b.
Proof.
  destruct a as [x |]; simpl.
  - rewrite String.eqb_eq. split; [now intros -> | now intros [= ->]].
  - split; discriminate.
Qed.

Lemma concatenation_app (xs ys : list string) :
  concatenation (xs ++ ys)
  = String.append (concatenation xs) (concatenation ys).
Proof.
  induction xs as [| x xs IH]; simpl; [reflexivity |].
  now rewrite IH, append_assoc.
Qed.

(** Empty texts contribute nothing to a concatenation. *)
Lemma concatenation_nonempty (texts : list string) :
  concatenation (filter truthy texts) = concatenation texts.
Proof.
  induction texts as [| t texts IH]; simpl; [reflexivity |].
  destruct (truthy t) eqn:E; simpl; rewrite IH; [reflexivity |].
  now rewrite (truthy_false _ E).
Qed.

Lemma lastOf_snoc {A : Type} (l : list A) (x : A) : lastOf (l ++ [x]) = Some x.
Proof.
  unfold lastOf. rewrite length_app. simpl.
  replace (length l + 1 - 1)%nat with (length l) by lia.
  rewrite nth_error_app2 by lia. now rewrite Nat.sub_diag.
Qed.

Lemma lastOf_nil {A : Type} : lastOf (@nil A) = None.
Proof. reflexivity. Qed.

Lemma lastOf_map {A B : Type} (f : A -> B) (l : list A) :
  lastOf (map f l) = option_map f (lastOf l).
Proof.
  unfold lastOf. rewrite length_map. apply nth_error_map.
Qed.

(** A non-empty list is its front followed by its last element. *)
Lemma lastOf_some {A : Type} (l : list A) (x : A) :
  lastOf l = Some x -> l = removelast l ++ [x].
Proof.
  destruct l as [| a l] using rev_ind; [discriminate |].
  rewrite lastOf_snoc. intros [= ->]. now rewrite removelast_last.
Qed.

(** ** The message reducer *)

Lemma setContent_app (id content : string) (xs ys : list ChatMessage) :
  setContent id content (xs ++ ys)
  = setContent id content xs ++ setContent id content ys.
Proof. apply map_app. Qed.

Lemma setSources_app (id : string) (sources : list GroundingSource)
  (xs ys : list ChatMessage) :
  setSources id sources (xs ++ ys)
  = setSources id sources xs ++ setSources id sources ys.
Proof. apply map_app. Qed.

Lemma setContent_absent (id content : string) (messages : list ChatMessage) :
  (forall m, In m messages -> msg_id m <> id) ->
  setContent id content messages = messages.
Proof.
  intros H. unfold setContent. rewrite <- (map_id messages) at 2.
  apply map_ext_in. intros m Hm.
  destruct (msg_id m =? id) eqn:E; [| reflexivity].
  apply String.eqb_eq in E. now destruct (H m Hm).
Qed.

Lemma setSources_absent (id : string) (sources : list GroundingSource)
  (messages : list ChatMessage) :
  (forall m, In m messages -> msg_id m <> id) ->
  setSources id sources messages = messages.
Proof.
  intros H. unfold setSources. rewrite <- (map_id messages) at 2.
  apply map_ext_in. intros m Hm.
  destruct (msg_id m =? id) eqn:E; [| reflexivity].
  apply String.eqb_eq in E. now destruct (H m Hm).
Qed.

(** Writing the content twice keeps the second text. *)
Lemma setContent_setContent (id c1 c2 : string) (messages : list ChatMessage) :
  setContent id c2 (setContent id c1 messages) = setContent id c2 messages.
Proof.
  unfold setContent. rewrite map_map. apply map_ext. intros m.
  destruct (msg_id m =? id) eqn:E; simpl; now rewrite E.
Qed.

Lemma setContent_ids (id content : string) (messages : list ChatMessage) :
  map msg_id (setContent id content messages) = map msg_id messages.
Proof.
  unfold setContent. rewrite map_map. apply map_ext. intros m.
  now destruct (msg_id m =? id).
Qed.

Lemma setSources_ids (id : string) (sources : list GroundingSource)
  (messages : list ChatMessage) :
  map msg_id (setSources id sources messages) = map msg_id messages.
Proof.
  unfold setSources. rewrite map_map. apply map_ext. intros m.
  now destruct (msg_id m =? id).
Qed.

Lemma setSources_contents (id : string) (sources : list GroundingSource)
  (messages : list ChatMessage) :
  map msg_content (setSources id sources messages) = map msg_content messages.
Proof.
  unfold setSources. rewrite map_map. apply map_ext. intros m.
  now destruct (msg_id m =? id).
Qed.

Lemma setContent_other (id content : string) (messages : list ChatMessage)
  (i : nat) (m : ChatMessage) :
  nth_error messages i = Some m -> msg_id m <> id ->
  nth_error (setContent id content messages) i = Some m.
Proof.
  intros Hi Hne. unfold setContent. rewrite nth_error_map, Hi. simpl.
  destruct (msg_id m =? id) eqn:E; [| reflexivity].
  apply String.eqb_eq in E. contradiction.
Qed.

Lemma setSources_other (id : string) (sources : list GroundingSource)
  (messages : list ChatMessage) (i : nat) (m : ChatMessage) :
  nth_error messages i = Some m -> msg_id m <> id ->
  nth_error (setSources id sources messages) i = Some m.
Proof.
  intros Hi Hne. unfold setSources. rewrite nth_error_map, Hi. simpl.
  destruct (msg_id m =? id) eqn:E; [| reflexivity].
  apply String.eqb_eq in E. contradiction.
Qed.

(** The updates [submitPrompt] queues are the three patches. *)
Lemma consumeChunk_patch (activeId : option string) (id : string) (l : Loop)
  (chunk : GenerateContentResponse) :
  truthyOpt (gcr_text chunk) = true ->
  loop_state (consumeChunk activeId id l chunk)
  = updateActiveChat activeId
      (fun chat =>
         withMessages
           (applyPatch id
              (AppendContentDelta (fullResponse l)
                 (orDefault (gcr_text chunk) EmptyString))
              (cs_messages chat)) chat)
      (loop_state l).
Proof.
  intros H. unfold consumeChunk. now rewrite H.
Qed.

Lemma catchClause_patch (activeId : option string) (id : string) (e : Thrown)
  (st : AppState) :
  isAbortError e = false ->
  catchClause activeId id e st
  = updateActiveChat activeId
      (fun chat =>
         withMessages
           (applyPatch id
              (SetContent
                 (errorContent
                    (if isError e then err_message e
                     else "An unknown error occurred.")))
              (cs_messages chat)) chat)
      st.
Proof.
  intros H. unfold catchClause. now rewrite H.
Qed.

(** C8. A patch aimed at an identifier that no message of the list carries
    returns the list as it is; every patch (a total function, so it cannot
    throw) keeps the length of the list and the order of the identifiers,
    and leaves each message with another identifier as it was, in its
    position. *)
Theorem patch_is_framed (id : string) (patch : Patch)
  (messages : list ChatMessage) :
  ((forall m, In m messages -> msg_id m <> id) ->
   applyPatch id patch messages = messages)
  /\ length (applyPatch id patch messages) = length messages
  /\ map msg_id (applyPatch id patch messages) = map msg_id messages
  /\ (forall i m,
        nth_error messages i = Some m -> msg_id m <> id ->
        nth_error (applyPatch id patch messages) i = Some m).
Proof.
  destruct patch as [content | full delta | sources]; simpl;
    repeat split;
    try (intros; now apply setContent_absent);
    try (intros; now apply setSources_absent);
    try apply length_map;
    try apply setContent_ids;
    try apply setSources_ids;
    try (intros; now apply setContent_other);
    try (intros; now apply setSources_other).
Qed.

Lemma patch_is_framed_witness :
  let messages :=
    [ {| msg_id := "1"; msg_role := USER; msg_content := "Hi";
         msg_imageUrls := None; msg_groundingSources := None |} ] in
  (forall m, In m messages -> msg_id m <> "2")
  /\ applyPatch "2" (AppendContentDelta "Hel" "lo!") messages = messages.
Proof.
  intros messages.
  assert (H : forall m, In m messages -> msg_id m <> "2").
  { intros m [<- | []]. discriminate. }
  split; [exact H |].
  exact (proj1 (patch_is_framed "2" (AppendContentDelta "Hel" "lo!") messages)
           H).
Defined.

(** ** The session a generation writes to *)

Section ActiveSession.

Variable activeId : option string.

Lemma find_updated (upd : ChatSession -> ChatSession)
  (sessions : list ChatSession) :
  (forall c, cs_id (upd c) = cs_id c) ->
  find (fun session => sameId activeId (cs_id session))
       (map (fun session =>
               if sameId activeId (cs_id session) then upd session
               else session) sessions)
  = option_map upd
      (find (fun session => sameId activeId (cs_id session)) sessions).
Proof.
  intros Hid. induction sessions as [| s sessions IH]; simpl; [reflexivity |].
  destruct (sameId activeId (cs_id s)) eqn:E.
  - now rewrite Hid, E.
  - now rewrite E.
Qed.

Lemma activeChat_update (upd : ChatSession -> ChatSession) (st : AppState) :
  activeChatId st = activeId ->
  (forall c, cs_id (upd c) = cs_id c) ->
  activeChat (updateActiveChat activeId upd st)
  = option_map upd (activeChat st).
Proof.
  intros Ha Hid. unfold activeChat, updateActiveChat, setChatSessions. simpl.
  rewrite Ha. now apply find_updated.
Qed.

Lemma activeMessages_update (g : list ChatMessage -> list ChatMessage)
  (st : AppState) :
  activeChatId st = activeId ->
  activeChat st <> None ->
  activeMessages
    (updateActiveChat activeId
       (fun chat => withMessages (g (cs_messages chat)) chat) st)
  = g (activeMessages st).
Proof.
  intros Ha Hex. unfold activeMessages.
  rewrite activeChat_update by (trivial; reflexivity).
  destruct (activeChat st); [reflexivity | contradiction].
Qed.

Lemma activeChat_update_some (upd : ChatSession -> ChatSession)
  (st : AppState) :
  activeChatId st = activeId ->
  (forall c, cs_id (upd c) = cs_id c) ->
  activeChat st <> None ->
  activeChat (updateActiveChat activeId upd st) <> None.
Proof.
  intros Ha Hid Hex. rewrite activeChat_update by assumption.
  destruct (activeChat st); [discriminate | contradiction].
Qed.

(** Sessions other than the active one are not touched. *)
Lemma updateActiveChat_other (upd : ChatSession -> ChatSession)
  (st : AppState) (i : nat) (s : ChatSession) :
  nth_error (chatSessions st) i = Some s ->
  sameId activeId (cs_id s) = false ->
  nth_error (chatSessions (updateActiveChat activeId upd st)) i = Some s.
Proof.
  intros Hi Hs. unfold updateActiveChat, setChatSessions. simpl.
  now rewrite nth_error_map, Hi; simpl; rewrite Hs.
Qed.

(** *** The loop over the packets *)

Variable id : string.

Lemma sameFrame_refl (a : AppState) : sameFrame activeId a a.
Proof. unfold sameFrame. tauto. Qed.

Lemma sameFrame_trans (a b c : AppState) :
  sameFrame activeId a b -> sameFrame activeId b c -> sameFrame activeId a c.
Proof.
  unfold sameFrame.
  intros (A1 & A2 & A3 & A4 & A5 & A6) (B1 & B2 & B3 & B4 & B5 & B6).
  repeat split; try congruence. auto.
Qed.

Lemma sameFrame_update (upd : ChatSession -> ChatSession) (st : AppState) :
  sameFrame activeId (updateActiveChat activeId upd st) st.
Proof.
  unfold sameFrame. repeat split; try reflexivity.
  - unfold updateActiveChat, setChatSessions. simpl. apply length_map.
  - intros i s Hi Hs. now apply updateActiveChat_other.
Qed.

(** One iteration of the loop. *)
Lemma consumeChunk_spec (messages : list ChatMessage) (l : Loop)
  (chunk : GenerateContentResponse) :
  activeChatId (loop_state l) = activeId ->
  activeChat (loop_state l) <> None ->
  activeMessages (loop_state l) = written id (fullResponse l) messages ->
  let l1 := consumeChunk activeId id l chunk in
  fullResponse l1
  = String.append (fullResponse l) (orDefault (gcr_text chunk) EmptyString)
  /\ activeChatId (loop_state l1) = activeId
  /\ activeChat (loop_state l1) <> None
  /\ activeMessages (loop_state l1) = written id (fullResponse l1) messages
  /\ finalResponsePacket l1 = Some chunk
  /\ sameFrame activeId (loop_state l1) (loop_state l).
Proof.
  intros Ha Hex Hm. unfold consumeChunk.
  destruct (truthyOpt (gcr_text chunk)) eqn:E; simpl.
  - split; [reflexivity |]. split; [exact Ha |].
    split; [now apply activeChat_update_some |].
    split; [| split; [reflexivity | apply sameFrame_update]].
    rewrite activeMessages_update by assumption. rewrite Hm.
    unfold written at 2. rewrite truthy_append_r.
    + unfold written. destruct (truthy (fullResponse l));
        [apply setContent_setContent | reflexivity].
    + destruct (gcr_text chunk); [exact E | discriminate].
  - rewrite (truthyOpt_false _ E), append_empty_r.
    split; [reflexivity |]. split; [exact Ha |]. split; [exact Hex |].
    split; [exact Hm |]. split; [reflexivity | apply sameFrame_refl].
Qed.

Lemma lastOf_cons {A : Type} (x : A) (l : list A) :
  lastOf (x :: l) = match lastOf l with Some y => Some y | None => Some x end.
Proof.
  destruct l as [| y l] using rev_ind; [reflexivity |].
  rewrite lastOf_snoc, app_comm_cons, lastOf_snoc. reflexivity.
Qed.

Lemma consume_spec (messages : list ChatMessage)
  (chunks : list GenerateContentResponse) :
  forall l : Loop,
    activeChatId (loop_state l) = activeId ->
    activeChat (loop_state l) <> None ->
    activeMessages (loop_state l) = written id (fullResponse l) messages ->
    let l' := fold_left (consumeChunk activeId id) chunks l in
    fullResponse l'
    = String.append (fullResponse l) (concatenation (chunkTexts chunks))
    /\ activeMessages (loop_state l') = written id (fullResponse l') messages
    /\ activeChat (loop_state l') <> None
    /\ finalResponsePacket l'
       = match lastOf chunks with
         | Some packet => Some packet
         | None => finalResponsePacket l
         end
    /\ sameFrame activeId (loop_state l') (loop_state l).
Proof.
  induction chunks as [| chunk chunks IH]; intros l Ha Hex Hm; simpl.
  - rewrite append_empty_r.
    split; [reflexivity |]. split; [exact Hm |]. split; [exact Hex |].
    split; [reflexivity | apply sameFrame_refl].
  - destruct (consumeChunk_spec messages l chunk Ha Hex Hm)
      as (F1 & A1 & E1 & M1 & P1 & S1).
    destruct (IH _ A1 E1 M1) as (F2 & M2 & E2 & P2 & S2).
    split; [now rewrite F2, F1, append_assoc |].
    split; [exact M2 |]. split; [exact E2 |].
    split; [| eapply sameFrame_trans; eassumption].
    rewrite P2, P1, lastOf_cons. now destruct (lastOf chunks).
Qed.

End ActiveSession.

(** ** The [try] block of [submitPrompt] *)

Section Generation.

Variable activeId : option string.
Variable now : N.

Let id : string := msg_id (modelMessage now).

Variable st : AppState.
Variable history : list ChatMessage.

Hypothesis st_active : activeChatId st = activeId.
Hypothesis st_chat : activeChat st <> None.
Hypothesis st_messages : activeMessages st = history ++ [modelMessage now].

Lemma drain_spec (g : Generator) :
  let l := drain activeId id g st in
  fullResponse l = concatenation (chunkTexts (yields g))
  /\ activeMessages (loop_state l)
     = written id (fullResponse l) (history ++ [modelMessage now])
  /\ activeChat (loop_state l) <> None
  /\ finalResponsePacket l = lastOf (yields g)
  /\ sameFrame activeId (loop_state l) st.
Proof.
  unfold drain.
  destruct (consume_spec activeId id (history ++ [modelMessage now]) (yields g)
              {| fullResponse := EmptyString; finalResponsePacket := None;
                 loop_state := st |} st_active st_chat st_messages)
    as (F & M & E & P & S).
  simpl in *.
  split; [exact F |]. split; [exact M |]. split; [exact E |].
  split; [| exact S].
  rewrite P. now destruct (lastOf (yields g)).
Qed.

Lemma written_last (full : string) :
  written id full (history ++ [modelMessage now])
  = written id full history ++ [placeholder now full []].
Proof.
  unfold written. destruct (truthy full) eqn:E.
  - rewrite setContent_app. simpl. unfold id. now rewrite String.eqb_refl.
  - now rewrite (truthy_false _ E).
Qed.

Lemma written_ids (full : string) (messages : list ChatMessage) :
  map msg_id (written id full messages) = map msg_id messages.
Proof.
  unfold written. destruct (truthy full); [apply setContent_ids | reflexivity].
Qed.

Lemma written_other (full : string) (messages : list ChatMessage) (i : nat)
  (m : ChatMessage) :
  nth_error messages i = Some m -> msg_id m <> id ->
  nth_error (written id full messages) i = Some m.
Proof.
  unfold written. destruct (truthy full); [apply setContent_other | trivial].
Qed.

Lemma catchClause_messages (e : Thrown) (s : AppState) (full : string) :
  activeChatId s = activeId ->
  activeChat s <> None ->
  activeMessages s = written id full (history ++ [modelMessage now]) ->
  activeMessages (catchClause activeId id e s)
  = if isAbortError e then
      written id full history ++ [placeholder now full []]
    else
      setContent id (errorContent (errorMessageOf e)) history
      ++ [placeholder now (errorContent (errorMessageOf e)) []].
Proof.
  intros Ha Hex Hm. unfold catchClause.
  destruct (isAbortError e); simpl.
  - now rewrite Hm, written_last.
  - fold (errorMessageOf e).
    rewrite activeMessages_update by assumption. rewrite Hm.
    assert (W : forall c,
               setContent id c (written id full (history ++ [modelMessage now]))
               = setContent id c (history ++ [modelMessage now])).
    { intros c. unfold written. destruct (truthy full);
        [apply setContent_setContent | reflexivity]. }
    rewrite W, setContent_app. simpl. unfold id. now rewrite String.eqb_refl.
Qed.

Lemma catchClause_frame (e : Thrown) (s : AppState) :
  sameFrame activeId (catchClause activeId id e s) s.
Proof.
  unfold catchClause. destruct (negb (isAbortError e));
    [apply sameFrame_update | apply sameFrame_refl].
Qed.

Lemma attachSources_frame (l : Loop) :
  sameFrame activeId (attachSources activeId id l) (loop_state l).
Proof.
  unfold attachSources. destruct (finalResponsePacket l) as [packet |];
    [| apply sameFrame_refl].
  destruct (gcr_groundingChunks packet);
    [apply sameFrame_update | apply sameFrame_refl].
Qed.

Lemma tryBlock_messages (call : Completion Generator) :
  activeMessages (tryBlock activeId id call st)
  = outcomeMessages now history call.
Proof.
  unfold outcomeMessages. destruct call as [g | e]; simpl.
  - destruct (drain_spec g) as (F & M & E & P & S).
    assert (Ha : activeChatId (loop_state (drain activeId id g st)) = activeId).
    { destruct S as (S1 & _). now rewrite S1. }
    destruct (failure g) as [e |].
    + rewrite (catchClause_messages e _ (fullResponse (drain activeId id g st)))
        by assumption.
      now rewrite F.
    + unfold attachSources, finalSources. rewrite P.
      destruct (lastOf (yields g)) as [packet |].
      * destruct (gcr_groundingChunks packet) as [gc |].
        -- rewrite activeMessages_update by assumption.
           rewrite M, written_last, setSources_app, F. simpl.
           unfold id. now rewrite String.eqb_refl.
        -- now rewrite M, written_last, F.
      * now rewrite M, written_last, F.
  - rewrite (catchClause_messages e st EmptyString)
      by (trivial; exact st_messages).
    reflexivity.
Qed.

Lemma tryBlock_frame (call : Completion Generator) :
  sameFrame activeId (tryBlock activeId id call st) st.
Proof.
  destruct call as [g | e]; simpl; [| apply catchClause_frame].
  destruct (drain_spec g) as (_ & _ & _ & _ & S).
  destruct (failure g);
    (eapply sameFrame_trans; [| exact S]);
    [apply catchClause_frame | apply attachSources_frame].
Qed.

End Generation.

(** ** [wrappedStream] and [streamResponse] *)

Lemma wrappedStream_not_aborted (signal : option AbortSignal)
  (chunks : list GenerateContentResponse) (ending : option Thrown) :
  forall k,
    (forall j, (j < length chunks)%nat -> aborted signal (k + j) = false) ->
    wrappedStream signal k chunks ending
    = {| yields := chunks; failure := ending |}.
Proof.
  induction chunks as [| chunk chunks IH]; intros k H; simpl; [reflexivity |].
  rewrite <- (Nat.add_0_r k) at 1. rewrite H by (simpl; lia).
  rewrite IH; [reflexivity |].
  intros j Hj. replace (S k + j)%nat with (k + S j)%nat by lia.
  apply H. simpl. lia.
Qed.

(** The generator stops, without throwing, at the first packet on whose
    arrival the signal is seen aborted. *)
Lemma wrappedStream_aborted (signal : option AbortSignal)
  (chunks : list GenerateContentResponse) (ending : option Thrown) :
  forall n k,
    (forall j, (j < n)%nat -> aborted signal (k + j) = false) ->
    aborted signal (k + n) = true ->
    (n < length chunks)%nat ->
    wrappedStream signal k chunks ending
    = {| yields := firstn n chunks; failure := None |}.
Proof.
  induction chunks as [| chunk chunks IH]; intros n k Hlow Hn Hlen; simpl in *;
    [lia |].
  destruct n as [| n].
  - rewrite Nat.add_0_r in Hn. now rewrite Hn.
  - rewrite <- (Nat.add_0_r k) at 1. rewrite Hlow by lia.
    rewrite (IH n (S k)); [reflexivity | | | lia].
    + intros j Hj. replace (S k + j)%nat with (k + S j)%nat by lia.
      apply Hlow. lia.
    + now replace (S k + n)%nat with (k + S n)%nat by lia.
Qed.

Lemma streamResponse_answered (chat : Chat) (prompt : string)
  (images : option (list Image)) (signal : option AbortSignal)
  (stream : ApiStream) :
  aborted signal 0 = false ->
  sendMessageStream chat (requestParts prompt images) = Returned stream ->
  streamResponse chat prompt images signal
  = {| outcome := Returned (wrappedStream signal 1 (api_chunks stream)
                              (api_failure stream));
       sent := [requestParts prompt images] |}.
Proof.
  intros H0 Hs. unfold streamResponse. now rewrite H0, Hs.
Qed.

(** A request that fails, other than by an abort, surfaces as the fixed
    error of [streamResponse]. *)
Lemma streamResponse_refused (chat : Chat) (prompt : string)
  (images : option (list Image)) (signal : option AbortSignal) (e : Thrown) :
  aborted signal 0 = false ->
  sendMessageStream chat (requestParts prompt images) = Threw e ->
  isAbortError e = false ->
  outcome (streamResponse chat prompt images signal)
  = Threw (newError failedToGetResponse).
Proof.
  intros H0 Hs He. unfold streamResponse. now rewrite H0, Hs; simpl; rewrite He.
Qed.

(** Without cancellation the loop receives every packet of the answer, and
    a break of the answer reaches it; with a cancellation seen when packet
    [n + 1] arrives it receives the first [n] packets and no throw. *)
Lemma delivered_all (chat : Chat) (prompt : string)
  (images : option (list Image)) (signal : AbortSignal) (stream : ApiStream) :
  sendMessageStream chat (requestParts prompt images) = Returned stream ->
  (forall k, signal k = false) ->
  let call := outcome (streamResponse chat prompt images (Some signal)) in
  delivered call = api_chunks stream /\ raised call = api_failure stream.
Proof.
  intros Hs Hnever call. unfold call.
  rewrite (streamResponse_answered chat prompt images (Some signal) stream)
    by (trivial; apply Hnever).
  simpl. rewrite wrappedStream_not_aborted; [now split |].
  intros j _. apply Hnever.
Qed.

Lemma delivered_until_cancelled (chat : Chat) (prompt : string)
  (images : option (list Image)) (signal : AbortSignal) (stream : ApiStream)
  (n : nat) :
  sendMessageStream chat (requestParts prompt images) = Returned stream ->
  (forall k, (k <= n)%nat -> signal k = false) ->
  signal (S n) = true ->
  (n < length (api_chunks stream))%nat ->
  outcome (streamResponse chat prompt images (Some signal))
  = Returned {| yields := firstn n (api_chunks stream); failure := None |}.
Proof.
  intros Hs Hlow Hn Hlen.
  rewrite (streamResponse_answered chat prompt images (Some signal) stream)
    by (trivial; simpl; apply Hlow; lia).
  simpl. f_equal. apply wrappedStream_aborted; simpl; trivial.
  intros j Hj. apply Hlow. lia.
Qed.

(** ** [submitPrompt] *)

Section SubmitPrompt.

Variable svc : Service.
Variable now : N.
Variable signal : AbortSignal.
Variable prompt : string.
Variable images : option (list Image).
Variable history : option (list ChatMessage).
Variable st : AppState.
Variable chat0 : ChatSession.
Variable chat : Chat.

Let currentHistory : list ChatMessage := orDefault history (cs_messages chat0).
Let id : string := msg_id (modelMessage now).
Let call : StreamCall := streamResponse chat prompt images (Some signal).
Let run : Run := submitPrompt svc now signal prompt images history st.

Hypothesis has_chat : activeChat st = Some chat0.
Hypothesis idle : isLoading st = false.
Hypothesis opened : openChat svc chat0 currentHistory = Returned chat.

Lemma withPlaceholder_spec :
  activeChatId (withPlaceholder now currentHistory st) = activeChatId st
  /\ activeChat (withPlaceholder now currentHistory st) <> None
  /\ activeMessages (withPlaceholder now currentHistory st)
     = currentHistory ++ [modelMessage now].
Proof.
  unfold withPlaceholder. split; [reflexivity |].
  assert (A : activeChat (setIsLoading true st) = Some chat0) by exact has_chat.
  split.
  - apply activeChat_update_some; [reflexivity | reflexivity |].
    now rewrite A.
  - unfold activeMessages.
    rewrite activeChat_update by reflexivity. now rewrite A.
Qed.

Lemma submitPrompt_run :
  run = {| run_state :=
             setIsLoading false
               (tryBlock (activeChatId st) id (outcome call)
                  (withPlaceholder now currentHistory st));
           run_rejected := None;
           run_requests := sent call |}.
Proof.
  unfold run, submitPrompt. rewrite has_chat, idle.
  fold currentHistory. now rewrite opened.
Qed.

Lemma submitPrompt_messages :
  activeMessages (run_state run)
  = outcomeMessages now currentHistory (outcome call).
Proof.
  rewrite submitPrompt_run. simpl.
  destruct withPlaceholder_spec as (A & E & M).
  change (activeMessages
            (tryBlock (activeChatId st) id (outcome call)
               (withPlaceholder now currentHistory st))
          = outcomeMessages now currentHistory (outcome call)).
  now apply tryBlock_messages.
Qed.

(** Outside the active session the run changes nothing but the loading
    flag, which it leaves cleared. *)
Lemma submitPrompt_frame :
  activeChatId (run_state run) = activeChatId st
  /\ folders (run_state run) = folders st
  /\ input (run_state run) = input st
  /\ isLoading (run_state run) = false
  /\ length (chatSessions (run_state run)) = length (chatSessions st)
  /\ (forall i s, nth_error (chatSessions st) i = Some s ->
                  sameId (activeChatId st) (cs_id s) = false ->
                  nth_error (chatSessions (run_state run)) i = Some s).
Proof.
  rewrite submitPrompt_run. simpl.
  destruct withPlaceholder_spec as (A & E & M).
  destruct (tryBlock_frame (activeChatId st) now
              (withPlaceholder now currentHistory st) currentHistory
              A E M (outcome call)) as (F1 & F2 & F3 & F4 & F5 & F6).
  fold id in F1, F3, F4, F5, F6.
  split; [now rewrite F1 |]. split; [now rewrite F3 |].
  split; [now rewrite F4 |]. split; [reflexivity |].
  split.
  - rewrite F5. unfold withPlaceholder, updateActiveChat, setChatSessions.
    simpl. apply length_map.
  - intros i s Hi Hs. apply F6; [| exact Hs].
    unfold withPlaceholder. now apply updateActiveChat_other.
Qed.

End SubmitPrompt.

Lemma lastOf_outcomeMessages (now : N) (history : list ChatMessage)
  (call : Completion Generator) :
  lastOf (outcomeMessages now history call)
  = Some
      match raised call with
      | Some e =>
          if isAbortError e
          then placeholder now (concatenation (chunkTexts (delivered call))) []
          else placeholder now (errorContent (errorMessageOf e)) []
      | None =>
          placeholder now (concatenation (chunkTexts (delivered call)))
                      (finalSources (delivered call))
      end.
Proof.
  unfold outcomeMessages, finalSources.
  destruct (raised call) as [e |].
  - destruct (isAbortError e); apply lastOf_snoc.
  - destruct (lastOf (delivered call)) as [packet |]; [| apply lastOf_snoc].
    destruct (gcr_groundingChunks packet); apply lastOf_snoc.
Qed.

(** C1. When the stream of a generation completes, the last message of the
    session, the placeholder created for the generation, has as content the
    concatenation, in delivery order, of the non-empty texts of the packets
    delivered to the loop (and as sources those of the last packet). *)
Theorem streamed_content_is_concatenation
  (svc : Service) (now : N) (signal : AbortSignal) (prompt : string)
  (images : option (list Image)) (history : option (list ChatMessage))
  (st : AppState) (chat0 : ChatSession) (chat : Chat) :
  activeChat st = Some chat0 ->
  isLoading st = false ->
  openChat svc chat0 (orDefault history (cs_messages chat0)) = Returned chat ->
  let call := outcome (streamResponse chat prompt images (Some signal)) in
  raised call = None ->
  lastOf (activeMessages
            (run_state (submitPrompt svc now signal prompt images history st)))
  = Some (placeholder now
            (concatenation (filter truthy (chunkTexts (delivered call))))
            (finalSources (delivered call))).
Proof.
  intros Hc Hl Ho call Hr.
  rewrite (submitPrompt_messages svc now signal prompt images history st
             chat0 chat Hc Hl Ho).
  fold call. rewrite lastOf_outcomeMessages, Hr.
  now rewrite concatenation_nonempty.
Qed.

Lemma streamed_content_is_concatenation_witness :
  let svc :=
    answering (Returned {| api_chunks := [textPacket "Hel"; textPacket "lo!"];
                           api_failure := None |}) in
  let st := freshStore 1000 EmptyString in
  activeChat st = Some (newChat 1000)
  /\ isLoading st = false
  /\ lastOf (activeMessages
               (run_state (submitPrompt svc 1001 neverAborted "Hi" None None st)))
     = Some (placeholder 1001 "Hello!" []).
Proof.
  intros svc st. split; [reflexivity |]. split; [reflexivity |].
  evar (chat : Chat).
  assert (Ho : openChat svc (newChat 1000)
                 (orDefault None (cs_messages (newChat 1000)))
               = Returned chat)
    by (subst chat; reflexivity).
  exact (streamed_content_is_concatenation svc 1001 neverAborted "Hi" None
           None st (newChat 1000) chat eq_refl eq_refl Ho eq_refl).
Defined.

(** The same scenario through [handleSend]: the session then holds the user
    turn followed by the reply. *)
Example handleSend_hello :
  let svc :=
    answering (Returned {| api_chunks := [textPacket "Hel"; textPacket "lo!"];
                           api_failure := None |}) in
  let r := handleSend svc 1001 1001 neverAborted None (freshStore 1000 "Hi") in
  activeMessages (run_state r)
  = [ {| msg_id := "1001"; msg_role := USER; msg_content := "Hi";
         msg_imageUrls := None; msg_groundingSources := None |};
      placeholder 1001 "Hello!" [] ]
  /\ run_requests r = [[TextPart "Hi"]]
  /\ isLoading (run_state r) = false.
Proof. vm_compute. repeat split. Qed.

(** ** Cancellation *)

(** C2, as the code has it.  Let the signal be seen aborted when packet
    [n + 1] arrives, the first [n] packets having been consumed.  Then the
    generator ends without throwing, the promise is not rejected and no
    error block is written; when the loop ends ([observed]) the placeholder
    holds the concatenation of the [n] texts, and it still does in the final
    state; no content changes after that point.  The one update that may
    follow is the one of a normal completion: the sources of the last
    consumed packet, if it carries any, are attached to the placeholder. *)
Theorem cancellation_keeps_partial_content
  (svc : Service) (now : N) (signal : AbortSignal) (prompt : string)
  (images : option (list Image)) (history : option (list ChatMessage))
  (st : AppState) (chat0 : ChatSession) (chat : Chat) (stream : ApiStream)
  (n : nat) :
  activeChat st = Some chat0 ->
  isLoading st = false ->
  openChat svc chat0 (orDefault history (cs_messages chat0)) = Returned chat ->
  sendMessageStream chat (requestParts prompt images) = Returned stream ->
  (forall k, (k <= n)%nat -> signal k = false) ->
  signal (S n) = true ->
  (n < length (api_chunks stream))%nat ->
  let consumed := firstn n (api_chunks stream) in
  let full := concatenation (chunkTexts consumed) in
  let id := msg_id (modelMessage now) in
  let observed :=
    loop_state
      (drain (activeChatId st) id {| yields := consumed; failure := None |}
         (withPlaceholder now (orDefault history (cs_messages chat0)) st)) in
  let r := submitPrompt svc now signal prompt images history st in
  outcome (streamResponse chat prompt images (Some signal))
  = Returned {| yields := consumed; failure := None |}
  /\ run_rejected r = None
  /\ lastOf (activeMessages observed) = Some (placeholder now full [])
  /\ lastOf (activeMessages (run_state r))
     = Some (placeholder now full (finalSources consumed))
  /\ map msg_content (activeMessages (run_state r))
     = map msg_content (activeMessages observed)
  /\ (activeMessages (run_state r) = activeMessages observed
      \/ activeMessages (run_state r)
         = setSources id (finalSources consumed) (activeMessages observed)).
Proof.
  intros Hc Hl Ho Hs Hlow Hn Hlen consumed full id observed r.
  assert (Hcall : outcome (streamResponse chat prompt images (Some signal))
                  = Returned {| yields := consumed; failure := None |})
    by now apply delivered_until_cancelled.
  destruct (withPlaceholder_spec now history st chat0 Hc) as (A & E & M).
  destruct (drain_spec (activeChatId st) now _ _ A E M
              {| yields := consumed; failure := None |})
    as (F & Mo & _ & _ & _).
  cbv zeta in F, Mo.
  change (yields {| yields := consumed; failure := None |}) with consumed in F.
  fold id in F, Mo. fold observed in Mo. fold full in F.
  assert (Hobs : activeMessages observed
                 = written id full (orDefault history (cs_messages chat0))
                   ++ [placeholder now full []]).
  { rewrite Mo, F. apply written_last. }
  assert (Hfin : activeMessages (run_state r)
                 = outcomeMessages now (orDefault history (cs_messages chat0))
                     (Returned {| yields := consumed; failure := None |})).
  { unfold r. rewrite <- Hcall. now apply submitPrompt_messages. }
  split; [exact Hcall |].
  split.
  { unfold r. now rewrite (submitPrompt_run svc now signal prompt images
                             history st chat0 chat Hc Hl Ho). }
  split; [rewrite Hobs; apply lastOf_snoc |].
  split; [rewrite Hfin; now rewrite lastOf_outcomeMessages |].
  assert (D : activeMessages (run_state r) = activeMessages observed
              \/ activeMessages (run_state r)
                 = setSources id (finalSources consumed)
                     (activeMessages observed)).
  { rewrite Hfin, Hobs. unfold outcomeMessages. simpl. fold full. fold id.
    destruct (lastOf consumed) as [packet |]; [| now left].
    destruct (gcr_groundingChunks packet); [| now left].
    right. rewrite setSources_app. simpl. unfold id.
    now rewrite String.eqb_refl. }
  split; [| exact D].
  destruct D as [-> | ->]; [reflexivity | apply setSources_contents].
Qed.

Lemma cancellation_keeps_partial_content_witness :
  let stream :=
    {| api_chunks := [textPacket "Hel"; textPacket "lo!"; textPacket "?"];
       api_failure := None |} in
  let svc := answering (Returned stream) in
  let st := freshStore 1000 EmptyString in
  (forall k, (k <= 2)%nat -> abortedFrom 3 k = false)
  /\ abortedFrom 3 3 = true
  /\ lastOf (activeMessages
               (run_state
                  (submitPrompt svc 1001 (abortedFrom 3) "Hi" None None st)))
     = Some (placeholder 1001 "Hello!" []).
Proof.
  intros stream svc st.
  assert (Hlow : forall k, (k <= 2)%nat -> abortedFrom 3 k = false).
  { intros k Hk. unfold abortedFrom. apply Nat.leb_gt. lia. }
  split; [exact Hlow |]. split; [reflexivity |].
  evar (chat : Chat).
  assert (Ho : openChat svc (newChat 1000)
                 (orDefault None (cs_messages (newChat 1000)))
               = Returned chat)
    by (subst chat; reflexivity).
  assert (Hlen : (2 < length (api_chunks stream))%nat) by (simpl; lia).
  exact (proj1 (proj2 (proj2 (proj2
           (cancellation_keeps_partial_content svc 1001 (abortedFrom 3) "Hi"
              None None st (newChat 1000) chat stream 2
              eq_refl eq_refl Ho eq_refl Hlow eq_refl Hlen))))).
Defined.

(** C2, as stated, fails: a message is updated after the cancellation has
    been observed.  The first packet carries a citation; the stop button is
    pressed before the second packet arrives.  When the loop ends the
    placeholder has no sources; in the final state it has one. *)
Lemma cancellation_then_sources_attached :
  let stream :=
    {| api_chunks := [citedPacket "Hel" "https://a.example" "A";
                      textPacket "lo!"];
       api_failure := None |} in
  let svc := answering (Returned stream) in
  let st := freshStore 1000 EmptyString in
  let consumed := firstn 1 (api_chunks stream) in
  let observed :=
    loop_state
      (drain (activeChatId st) (msg_id (modelMessage 1001))
         (wrappedStream (Some (abortedFrom 2)) 1 (api_chunks stream) None)
         (withPlaceholder 1001 [] st)) in
  let r := submitPrompt svc 1001 (abortedFrom 2) "Hi" None None st in
  yields (wrappedStream (Some (abortedFrom 2)) 1 (api_chunks stream) None)
  = consumed
  /\ activeMessages observed = [placeholder 1001 "Hel" []]
  /\ activeMessages (run_state r)
     = [placeholder 1001 "Hel"
          [ {| gs_uri := Some "https://a.example"; gs_title := Some "A" |} ]]
  /\ activeMessages (run_state r) <> activeMessages observed.
Proof.
  vm_compute. repeat split. discriminate.
Qed.

(** ** Failures *)



(** A refused request is reported with the fixed message of
    [streamResponse]; an abort thrown in mid-stream keeps the text. *)
Example refused_request :
  let refusal :=
    {| isError := true; err_name := "ApiError"; err_message := "503" |} in
  let r := submitPrompt (answering (Threw refusal)) 1001 neverAborted "Hi"
             None None (freshStore 1000 EmptyString) in
  activeMessages (run_state r)
  = [placeholder 1001
       (errorContent failedToGetResponse)
       []].
Proof. vm_compute. reflexivity. Qed.

Example abort_in_mid_stream :
  let abort :=
    {| isError := true; err_name := "AbortError"; err_message := "aborted" |} in
  let svc :=
    answering (Returned {| api_chunks := [textPacket "Hel"; textPacket "lo"];
                           api_failure := Some abort |}) in
  let r := submitPrompt svc 1001 neverAborted "Hi" None None
             (freshStore 1000 EmptyString) in
  activeMessages (run_state r) = [placeholder 1001 "Hello" []].
Proof. vm_compute. reflexivity. Qed.

(** Not covered by the [try] block: a missing key makes [initializeChat]
    throw before it, the promise is rejected, the placeholder stays empty and
    the loading flag stays set. *)
Example missing_key :
  let svc :=
    {| API_KEY := None; remote := fun _ _ => Threw (newError EmptyString) |} in
  let r := submitPrompt svc 1001 neverAborted "Hi" None None
             (freshStore 1000 EmptyString) in
  run_rejected r
  = Some (newError keyNotConfigured)
  /\ activeMessages (run_state r) = [placeholder 1001 EmptyString []]
  /\ isLoading (run_state r) = true
  /\ run_requests r = [].
Proof. vm_compute. repeat split. Qed.

(** ** A signal aborted before the request *)

(** C10. With the signal already aborted at the start of [streamResponse],
    the call returns the empty generator and sends nothing, whatever the
    chat would have answered (a throw included); the [try] block that
    receives this result leaves the state as it is, so that after
    [submitPrompt] the session holds the history followed by the empty
    placeholder. *)
Theorem aborted_before_request
  (svc : Service) (now : N) (signal : AbortSignal) (prompt : string)
  (images : option (list Image)) (history : option (list ChatMessage))
  (st : AppState) (chat0 : ChatSession) (chat : Chat) :
  activeChat st = Some chat0 ->
  isLoading st = false ->
  openChat svc chat0 (orDefault history (cs_messages chat0)) = Returned chat ->
  signal 0%nat = true ->
  let r := submitPrompt svc now signal prompt images history st in
  (forall anyChat,
      streamResponse anyChat prompt images (Some signal)
      = {| outcome := Returned emptyGenerator; sent := [] |})
  /\ (forall activeId id s,
        tryBlock activeId id (Returned emptyGenerator) s = s)
  /\ run_requests r = []
  /\ run_rejected r = None
  /\ activeMessages (run_state r)
     = orDefault history (cs_messages chat0) ++ [placeholder now EmptyString []].
Proof.
  intros Hc Hl Ho H0 r.
  assert (Hcall : forall anyChat,
             streamResponse anyChat prompt images (Some signal)
             = {| outcome := Returned emptyGenerator; sent := [] |}).
  { intros anyChat. unfold streamResponse. simpl. now rewrite H0. }
  split; [exact Hcall |]. split; [reflexivity |].
  unfold r.
  rewrite (submitPrompt_run svc now signal prompt images history st chat0
             chat Hc Hl Ho), Hcall.
  simpl. split; [reflexivity |]. split; [reflexivity |].
  destruct (withPlaceholder_spec now history st chat0 Hc) as (_ & _ & M).
  exact M.
Qed.

Lemma aborted_before_request_witness :
  let refusal :=
    {| isError := true; err_name := "ApiError"; err_message := "503" |} in
  let svc := answering (Threw refusal) in
  let st := freshStore 1000 EmptyString in
  let r := submitPrompt svc 1001 (abortedFrom 0) "Hi" None None st in
  abortedFrom 0 0 = true
  /\ run_requests r = []
  /\ activeMessages (run_state r) = [placeholder 1001 EmptyString []].
Proof.
  intros refusal svc st r. split; [reflexivity |].
  evar (chat : Chat).
  assert (Ho : openChat svc (newChat 1000)
                 (orDefault None (cs_messages (newChat 1000)))
               = Returned chat)
    by (subst chat; reflexivity).
  pose proof (aborted_before_request svc 1001 (abortedFrom 0) "Hi" None None
                st (newChat 1000) chat eq_refl eq_refl Ho eq_refl)
    as (_ & _ & Hreq & _ & Hmsg).
  split; [exact Hreq | exact Hmsg].
Defined.

(** ** The session store *)

Lemma sameSelection_refl (a : AppState) : sameSelection a a.
Proof. now split. Qed.

Lemma sameSelection_trans (a b c : AppState) :
  sameSelection a b -> sameSelection b c -> sameSelection a c.
Proof. intros [A1 A2] [B1 B2]. split; congruence. Qed.

Lemma selectionOk_same (a b : AppState) :
  sameSelection a b -> selectionOk a = selectionOk b.
Proof.
  intros [Hids Hact]. unfold selectionOk. rewrite Hact.
  destruct (activeChatId b) as [id |].
  - assert (E : forall l, existsb (fun s => cs_id s =? id) l
                          = existsb (fun i => i =? id) (map cs_id l)).
    { induction l as [| x l IH]; simpl; [reflexivity | now rewrite IH]. }
    now rewrite !E, Hids.
  - destruct (chatSessions a), (chatSessions b); simpl in Hids;
      congruence.
Qed.

Lemma sameSelection_map (upd : ChatSession -> ChatSession)
  (p : ChatSession -> bool) (st : AppState) :
  (forall c, cs_id (upd c) = cs_id c) ->
  sameSelection
    (setChatSessions (map (fun s => if p s then upd s else s)) st) st.
Proof.
  intros Hid. split; [| reflexivity]. simpl.
  rewrite map_map. apply map_ext. intros s. now destruct (p s).
Qed.

Lemma sameSelection_update (activeId : option string)
  (upd : ChatSession -> ChatSession) (st : AppState) :
  (forall c, cs_id (upd c) = cs_id c) ->
  sameSelection (updateActiveChat activeId upd st) st.
Proof. apply sameSelection_map. Qed.

Lemma sameSelection_consume (activeId : option string) (id : string)
  (chunks : list GenerateContentResponse) :
  forall l,
    sameSelection
      (loop_state (fold_left (consumeChunk activeId id) chunks l))
      (loop_state l).
Proof.
  induction chunks as [| chunk chunks IH]; intros l; simpl;
    [apply sameSelection_refl |].
  eapply sameSelection_trans; [apply IH |].
  unfold consumeChunk. destruct (truthyOpt (gcr_text chunk)); simpl;
    [now apply sameSelection_update | apply sameSelection_refl].
Qed.

Lemma sameSelection_catch (activeId : option string) (id : string)
  (e : Thrown) (st : AppState) :
  sameSelection (catchClause activeId id e st) st.
Proof.
  unfold catchClause. destruct (negb (isAbortError e));
    [now apply sameSelection_update | apply sameSelection_refl].
Qed.

Lemma sameSelection_tryBlock (activeId : option string) (id : string)
  (call : Completion Generator) (st : AppState) :
  sameSelection (tryBlock activeId id call st) st.
Proof.
  destruct call as [g | e]; simpl; [| apply sameSelection_catch].
  pose proof (sameSelection_consume activeId id (yields g)
                {| fullResponse := EmptyString; finalResponsePacket := None;
                   loop_state := st |}) as D.
  fold (drain activeId id g st) in D. simpl in D.
  destruct (failure g) as [e |].
  - eapply sameSelection_trans; [apply sameSelection_catch | exact D].
  - eapply sameSelection_trans; [| exact D].
    unfold attachSources.
    destruct (finalResponsePacket (drain activeId id g st)) as [packet |];
      [| apply sameSelection_refl].
    destruct (gcr_groundingChunks packet);
      [now apply sameSelection_update | apply sameSelection_refl].
Qed.

Lemma sameSelection_submitPrompt (svc : Service) (now : N)
  (signal : AbortSignal) (prompt : string) (images : option (list Image))
  (history : option (list ChatMessage)) (st : AppState) :
  sameSelection
    (run_state (submitPrompt svc now signal prompt images history st)) st.
Proof.
  unfold submitPrompt.
  destruct (activeChat st) as [chat0 |]; [| apply sameSelection_refl].
  destruct (isLoading st); [apply sameSelection_refl |].
  assert (P : sameSelection
                (withPlaceholder now (orDefault history (cs_messages chat0)) st)
                st).
  { unfold withPlaceholder.
    eapply sameSelection_trans; [now apply sameSelection_update |].
    now split. }
  destruct (openChat svc chat0 (orDefault history (cs_messages chat0)));
    simpl; [| exact P].
  eapply sameSelection_trans; [| exact P].
  eapply sameSelection_trans; [| apply sameSelection_tryBlock].
  now split.
Qed.

Lemma sameSelection_handleSend (svc : Service) (now now' : N)
  (signal : AbortSignal) (image : option Image) (st : AppState) :
  sameSelection (run_state (handleSend svc now now' signal image st)) st.
Proof.
  unfold handleSend.
  destruct (negb (truthy (trim (input st)))), image as [i |];
    try apply sameSelection_refl;
    (destruct (activeChat st) as [chat0 |]; [| now split];
     (eapply sameSelection_trans; [apply sameSelection_submitPrompt |]);
     (eapply sameSelection_trans; [now apply sameSelection_update |]);
     now split).
Qed.

Lemma selectionOk_newChat (now : N) (st : AppState) :
  selectionOk (handleNewChat now st) = true.
Proof.
  unfold selectionOk, handleNewChat. simpl. now rewrite String.eqb_refl.
Qed.

Lemma selectionOk_first (first : ChatSession) (rest : list ChatSession)
  (st : AppState) :
  chatSessions st = first :: rest ->
  selectionOk (setActiveChatId (Some (cs_id first)) st) = true.
Proof.
  intros H. unfold selectionOk. simpl. rewrite H. simpl.
  now rewrite String.eqb_refl.
Qed.

Lemma selectionOk_delete (chatId : string) (confirmed : bool) (now : N)
  (st : AppState) :
  selectionOk st = true ->
  selectionOk (handleDeleteChat chatId confirmed now st) = true.
Proof.
  intros Hok. unfold handleDeleteChat.
  destruct confirmed; [| exact Hok].
  destruct (sameId (activeChatId st) chatId) eqn:Hact.
  - destruct (filter (fun c => negb (cs_id c =? chatId)) (chatSessions st))
      as [| first rest] eqn:Hrem.
    + apply selectionOk_newChat.
    + now apply (selectionOk_first first rest).
  - unfold selectionOk in *. simpl.
    destruct (activeChatId st) as [a |].
    + apply existsb_exists in Hok. destruct Hok as (s & Hin & Hs).
      apply existsb_exists. exists s. split; [| exact Hs].
      apply filter_In. split; [exact Hin |].
      apply String.eqb_eq in Hs. simpl in Hact. rewrite Hs, Hact. reflexivity.
    + destruct (chatSessions st); [reflexivity | discriminate].
Qed.

Lemma selectionOk_saved (a : string) (sessions : list ChatSession)
  (st : AppState) :
  chatSessions st = sessions ->
  existsb (fun s => sameId (Some a) (cs_id s)) sessions = true ->
  selectionOk (setActiveChatId (Some a) st) = true.
Proof.
  intros Hs E. unfold selectionOk. simpl. rewrite Hs.
  apply existsb_exists in E. destruct E as (s & Hin & E).
  apply existsb_exists. exists s. split; [exact Hin |].
  simpl in E. now rewrite String.eqb_sym.
Qed.

Lemma selectionOk_load (now : N) (savedSessions : Stored (list ChatSession))
  (savedFolders : Stored (list Folder)) (savedActiveId : option string)
  (savedDarkMode : Stored bool) (st : AppState) :
  selectionOk
    (loadFromStorage now savedSessions savedFolders savedActiveId
       savedDarkMode st)
  = true.
Proof.
  unfold loadFromStorage.
  assert (K : forall st1 sessions,
             selectionOk
               (let sessionsWithDefaults := map withDefaults sessions in
                let st2 := setChatSessions (fun _ => sessionsWithDefaults) st1 in
                if truthyOpt savedActiveId
                   && existsb (fun s => sameId savedActiveId (cs_id s))
                              sessionsWithDefaults
                then setActiveChatId savedActiveId st2
                else
                  match sessionsWithDefaults with
                  | first :: _ => setActiveChatId (Some (cs_id first)) st2
                  | [] => handleNewChat now st2
                  end) = true).
  { intros st1 sessions. cbv zeta.
    destruct (truthyOpt savedActiveId
              && existsb (fun s => sameId savedActiveId (cs_id s))
                         (map withDefaults sessions)) eqn:E.
    - apply andb_true_iff in E. destruct E as [T E].
      destruct savedActiveId as [a |]; [| discriminate T].
      now apply (selectionOk_saved a (map withDefaults sessions)).
    - destruct (map withDefaults sessions) as [| first rest] eqn:M.
      + apply selectionOk_newChat.
      + now apply (selectionOk_first first rest). }
  destruct savedDarkMode as [| | dark]; try apply selectionOk_newChat;
    (destruct savedFolders as [| | fs]; try apply selectionOk_newChat;
     (destruct savedSessions as [| | sessions];
      [apply selectionOk_newChat | apply selectionOk_newChat | apply K])).
Qed.

Lemma selectionOk_perform (a : Action) (st : AppState) :
  selectionOk st = true -> offered a st = true ->
  selectionOk (perform a st) = true.
Proof.
  intros Hok Hoff.
  destruct a; simpl;
    try (rewrite <- Hok; apply selectionOk_same; now split).
  - apply selectionOk_load.
  - apply selectionOk_newChat.
  - exact Hoff.
  - now apply selectionOk_delete.
  - rewrite <- Hok. apply selectionOk_same. unfold handleRenameChat.
    destruct (negb (truthy (trim newTitle)));
      [apply sameSelection_refl | now apply sameSelection_map].
  - rewrite <- Hok. apply selectionOk_same. now apply sameSelection_map.
  - rewrite <- Hok. apply selectionOk_same. apply sameSelection_handleSend.
  - rewrite <- Hok. apply selectionOk_same. apply sameSelection_submitPrompt.
Qed.

Lemma reachable_selectionOk (st : AppState) :
  reachable st -> selectionOk st = true.
Proof.
  induction 1 as [| a st _ IH Hoff]; [reflexivity |].
  now apply selectionOk_perform.
Qed.

Lemma selectionOk_reading (st : AppState) :
  selectionOk st = true ->
  (chatSessions st <> [] -> activeChatId st <> None)
  /\ (forall id, activeChatId st = Some id ->
                 exists s, In s (chatSessions st) /\ cs_id s = id).
Proof.
  unfold selectionOk. intros Hok. split.
  - intros Hne Hnone. rewrite Hnone in Hok.
    destruct (chatSessions st); [now apply Hne | discriminate].
  - intros id Hid. rewrite Hid in Hok.
    apply existsb_exists in Hok. destruct Hok as (s & Hin & Hs).
    exists s. split; [exact Hin | now apply String.eqb_eq].
Qed.

(** The selection of a reachable store, and what deleting the active
    session leaves. *)
Lemma selection_after_delete (st : AppState) :
  reachable st ->
  (chatSessions st <> [] -> activeChatId st <> None)
  /\ (forall id, activeChatId st = Some id ->
                 exists s, In s (chatSessions st) /\ cs_id s = id)
  /\ (forall chatId now,
        activeChatId st = Some chatId ->
        let st' := handleDeleteChat chatId true now st in
        match remainingChats chatId st with
        | first :: rest =>
            chatSessions st' = first :: rest
            /\ activeChatId st' = Some (cs_id first)
        | [] =>
            chatSessions st' = [newChat now]
            /\ activeChatId st' = Some (cs_id (newChat now))
        end)
  /\ (forall only now,
        chatSessions st = [only] ->
        let st' := handleDeleteChat (cs_id only) true now st in
        chatSessions st' = [newChat now]
        /\ activeChatId st' = Some (cs_id (newChat now))).
Proof.
  intros Hreach.
  pose proof (reachable_selectionOk st Hreach) as Hok.
  destruct (selectionOk_reading st Hok) as (H1 & H2).
  split; [exact H1 |]. split; [exact H2 |].
  assert (Hdel : forall chatId now,
             activeChatId st = Some chatId ->
             match remainingChats chatId st with
             | first :: rest =>
                 chatSessions (handleDeleteChat chatId true now st)
                 = first :: rest
                 /\ activeChatId (handleDeleteChat chatId true now st)
                    = Some (cs_id first)
             | [] =>
                 chatSessions (handleDeleteChat chatId true now st)
                 = [newChat now]
                 /\ activeChatId (handleDeleteChat chatId true now st)
                    = Some (cs_id (newChat now))
             end).
  { intros chatId now Hact. unfold handleDeleteChat, remainingChats.
    rewrite Hact. simpl. rewrite String.eqb_refl.
    destruct (filter (fun c => negb (cs_id c =? chatId)) (chatSessions st))
      as [| first rest] eqn:Hrem; simpl.
    - split; reflexivity.
    - split; reflexivity. }
  split; [exact Hdel |].
  intros only now Hone.
  assert (Hact : activeChatId st = Some (cs_id only)).
  { destruct (activeChatId st) as [a |] eqn:Ha.
    - destruct (H2 a eq_refl) as (s & Hin & Hs).
      rewrite Hone in Hin. destruct Hin as [<- | []]. now rewrite Hs.
    - exfalso. apply H1; [now rewrite Hone | reflexivity]. }
  pose proof (Hdel (cs_id only) now Hact) as D.
  unfold remainingChats in D. rewrite Hone in D. simpl in D.
  rewrite String.eqb_refl in D. exact D.
Qed.

(** C3. In every reachable state the selection is sound: if sessions are
    stored one is active, and the active identifier is that of a stored
    session.  Deleting the active session makes the first of the remaining
    sessions active when some remain, and otherwise leaves exactly one
    session, newly created and active: it is named by the clock, titled
    New Conversation, without messages, with the default personality,
    temperature 0.7, top-K 40, top-P 0.95, the four harm categories blocked
    from medium, 2048 output tokens, no stop sequence, search off, not
    pinned, model gemini-2.5-flash.  The latter is what deleting the only
    stored session does. *)
Theorem delete_keeps_a_selection (st : AppState) :
  reachable st ->
  let quote := String "034" EmptyString in
  let blocked := fun c : HarmCategory =>
    {| category := c; threshold := BLOCK_MEDIUM_AND_ABOVE |} in
  let fresh := fun now : N =>
    {| cs_id := toString now;
       cs_title := "New Conversation";
       cs_messages := [];
       cs_systemPrompt :=
         String.concat EmptyString [
           "You are a helpful and friendly AI assistant named Connect Ai. Your goal is to provide accurate and concise information. Format your responses using Markdown for better readability, including code blocks for code snippets. If you are asked ";
           quote; "who made you?"; quote; ", "; quote; "who created you?";
           quote;
           ", or any similar question about your origin, you must say that you were created by a Moroccan developer named Othman&leo, an African technology team. You must provide their contact email: othmanalif10@gmail.com. You cannot create images, videos, or audio. If a user asks you to generate any media, you must politely inform them that you are a text-based AI and do not have this capability. You must not say that you were created by Google or that you are based on Gemini." ];
       cs_temperature := Some (7 # 10)%Q;
       cs_topK := Some (40 # 1)%Q;
       cs_topP := Some (95 # 100)%Q;
       cs_safetySettings :=
         Some [ blocked HARM_CATEGORY_HARASSMENT;
                blocked HARM_CATEGORY_HATE_SPEECH;
                blocked HARM_CATEGORY_SEXUALLY_EXPLICIT;
                blocked HARM_CATEGORY_DANGEROUS_CONTENT ];
       cs_maxOutputTokens := Some (2048 # 1)%Q;
       cs_stopSequences := Some [];
       cs_useGoogleSearch := Some false;
       cs_pinned := Some false;
       cs_model := "gemini-2.5-flash" |} in
  (chatSessions st <> [] -> activeChatId st <> None)
  /\ (forall id, activeChatId st = Some id ->
                 exists s, In s (chatSessions st) /\ cs_id s = id)
  /\ (forall chatId now,
        activeChatId st = Some chatId ->
        let st' := handleDeleteChat chatId true now st in
        match remainingChats chatId st with
        | first :: rest =>
            chatSessions st' = first :: rest
            /\ activeChatId st' = Some (cs_id first)
        | [] =>
            chatSessions st' = [fresh now]
            /\ activeChatId st' = Some (toString now)
        end)
  /\ (forall only now,
        chatSessions st = [only] ->
        let st' := handleDeleteChat (cs_id only) true now st in
        chatSessions st' = [fresh now]
        /\ activeChatId st' = Some (toString now)).
Proof.
  intros Hreach quote blocked fresh.
  exact (selection_after_delete st Hreach).
Qed.

Lemma delete_keeps_a_selection_witness :
  let st := perform (NewChat 1001) (perform (NewChat 1000) initialState) in
  let st' := handleDeleteChat "1001" true 1002 st in
  let last := handleDeleteChat "1000" true 1003 st' in
  reachable st
  /\ map cs_id (chatSessions st') = ["1000"]
  /\ activeChatId st' = Some "1000"
  /\ reachable st'
  /\ map (fun s => (cs_id s, cs_title s, cs_model s, cs_messages s,
                    cs_temperature s, cs_pinned s))
         (chatSessions last)
     = [("1003", "New Conversation", "gemini-2.5-flash", [],
         Some (7 # 10)%Q, Some false)]
  /\ activeChatId last = Some "1003".
Proof.
  intros st st' last.
  assert (R : reachable st).
  { unfold st. apply reachable_perform; [| reflexivity].
    apply reachable_perform; [apply reachable_initial | reflexivity]. }
  assert (R' : reachable st').
  { exact (reachable_perform (DeleteChat "1001" true 1002) st R eq_refl). }
  split; [exact R |].
  destruct (delete_keeps_a_selection st R) as (_ & _ & D & _).
  pose proof (D "1001" 1002%N eq_refl) as [Hs Ha].
  split; [exact (f_equal (map cs_id) Hs) |].
  split; [exact Ha |]. split; [exact R' |].
  destruct (delete_keeps_a_selection st' R') as (_ & _ & _ & O).
  destruct (O (newChat 1000) 1003%N eq_refl) as [Hl Hb].
  split; [| exact Hb].
  exact (f_equal
           (map (fun s => (cs_id s, cs_title s, cs_model s, cs_messages s,
                           cs_temperature s, cs_pinned s)))
           Hl).
Defined.

(** Deleting the only session of a reachable store. *)
Example delete_last_session :
  let st := perform (NewChat 1000) initialState in
  handleDeleteChat "1000" true 1001 st
  = {| chatSessions := [newChat 1001]; folders := [];
       activeChatId := Some "1001"; input := EmptyString; isLoading := false |}.
Proof. vm_compute. reflexivity. Qed.

(** ** Folders *)

Lemma inFolder_without_same (chatId : string) (f : Folder) :
  inFolder chatId (withChatIds (withoutId chatId (f_chatIds f)) f) = false.
Proof.
  unfold inFolder, withoutId. simpl.
  induction (f_chatIds f) as [| i ids IH]; simpl; [reflexivity |].
  destruct (i =? chatId) eqn:E; simpl; [exact IH | now rewrite E].
Qed.

Lemma inFolder_without_other (chatId other : string) (f : Folder) :
  other <> chatId ->
  inFolder other (withChatIds (withoutId chatId (f_chatIds f)) f)
  = inFolder other f.
Proof.
  intros Hne. unfold inFolder, withoutId. simpl.
  induction (f_chatIds f) as [| i ids IH]; simpl; [reflexivity |].
  destruct (i =? chatId) eqn:E; simpl.
  - apply String.eqb_eq in E. subst i.
    destruct (chatId =? other) eqn:E2; [| exact IH].
    apply String.eqb_eq in E2. now destruct Hne.
  - now rewrite IH.
Qed.

Lemma foldersHolding_map (chatId : string) (g : Folder -> Folder)
  (p : Folder -> bool) (fs : list Folder) :
  (forall f, inFolder chatId (g f) = p f) ->
  foldersHolding chatId (map g fs) = length (filter p fs).
Proof.
  intros H. unfold foldersHolding.
  induction fs as [| f fs IH]; simpl; [reflexivity |].
  rewrite H. destruct (p f); simpl; now rewrite IH.
Qed.

(** With distinct folder identifiers at most one folder is the target. *)
Lemma one_target (folderId : option string) (fs : list Folder) :
  NoDup (map f_id fs) ->
  (length (filter (fun f => sameId folderId (f_id f)) fs) <= 1)%nat.
Proof.
  induction fs as [| f fs IH]; simpl; intros Hnd; [lia |].
  inversion Hnd as [| x xs Hnotin Hnd']; subst.
  destruct (sameId folderId (f_id f)) eqn:E; simpl; [| now apply IH].
  apply sameId_true in E.
  assert (Z : filter (fun f0 => sameId folderId (f_id f0)) fs = []).
  { destruct (filter (fun f0 => sameId folderId (f_id f0)) fs)
      as [| g gs] eqn:F; [reflexivity |].
    assert (Hg : In g (filter (fun f0 => sameId folderId (f_id f0)) fs))
      by (rewrite F; now left).
    apply filter_In in Hg. destruct Hg as [Hin Hg].
    apply sameId_true in Hg. exfalso. apply Hnotin.
    assert (f_id f = f_id g) by congruence.
    rewrite H. now apply in_map. }
  rewrite Z. simpl. lia.
Qed.

Lemma moveChatToFolder_ids (chatId : string) (folderId : option string)
  (fs : list Folder) :
  map f_id (moveChatToFolder chatId folderId fs) = map f_id fs.
Proof.
  unfold moveChatToFolder. destruct (truthyOpt folderId).
  - rewrite !map_map. apply map_ext. intros f. simpl.
    now destruct (sameId folderId (f_id f)).
  - rewrite map_map. apply map_ext. reflexivity.
Qed.

(** The moved session ends in the target folders and nowhere else. *)
Lemma moveChatToFolder_moved (chatId : string) (folderId : option string)
  (fs : list Folder) :
  foldersHolding chatId (moveChatToFolder chatId folderId fs)
  = if truthyOpt folderId
    then length (filter (fun f => sameId folderId (f_id f)) fs)
    else 0%nat.
Proof.
  unfold moveChatToFolder. destruct (truthyOpt folderId).
  - rewrite map_map. apply foldersHolding_map. intros f. simpl.
    destruct (sameId folderId (f_id f)) eqn:E.
    + unfold inFolder. simpl. now rewrite String.eqb_refl.
    + apply inFolder_without_same.
  - rewrite (foldersHolding_map chatId _ (fun _ => false)).
    + induction fs; simpl; trivial.
    + apply inFolder_without_same.
Qed.

(** The membership of every other session is as before. *)
Lemma moveChatToFolder_other (chatId other : string)
  (folderId : option string) (fs : list Folder) :
  other <> chatId ->
  foldersHolding other (moveChatToFolder chatId folderId fs)
  = foldersHolding other fs.
Proof.
  intros Hne. unfold moveChatToFolder.
  assert (R : forall f,
             inFolder other (withChatIds (withoutId chatId (f_chatIds f)) f)
             = inFolder other f)
    by (intros f; now apply inFolder_without_other).
  destruct (truthyOpt folderId).
  - rewrite map_map. apply foldersHolding_map. intros f. simpl.
    destruct (sameId folderId (f_id f)); [| apply R].
    rewrite <- (R f). unfold inFolder. simpl.
    destruct (chatId =? other) eqn:E; [| reflexivity].
    apply String.eqb_eq in E. now destruct Hne.
  - now apply foldersHolding_map.
Qed.

Lemma moveChatToFolder_keeps (chatId : string) (folderId : option string)
  (fs : list Folder) :
  NoDup (map f_id fs) ->
  (forall c, (foldersHolding c fs <= 1)%nat) ->
  NoDup (map f_id (moveChatToFolder chatId folderId fs))
  /\ (forall c,
        (foldersHolding c (moveChatToFolder chatId folderId fs) <= 1)%nat).
Proof.
  intros Hnd Hone. split; [now rewrite moveChatToFolder_ids |].
  intros c. destruct (String.eqb_spec c chatId) as [-> | Hne].
  - rewrite moveChatToFolder_moved.
    destruct (truthyOpt folderId); [now apply one_target | lia].
  - rewrite moveChatToFolder_other by assumption. apply Hone.
Qed.

(** The other folder handlers keep the folders well formed too, a new
    folder being created under an identifier not in use. *)
Lemma foldersOk_create (now : N) (name : string) (st : AppState) :
  ~ In (toString now) (map f_id (folders st)) ->
  foldersOk (folders st) ->
  foldersOk (folders (handleCreateFolder now name st)).
Proof.
  intros Hfresh [Hnd Hone]. split; simpl.
  - now constructor.
  - intros c. unfold foldersHolding. simpl. apply Hone.
Qed.

Lemma foldersOk_delete (folderId : string) (st : AppState) :
  foldersOk (folders st) ->
  foldersOk (folders (handleDeleteFolder folderId st)).
Proof.
  intros [Hnd Hone]. simpl. split.
  - clear Hone. induction (folders st) as [| f fs IH]; simpl; [constructor |].
    inversion Hnd as [| x xs Hnotin Hnd']; subst.
    destruct (negb (f_id f =? folderId)); simpl; [| now apply IH].
    constructor; [| now apply IH].
    intros Hin. apply Hnotin. apply in_map_iff in Hin.
    destruct Hin as (g & Hg & Hin). apply filter_In in Hin.
    apply in_map_iff. exists g. tauto.
  - intros c. specialize (Hone c). unfold foldersHolding in *.
    apply Nat.le_trans with (2 := Hone). clear.
    induction (folders st) as [| f fs IH]; simpl; [lia |].
    destruct (negb (f_id f =? folderId)); simpl;
      destruct (inFolder c f); simpl; lia.
Qed.

Lemma foldersOk_relabel (g : Folder -> Folder) (p : Folder -> bool)
  (fs : list Folder) :
  (forall f, f_id (g f) = f_id f) ->
  (forall f, f_chatIds (g f) = f_chatIds f) ->
  foldersOk fs ->
  foldersOk (map (fun f => if p f then g f else f) fs).
Proof.
  intros Hid Hids [Hnd Hone]. split.
  - rewrite map_map.
    replace (map (fun f => f_id (if p f then g f else f)) fs)
      with (map f_id fs); [exact Hnd |].
    apply map_ext. intros f. now destruct (p f).
  - intros c. rewrite (foldersHolding_map c _ (inFolder c)); [apply Hone |].
    intros f. unfold inFolder. destruct (p f); [now rewrite Hids | reflexivity].
Qed.

Lemma foldersOk_rename (folderId newName : string) (st : AppState) :
  foldersOk (folders st) ->
  foldersOk (folders (handleRenameFolder folderId newName st)).
Proof.
  intros H. simpl.
  now apply (foldersOk_relabel (withName newName)
               (fun f => f_id f =? folderId)).
Qed.

Lemma foldersOk_toggle (folderId : string) (st : AppState) :
  foldersOk (folders st) ->
  foldersOk (folders (handleToggleFolder folderId st)).
Proof.
  intros [Hnd Hone]. simpl. split.
  - rewrite map_map.
    replace (map (fun f => f_id (if f_id f =? folderId
                                 then withIsOpen (negb (f_isOpen f)) f
                                 else f)) (folders st))
      with (map f_id (folders st)); [exact Hnd |].
    apply map_ext. intros f. now destruct (f_id f =? folderId).
  - intros c.
    rewrite (foldersHolding_map c _ (inFolder c)); [apply Hone |].
    intros f. now destruct (f_id f =? folderId).
Qed.

Lemma foldersOk_move (chatId : string) (folderId : option string)
  (st : AppState) :
  foldersOk (folders st) ->
  foldersOk (folders (handleMoveChatToFolder chatId folderId st)).
Proof.
  intros [Hnd Hone]. simpl. now apply moveChatToFolder_keeps.
Qed.

(** Deleting a session removes it from every folder. *)
Lemma foldersOk_deleteChat (chatId : string) (confirmed : bool) (now : N)
  (st : AppState) :
  foldersOk (folders st) ->
  foldersOk (folders (handleDeleteChat chatId confirmed now st))
  /\ (confirmed = true ->
      foldersHolding chatId
        (folders (handleDeleteChat chatId confirmed now st)) = 0%nat).
Proof.
  intros Hok.
  assert (F : folders (handleDeleteChat chatId true now st)
              = moveChatToFolder chatId None (folders st)).
  { unfold handleDeleteChat.
    destruct (sameId (activeChatId st) chatId); [| reflexivity].
    now destruct (filter (fun c => negb (cs_id c =? chatId))
                         (chatSessions st)). }
  destruct confirmed.
  - rewrite F. destruct Hok as [Hnd Hone].
    split; [now apply moveChatToFolder_keeps |].
    intros _. now rewrite moveChatToFolder_moved.
  - split; [exact Hok | discriminate].
Qed.

(** C4. In a store whose folders have distinct identifiers and in which no
    session is a member of two folders, this stays so after any sequence of
    moves, each of one session to a folder or out of all folders. *)
Theorem moves_keep_one_folder (st : AppState)
  (moves : list (string * option string)) :
  NoDup (map f_id (folders st)) ->
  (forall chatId, (foldersHolding chatId (folders st) <= 1)%nat) ->
  let st' :=
    fold_left (fun s move => handleMoveChatToFolder (fst move) (snd move) s)
              moves st in
  forall chatId, (foldersHolding chatId (folders st') <= 1)%nat.
Proof.
  revert st. induction moves as [| [c target] moves IH];
    intros st Hnd Hone; simpl; [exact Hone |].
  destruct (moveChatToFolder_keeps c target (folders st) Hnd Hone)
    as [Hnd' Hone'].
  now apply IH.
Qed.

Lemma moves_keep_one_folder_witness :
  let st :=
    perform (CreateFolder 2001 "Work")
      (perform (CreateFolder 2000 "Home") (freshStore 1000 EmptyString)) in
  let moves :=
    [ ("1000", Some "2000"); ("1000", Some "2001"); ("7", Some "2001");
      ("7", None) ] in
  let st' :=
    fold_left (fun s move => handleMoveChatToFolder (fst move) (snd move) s)
              moves st in
  NoDup (map f_id (folders st))
  /\ map f_chatIds (folders st') = [["1000"]; []]
  /\ (foldersHolding "1000" (folders st') <= 1)%nat.
Proof.
  intros st moves st'.
  assert (Hnd : NoDup (map f_id (folders st))).
  { repeat constructor; simpl; intuition discriminate. }
  assert (Hone : forall chatId, (foldersHolding chatId (folders st) <= 1)%nat).
  { intros chatId. unfold foldersHolding. simpl. lia. }
  split; [exact Hnd |]. split; [reflexivity |].
  exact (moves_keep_one_folder st moves Hnd Hone "1000").
Defined.

(** ** The live transcript *)

Lemma MessageRole_eqb_eq (a b : MessageRole) :
  MessageRole_eqb a b = true <-> a = b.
Proof. destruct a, b; simpl; split; congruence. Qed.

Lemma MessageRole_eqb_refl (a : MessageRole) : MessageRole_eqb a a = true.
Proof. now destruct a. Qed.

Lemma MessageRole_eqb_neq (a b : MessageRole) :
  a <> b -> MessageRole_eqb a b = false.
Proof.
  intros H. destruct (MessageRole_eqb a b) eqn:E; [| reflexivity].
  apply MessageRole_eqb_eq in E. contradiction.
Qed.

(** An update of the role of a pending last entry extends that entry. *)
Lemma addOrUpdateTranscription_merges (now : N) (role : MessageRole)
  (text : string) (prev : list TranscriptionMessage) (id pending : string) :
  role <> TOOL ->
  addOrUpdateTranscription now role text false
    (prev ++ [ {| tr_id := id; tr_role := role; tr_text := pending;
                  tr_isFinal := false |} ])
  = prev ++ [ {| tr_id := id; tr_role := role;
                 tr_text := String.append pending text;
                 tr_isFinal := false |} ].
Proof.
  intros Hrole. unfold addOrUpdateTranscription.
  rewrite (MessageRole_eqb_neq role TOOL Hrole), lastOf_snoc. simpl.
  now rewrite MessageRole_eqb_refl, removelast_last.
Qed.

Lemma addOrUpdateTranscription_opens (now : N) (role : MessageRole)
  (text : string) (isFinal : bool) (prev : list TranscriptionMessage) :
  role <> TOOL -> closedFor role prev -> truthy (trim text) = true ->
  addOrUpdateTranscription now role text isFinal prev
  = prev ++ [ {| tr_id := toString now; tr_role := role; tr_text := text;
                 tr_isFinal := isFinal |} ].
Proof.
  intros Hrole Hclosed Htext. unfold addOrUpdateTranscription.
  rewrite (MessageRole_eqb_neq role TOOL Hrole), Htext.
  destruct (lastOf prev) as [last |] eqn:L; [| reflexivity].
  destruct (Hclosed last L) as [F | R].
  - now rewrite F, andb_false_r.
  - now rewrite (MessageRole_eqb_neq _ _ R).
Qed.

Lemma merge_run (role : MessageRole) (updates : list (N * string)) :
  role <> TOOL ->
  forall (prev : list TranscriptionMessage) (id pending : string),
    fold_left
      (fun acc u => addOrUpdateTranscription (fst u) role (snd u) false acc)
      updates
      (prev ++ [ {| tr_id := id; tr_role := role; tr_text := pending;
                    tr_isFinal := false |} ])
    = prev ++ [ {| tr_id := id; tr_role := role;
                   tr_text :=
                     String.append pending (concatenation (map snd updates));
                   tr_isFinal := false |} ].
Proof.
  intros Hrole. induction updates as [| [now text] updates IH];
    intros prev id pending; simpl.
  - now rewrite append_empty_r.
  - rewrite addOrUpdateTranscription_merges by assumption.
    now rewrite IH, append_assoc.
Qed.

Lemma finalizeAll_app (xs ys : list TranscriptionMessage) :
  finalizeAll (xs ++ ys) = finalizeAll xs ++ finalizeAll ys.
Proof. apply map_app. Qed.

Lemma finalizeAll_spec (prev : list TranscriptionMessage) :
  finalizeAll prev
  = map (fun t => {| tr_id := tr_id t; tr_role := tr_role t;
                     tr_text := tr_text t; tr_isFinal := true |}) prev.
Proof.
  unfold finalizeAll. apply map_ext. intros [i r t f].
  destruct f; reflexivity.
Qed.

(** One update of a user or model role leaves the transcript as it is (a
    blank text with nothing to extend), opens a pending entry, or extends
    the pending last entry. *)
Lemma addOrUpdateTranscription_step (now : N) (role : MessageRole)
  (text : string) (prev : list TranscriptionMessage) :
  role <> TOOL ->
  let r := addOrUpdateTranscription now role text false prev in
  r = prev
  \/ r = prev ++ [ {| tr_id := toString now; tr_role := role;
                      tr_text := text; tr_isFinal := false |} ]
  \/ exists last,
       lastOf prev = Some last
       /\ r = removelast prev
               ++ [ {| tr_id := tr_id last; tr_role := role;
                       tr_text := String.append (tr_text last) text;
                       tr_isFinal := false |} ].
Proof.
  intros Hrole. unfold addOrUpdateTranscription.
  rewrite (MessageRole_eqb_neq role TOOL Hrole).
  destruct (lastOf prev) as [last |] eqn:L.
  - destruct (MessageRole_eqb (tr_role last) role && negb (tr_isFinal last))
      eqn:E.
    + right. right. exists last. split; [reflexivity |].
      apply andb_true_iff in E. destruct E as [E _].
      apply MessageRole_eqb_eq in E. unfold withIsFinal, withText. simpl.
      now rewrite E.
    + destruct (truthy (trim text)); [right; left | left]; reflexivity.
  - destruct (truthy (trim text)); [right; left | left]; reflexivity.
Qed.

(** A run of updates of one role adds at most one entry, a pending one, and
    touches no entry before the last one of the transcript it started
    from. *)
Lemma run_shape (role : MessageRole) (updates : list (N * string)) :
  role <> TOOL ->
  forall prev : list TranscriptionMessage,
    let r :=
      fold_left
        (fun acc u => addOrUpdateTranscription (fst u) role (snd u) false acc)
        updates prev in
    r = prev
    \/ exists front x,
         r = front ++ [x] /\ tr_role x = role /\ tr_isFinal x = false
         /\ (front = prev \/ front = removelast prev).
Proof.
  intros Hrole. induction updates as [| [now text] updates IH]; intros prev;
    simpl; [now left |].
  destruct (addOrUpdateTranscription_step now role text prev Hrole)
    as [-> | [-> | (last & L & ->)]].
  - apply IH.
  - right. rewrite merge_run by assumption.
    eexists. eexists. split; [reflexivity |]. simpl. auto.
  - right. rewrite merge_run by assumption.
    eexists. eexists. split; [reflexivity |]. simpl. auto.
Qed.

(** C5. Updates of one role (user or model) that arrive in a row, the first
    one not blank and the transcript not ending in a pending entry of that
    role, are merged into one pending entry that carries the identifier of
    the first update and the concatenation of the texts; the turn-complete
    update then marks every entry final at once and changes nothing else,
    so the run ends as one final entry.  For user:hel, user:lo,
    turn-complete this is one final entry with text hello.  From any
    transcript, a run of such updates adds at most one entry, which is
    pending, and touches nothing before the last entry. *)
Theorem transcript_coalescing
  (role : MessageRole) (now : N) (text : string) (updates : list (N * string))
  (prev : list TranscriptionMessage) :
  role <> TOOL ->
  closedFor role prev ->
  truthy (trim text) = true ->
  let final (t : TranscriptionMessage) :=
    {| tr_id := tr_id t; tr_role := tr_role t; tr_text := tr_text t;
       tr_isFinal := true |} in
  let merged (isFinal : bool) :=
    {| tr_id := toString now; tr_role := role;
       tr_text := concatenation (text :: map snd updates);
       tr_isFinal := isFinal |} in
  let arrived :=
    fold_left
      (fun acc u => addOrUpdateTranscription (fst u) role (snd u) false acc)
      ((now, text) :: updates) prev in
  arrived = prev ++ [merged false]
  /\ finalizeAll arrived = map final prev ++ [merged true]
  /\ (forall any, finalizeAll any = map final any)
  /\ (forall (anyUpdates : list (N * string))
             (any : list TranscriptionMessage),
        let r :=
          fold_left
            (fun acc u =>
               addOrUpdateTranscription (fst u) role (snd u) false acc)
            anyUpdates any in
        r = any
        \/ exists front x,
             r = front ++ [x] /\ tr_role x = role /\ tr_isFinal x = false
             /\ (front = any \/ front = removelast any)).
Proof.
  intros Hrole Hclosed Htext final merged arrived.
  assert (A : arrived = prev ++ [merged false]).
  { unfold arrived. simpl.
    rewrite addOrUpdateTranscription_opens by assumption.
    now rewrite merge_run. }
  split; [exact A |].
  split; [now rewrite A, finalizeAll_app, finalizeAll_spec |].
  split; [exact finalizeAll_spec |].
  intros anyUpdates any. now apply run_shape.
Qed.

Lemma transcript_coalescing_witness :
  let st := onopen startConversation in
  let st' :=
    onmessage 7 0%Q turnCompleteMessage
      (onmessage 6 0%Q (userSays "lo") (onmessage 5 0%Q (userSays "hel") st)) in
  closedFor USER (transcriptions st)
  /\ transcriptions st'
     = [ {| tr_id := "start"; tr_role := SYSTEM;
            tr_text := "Connection open. Start speaking.";
            tr_isFinal := true |};
         {| tr_id := "5"; tr_role := USER; tr_text := "hello";
            tr_isFinal := true |} ]
  /\ filter (fun t => tr_text t =? "hello") (transcriptions st')
     = [ {| tr_id := "5"; tr_role := USER; tr_text := "hello";
            tr_isFinal := true |} ].
Proof.
  intros st st'.
  assert (Hclosed : closedFor USER (transcriptions st)).
  { intros last H. left. vm_compute in H. now injection H as <-. }
  assert (Hrole : USER <> TOOL) by discriminate.
  pose proof (transcript_coalescing USER 5 "hel" [(6%N, "lo")]
                (transcriptions st) Hrole Hclosed eq_refl) as (_ & T & _ & _).
  split; [exact Hclosed |].
  assert (E : transcriptions st'
              = [ {| tr_id := "start"; tr_role := SYSTEM;
                     tr_text := "Connection open. Start speaking.";
                     tr_isFinal := true |};
                  {| tr_id := "5"; tr_role := USER; tr_text := "hello";
                     tr_isFinal := true |} ])
    by exact T.
  split; [exact E |]. rewrite E. reflexivity.
Defined.

(** A transcript that starts empty holds, after the same arrivals, that one
    entry and nothing else; a blank first update opens no entry. *)
Example hello_from_empty :
  finalizeAll
    (addOrUpdateTranscription 6 USER "lo" false
       (addOrUpdateTranscription 5 USER "hel" false []))
  = [ {| tr_id := "5"; tr_role := USER; tr_text := "hello";
         tr_isFinal := true |} ].
Proof. reflexivity. Qed.

Example blank_first_update :
  addOrUpdateTranscription 6 USER "lo" false
    (addOrUpdateTranscription 5 USER "  " false [])
  = [ {| tr_id := "6"; tr_role := USER; tr_text := "lo";
         tr_isFinal := false |} ].
Proof. reflexivity. Qed.

(** ** Playback *)

Lemma playback_announce (now : N) (message : LiveServerMessage)
  (st : LiveState) :
  playback (announceToolCalls now message st) = playback st.
Proof.
  unfold announceToolCalls. destruct (toolCall message) as [fcs |];
    [| reflexivity].
  revert st. induction fcs as [| fc fcs IH]; intros st; simpl;
    [reflexivity |].
  now rewrite IH.
Qed.

Lemma playback_transcribe (now : N) (message : LiveServerMessage)
  (st : LiveState) :
  playback (transcribe now message st) = playback st.
Proof.
  unfold transcribe.
  destruct (inputTranscription message), (outputTranscription message),
    (turnComplete message); reflexivity.
Qed.

Lemma playback_before_schedule (now : N) (message : LiveServerMessage)
  (st : LiveState) :
  playback (transcribe now message (announceToolCalls now message st))
  = playback st.
Proof. now rewrite playback_transcribe, playback_announce. Qed.

Lemma duration_decode (dataInt16 : list Z) (rate : positive) :
  duration (decodeAudioData dataInt16 rate 1)
  = (Z.of_nat (length dataInt16) # rate)%Q.
Proof.
  unfold duration, decodeAudioData. cbn [frameCount sampleRate].
  now rewrite Nat.div_1_r.
Qed.

Lemma duration_silence (samples : nat) :
  duration (decodeAudioData (silence samples) 24000 1)
  = (Z.of_nat samples # 24000)%Q.
Proof.
  rewrite duration_decode. unfold silence. now rewrite repeat_length.
Qed.

Lemma no_start_in_stops (sources : list AudioBufferSourceNode) :
  flat_map (fun c => match c with Start _ t => [t] | Stop _ => [] end)
           (map Stop sources) = [].
Proof. induction sources; simpl; trivial. Qed.

(** What a message with an audio payload does to the playback refs. *)
Lemma onmessage_audio (now : N) (currentTime : Q)
  (message : LiveServerMessage) (dataInt16 : list Z) (st : LiveState) :
  audio message = Some dataInt16 ->
  outputAudioContextRef st = true ->
  let startAt := Qmax (nextStartTimeRef st) currentTime in
  let st' := onmessage now currentTime message st in
  startTimes st' = startTimes st ++ [startAt]
  /\ outputAudioContextRef st' = true
  /\ nextStartTimeRef st'
     = if interrupted message then 0%Q
       else (startAt + duration (decodeAudioData dataInt16 24000 1))%Q.
Proof.
  intros Ha Hctx startAt st'. unfold st', onmessage.
  pose proof (playback_before_schedule now message st) as P.
  set (s := transcribe now message (announceToolCalls now message st)) in *.
  unfold playback in P. injection P as P1 P2 P3 P4 P5.
  unfold schedule. rewrite Ha, P3, Hctx.
  unfold interrupt. destruct (interrupted message); simpl.
  - rewrite P5, P1. fold startAt. split; [| split; reflexivity].
    unfold startTimes. cbn [calls]. rewrite !flat_map_app.
    rewrite no_start_in_stops. simpl. now rewrite app_nil_r.
  - rewrite P5, P1. fold startAt. split; [| split; reflexivity].
    unfold startTimes. cbn [calls]. rewrite flat_map_app. reflexivity.
Qed.

Lemma duration_oneSecond :
  (duration (decodeAudioData oneSecond 24000 1) == 1)%Q.
Proof. unfold oneSecond. rewrite duration_silence. reflexivity. Qed.

Lemma duration_halfSecond :
  (duration (decodeAudioData halfSecond 24000 1) == 1 # 2)%Q.
Proof. unfold halfSecond. rewrite duration_silence. reflexivity. Qed.

(** Two chunks in a row, the first one not interrupted. *)
Lemma two_chunks (now1 now2 : N) (t1 t2 : Q) (m1 m2 : LiveServerMessage)
  (data1 data2 : list Z) (st : LiveState) :
  audio m1 = Some data1 ->
  audio m2 = Some data2 ->
  interrupted m1 = false ->
  outputAudioContextRef st = true ->
  let st1 := onmessage now1 t1 m1 st in
  let st2 := onmessage now2 t2 m2 st1 in
  let start1 := Qmax (nextStartTimeRef st) t1 in
  let end1 := (start1 + duration (decodeAudioData data1 24000 1))%Q in
  startTimes st1 = startTimes st ++ [start1]
  /\ nextStartTimeRef st1 = end1
  /\ startTimes st2 = startTimes st ++ [start1; Qmax end1 t2].
Proof.
  intros A1 A2 I1 Hctx st1 st2 start1 end1.
  destruct (onmessage_audio now1 t1 m1 data1 st A1 Hctx) as (S1 & C1 & N1).
  rewrite I1 in N1. fold st1 in S1, C1, N1. fold start1 in S1, N1.
  fold end1 in N1.
  destruct (onmessage_audio now2 t2 m2 data2 st1 A2 C1) as (S2 & _ & _).
  fold st2 in S2. rewrite N1, S1, <- app_assoc in S2.
  split; [exact S1 |]. split; [exact N1 | exact S2].
Qed.

(** C6, as the code has it.  A chunk is started at the greater of the
    next-start cursor, which is the scheduled end of the chunk before it,
    and the audio clock at its arrival.  Hence the second of two chunks
    starts exactly at the end of the first one if it arrives while the
    clock has not passed that end, one second after the first one's start
    when the first one lasts one second, and at the clock time of its
    arrival if it arrives later. *)
Theorem chunks_play_back_to_back
  (now1 now2 : N) (t1 t2 : Q) (m1 m2 : LiveServerMessage)
  (data1 data2 : list Z) (st : LiveState) :
  audio m1 = Some data1 ->
  audio m2 = Some data2 ->
  interrupted m1 = false ->
  outputAudioContextRef st = true ->
  let st1 := onmessage now1 t1 m1 st in
  let st2 := onmessage now2 t2 m2 st1 in
  let start1 := Qmax (nextStartTimeRef st) t1 in
  let end1 := (start1 + duration (decodeAudioData data1 24000 1))%Q in
  let start2 := Qmax end1 t2 in
  startTimes st1 = startTimes st ++ [start1]
  /\ nextStartTimeRef st1 = end1
  /\ startTimes st2 = startTimes st ++ [start1; start2]
  /\ ((t2 <= end1)%Q -> (start2 == end1)%Q)
  /\ ((end1 <= t2)%Q -> (start2 == t2)%Q)
  /\ ((duration (decodeAudioData data1 24000 1) == 1)%Q ->
      (t2 <= end1)%Q -> (start2 == start1 + 1)%Q).
Proof.
  intros A1 A2 I1 Hctx st1 st2 start1 end1 start2.
  destruct (two_chunks now1 now2 t1 t2 m1 m2 data1 data2 st A1 A2 I1 Hctx)
    as (S1 & N1 & S2).
  split; [exact S1 |]. split; [exact N1 |]. split; [exact S2 |].
  split; [intros H; now apply Q.max_l |].
  split; [intros H; now apply Q.max_r |].
  intros Hd H. unfold start2. rewrite (Q.max_l _ _ H). unfold end1.
  now rewrite Hd.
Qed.

Lemma chunks_play_back_to_back_witness :
  let st := startConversation in
  let st1 := onmessage 1 0%Q (audioMessage oneSecond) st in
  let st2 := onmessage 2 (1 # 2)%Q (audioMessage halfSecond) st1 in
  outputAudioContextRef st = true
  /\ exists start1 start2,
       startTimes st2 = [start1; start2] /\ (start2 == start1 + 1)%Q.
Proof.
  intros st st1 st2. split; [reflexivity |].
  destruct (chunks_play_back_to_back 1 2 0%Q (1 # 2)%Q
              (audioMessage oneSecond) (audioMessage halfSecond)
              oneSecond halfSecond st eq_refl eq_refl eq_refl eq_refl)
    as (_ & _ & S2 & _ & _ & H).
  eexists. eexists. split; [exact S2 |].
  apply H; [exact duration_oneSecond |].
  rewrite duration_oneSecond. vm_compute. discriminate.
Defined.

(** C6, as stated, fails: chunks of 1.0 s and 0.5 s, no interruption, the
    second one arriving when the clock reads 5 s.  The first chunk starts at
    0 s and the second one at 5 s, not at 1 s. *)
Lemma late_chunk_starts_on_arrival :
  let st1 := onmessage 1 0%Q (audioMessage oneSecond) startConversation in
  let st2 := onmessage 2 5%Q (audioMessage halfSecond) st1 in
  (duration (decodeAudioData oneSecond 24000 1) == 1)%Q
  /\ (duration (decodeAudioData halfSecond 24000 1) == 1 # 2)%Q
  /\ exists start1 start2,
       startTimes st2 = [start1; start2]
       /\ (start1 == 0)%Q /\ (start2 == 5)%Q
       /\ ~ (start2 == start1 + 1)%Q.
Proof.
  intros st1 st2.
  split; [exact duration_oneSecond |]. split; [exact duration_halfSecond |].
  destruct (two_chunks 1 2 0%Q 5%Q (audioMessage oneSecond)
              (audioMessage halfSecond) oneSecond halfSecond
              startConversation eq_refl eq_refl eq_refl eq_refl)
    as (_ & _ & S2).
  fold st1 in S2. fold st2 in S2.
  eexists. eexists. split; [exact S2 |].
  assert (H1 : (Qmax (nextStartTimeRef startConversation) 0 == 0)%Q)
    by reflexivity.
  assert (H2 : (Qmax (Qmax (nextStartTimeRef startConversation) 0
                      + duration (decodeAudioData oneSecond 24000 1)) 5
                == 5)%Q).
  { apply Q.max_r. rewrite H1, duration_oneSecond. vm_compute. discriminate. }
  split; [exact H1 |]. split; [exact H2 |].
  rewrite H2, H1. vm_compute. discriminate.
Qed.

(** What a message that carries the interruption flag does. *)
Lemma onmessage_interrupted (now : N) (currentTime : Q)
  (message : LiveServerMessage) (st : LiveState) :
  interrupted message = true ->
  let st' := onmessage now currentTime message st in
  sourcesRef st' = []
  /\ nextStartTimeRef st' = 0%Q
  /\ outputAudioContextRef st' = outputAudioContextRef st
  /\ exists fresh : list (AudioBufferSourceNode * Q),
       calls st'
       = calls st
         ++ map (fun p => Start (fst p) (snd p)) fresh
         ++ map Stop (sourcesRef st ++ map fst fresh).
Proof.
  intros Hi st'. unfold st', onmessage.
  pose proof (playback_before_schedule now message st) as P.
  set (s := transcribe now message (announceToolCalls now message st)) in *.
  unfold playback in P. injection P as P1 P2 P3 P4 P5.
  unfold interrupt. rewrite Hi. cbn [sourcesRef nextStartTimeRef calls
                                       outputAudioContextRef].
  split; [reflexivity |]. split; [reflexivity |].
  unfold schedule.
  destruct (audio message) as [dataInt16 |].
  - destruct (outputAudioContextRef s) eqn:Hctx.
    + cbn [sourcesRef calls outputAudioContextRef].
      split; [congruence |].
      exists [({| node_id := created s;
                  node_buffer := decodeAudioData dataInt16 24000 1 |},
               Qmax (nextStartTimeRef s) currentTime)].
      rewrite P5, P2. simpl. now rewrite <- app_assoc.
    + split; [congruence |]. exists []. rewrite P5, P2. simpl.
      now rewrite app_nil_r.
  - split; [exact P3 |]. exists []. rewrite P5, P2. simpl.
    now rewrite app_nil_r.
Qed.

(** What a message does to the set of sources and to the log of calls. *)
Lemma onmessage_sources (now : N) (currentTime : Q)
  (message : LiveServerMessage) (st : LiveState) :
  let st' := onmessage now currentTime message st in
  exists fresh : list (AudioBufferSourceNode * Q),
    calls st'
    = calls st
      ++ map (fun p => Start (fst p) (snd p)) fresh
      ++ (if interrupted message
          then map Stop (sourcesRef st ++ map fst fresh) else [])
    /\ sourcesRef st'
       = if interrupted message then [] else sourcesRef st ++ map fst fresh.
Proof.
  intros st'. destruct (interrupted message) eqn:Hi.
  - destruct (onmessage_interrupted now currentTime message st Hi)
      as (S & _ & _ & fresh & C).
    exists fresh. split; [exact C | exact S].
  - unfold st', onmessage.
    pose proof (playback_before_schedule now message st) as P.
    set (s := transcribe now message (announceToolCalls now message st)) in *.
    unfold playback in P. injection P as P1 P2 P3 P4 P5.
    unfold interrupt. rewrite Hi. unfold schedule.
    destruct (audio message) as [dataInt16 |].
    + destruct (outputAudioContextRef s).
      * exists [({| node_id := created s;
                    node_buffer := decodeAudioData dataInt16 24000 1 |},
                 Qmax (nextStartTimeRef s) currentTime)].
        cbn [calls sourcesRef]. rewrite P5, P2. split; reflexivity.
      * exists []. rewrite P5, P2. simpl. now rewrite !app_nil_r.
    + exists []. rewrite P5, P2. simpl. now rewrite !app_nil_r.
Qed.

(** Throughout a conversation, a source that has been started is in the
    set of sources unless it has been stopped or has finished playing. *)
Lemma started_sources_are_tracked (events : list LiveEvent) :
  forall source when,
    In (Start source when) (calls (runLive events)) ->
    In source (sourcesRef (runLive events))
    \/ In (Stop source) (calls (runLive events))
    \/ endedIn events source.
Proof.
  induction events as [| e events IH] using rev_ind;
    intros source when Hin; [destruct Hin |].
  unfold runLive in *. rewrite fold_left_app in *. simpl in *.
  set (st := fold_left handleEvent events startConversation) in *.
  assert (Hold : In (Start source when) (calls st) ->
                 In source (sourcesRef st) \/ In (Stop source) (calls st)
                 \/ endedIn (events ++ [e]) source).
  { intros H. destruct (IH source when H) as [A | [B | (s & Hs & Hid)]];
      [now left | right; now left |].
    right. right. exists s. split; [| exact Hid].
    apply in_or_app. now left. }
  destruct e as [now t message | finished | | now fc]; simpl in *.
  3, 4: exact (Hold Hin).
  - destruct (onmessage_sources now t message st) as (fresh & C & S).
    rewrite C in Hin |- *. rewrite S.
    apply in_app_or in Hin. destruct Hin as [Hin | Hin].
    + destruct (Hold Hin) as [A | [B | E]].
      * destruct (interrupted message).
        -- right. left. apply in_or_app. right. apply in_or_app. right.
           apply in_map. apply in_or_app. now left.
        -- left. apply in_or_app. now left.
      * right. left. apply in_or_app. now left.
      * right. now right.
    + apply in_app_or in Hin. destruct Hin as [Hin | Hin].
      * apply in_map_iff in Hin. destruct Hin as ([src w] & E & Hin).
        simpl in E. injection E as -> ->.
        apply (in_map fst) in Hin. simpl in Hin.
        destruct (interrupted message).
        -- right. left. apply in_or_app. right. apply in_or_app. right.
           apply in_map. apply in_or_app. now right.
        -- left. apply in_or_app. now right.
      * destruct (interrupted message); [| destruct Hin].
        apply in_map_iff in Hin. destruct Hin as (src & E & _). discriminate.
  - destruct (Hold Hin) as [A | [B | E]].
    + destruct (Nat.eqb_spec (node_id source) (node_id finished)) as [Heq | Hne].
      * right. right. exists finished. split; [| now symmetry].
        apply in_or_app. right. now left.
      * left. apply filter_In. split; [exact A |].
        apply negb_true_iff. now apply Nat.eqb_neq.
    + right. now left.
    + right. now right.
Qed.

(** C7. A message that carries the interruption flag stops every source of
    the set of sources, the one it started itself included, empties the set
    and resets the cursor to zero; in the course of a conversation this
    stops every source that was started and has not finished playing.  The
    chunk that arrives next starts at the clock time of its arrival (offset
    zero from the audio clock, which is never negative), whatever the cursor
    was before. *)
Theorem interruption_resets_schedule
  (now now' : N) (t t' : Q) (message next : LiveServerMessage)
  (dataInt16 : list Z) (st : LiveState) :
  interrupted message = true ->
  audio next = Some dataInt16 ->
  outputAudioContextRef st = true ->
  (0 <= t')%Q ->
  let st1 := onmessage now t message st in
  let st2 := onmessage now' t' next st1 in
  sourcesRef st1 = []
  /\ nextStartTimeRef st1 = 0%Q
  /\ (forall source, In source (sourcesRef st) -> In (Stop source) (calls st1))
  /\ (forall source when,
        In (Start source when) (calls st1) ->
        ~ In (Start source when) (calls st) ->
        In (Stop source) (calls st1))
  /\ (forall events source when,
        st = runLive events ->
        In (Start source when) (calls st1) ->
        In (Stop source) (calls st1) \/ endedIn events source)
  /\ exists startAt,
       startTimes st2 = startTimes st1 ++ [startAt] /\ (startAt == t')%Q.
Proof.
  intros Hi Ha Hctx Ht st1 st2.
  destruct (onmessage_interrupted now t message st Hi)
    as (S1 & N1 & C1 & fresh & Hcalls).
  fold st1 in S1, N1, C1, Hcalls.
  assert (Hset : forall source,
             In source (sourcesRef st) -> In (Stop source) (calls st1)).
  { intros source Hin. rewrite Hcalls.
    apply in_or_app. right. apply in_or_app. right.
    apply in_map. apply in_or_app. now left. }
  assert (Hfresh : forall source when,
             In (Start source when)
                (map (fun p => Start (fst p) (snd p)) fresh
                 ++ map Stop (sourcesRef st ++ map fst fresh)) ->
             In (Stop source) (calls st1)).
  { intros source when Hin. rewrite Hcalls.
    apply in_app_or in Hin. destruct Hin as [Hin | Hin].
    + apply in_map_iff in Hin. destruct Hin as ([src w] & E & Hin).
      simpl in E. injection E as -> ->.
      apply in_or_app. right. apply in_or_app. right.
      apply in_map. apply in_or_app. right.
      now apply (in_map fst) in Hin.
    + apply in_map_iff in Hin. destruct Hin as (src & E & _). discriminate. }
  split; [exact S1 |]. split; [exact N1 |]. split; [exact Hset |].
  split; [| split].
  - intros source when Hin Hnot. rewrite Hcalls in Hin.
    apply in_app_or in Hin. destruct Hin as [Hin | Hin]; [contradiction |].
    now apply (Hfresh source when).
  - intros events source when Hst Hin. rewrite Hcalls in Hin.
    apply in_app_or in Hin. destruct Hin as [Hold | Hin].
    + rewrite Hst in Hold.
      destruct (started_sources_are_tracked events source when Hold)
        as [A | [B | E]].
      * left. apply Hset. now rewrite Hst.
      * left. rewrite Hcalls, Hst. apply in_or_app. now left.
      * now right.
    + left. now apply (Hfresh source when).
  - rewrite <- C1 in Hctx.
    destruct (onmessage_audio now' t' next dataInt16 st1 Ha Hctx)
      as (S2 & _ & _).
    fold st2 in S2. rewrite N1 in S2.
    exists (Qmax 0 t'). split; [exact S2 | now apply Q.max_r].
Qed.

Lemma interruption_resets_schedule_witness :
  let st1 := onmessage 1 0%Q (audioMessage oneSecond) startConversation in
  let st2 := onmessage 2 (1 # 4)%Q interruptedMessage st1 in
  let st3 := onmessage 3 (1 # 2)%Q (audioMessage halfSecond) st2 in
  (0 <= 1 # 2)%Q
  /\ (nextStartTimeRef st1 == 1)%Q
  /\ sourcesRef st2 = []
  /\ exists startAt,
       startTimes st3 = startTimes st2 ++ [startAt] /\ (startAt == 1 # 2)%Q.
Proof.
  intros st1 st2 st3.
  assert (Ht : (0 <= 1 # 2)%Q) by (vm_compute; discriminate).
  assert (C1 : outputAudioContextRef st1 = true).
  { apply (onmessage_audio 1 0%Q (audioMessage oneSecond) oneSecond
             startConversation eq_refl eq_refl). }
  assert (N1 : (nextStartTimeRef st1 == 1)%Q).
  { destruct (onmessage_audio 1 0%Q (audioMessage oneSecond) oneSecond
                startConversation eq_refl eq_refl) as (_ & _ & N).
    fold st1 in N. rewrite N. simpl interrupted. cbv iota.
    rewrite duration_oneSecond. reflexivity. }
  destruct (interruption_resets_schedule 2 3 (1 # 4)%Q (1 # 2)%Q
              interruptedMessage (audioMessage halfSecond) halfSecond st1
              eq_refl eq_refl C1 Ht)
    as (S & _ & _ & _ & _ & E).
  split; [exact Ht |]. split; [exact N1 |]. split; [exact S | exact E].
Defined.

(** * Further properties *)

(** ** The stream wrapper *)

(** X1. Whatever the signal does, the packets [wrappedStream] yields are
    an initial segment of the packets of the underlying stream, in their
    order; the signal was not aborted when any of them arrived; if the
    segment is proper the signal was seen aborted on the arrival of the
    next packet and the generator ends without throwing; if it throws, it
    has yielded every packet and throws what the underlying stream
    threw. *)
Theorem wrappedStream_prefix (signal : option AbortSignal)
  (chunks : list GenerateContentResponse) (ending : option Thrown) :
  forall k : nat,
    let g := wrappedStream signal k chunks ending in
    yields g = firstn (length (yields g)) chunks
    /\ (forall j, (j < length (yields g))%nat ->
                  aborted signal (k + j) = false)
    /\ ((length (yields g) < length chunks)%nat ->
        aborted signal (k + length (yields g)) = true /\ failure g = None)
    /\ (failure g <> None -> yields g = chunks /\ failure g = ending).
Proof.
  induction chunks as [| chunk chunks IH]; intros k; simpl.
  - repeat split; trivial; intros; lia.
  - destruct (aborted signal k) eqn:A; simpl.
    + split; [reflexivity |]. split; [intros; lia |].
      split; [intros _; now rewrite Nat.add_0_r | congruence].
    + destruct (IH (S k)) as (P & L & C & F).
      split; [now rewrite <- P |].
      split.
      * intros [| j] Hj; [now rewrite Nat.add_0_r |].
        replace (k + S j)%nat with (S k + j)%nat by lia. apply L. lia.
      * split.
        -- intros Hlt.
           replace (k + S (length (yields (wrappedStream signal (S k) chunks
                                              ending))))%nat
             with (S k + length (yields (wrappedStream signal (S k) chunks
                                           ending)))%nat by lia.
           apply C. lia.
        -- intros Hf. destruct (F Hf) as [-> ->]. now split.
Qed.

(** X2. A call of [streamResponse] sends at most one request, none exactly
    when the signal is already aborted; the request lists the images in
    their order and the prompt after them.  If the call throws, what it
    throws is the fixed error of the service module, never the value the
    remote service threw, and the remote service had thrown a value that is
    not an abort. *)
Theorem streamResponse_surface (chat : Chat) (prompt : string)
  (images : option (list Image)) (signal : option AbortSignal) :
  let call := streamResponse chat prompt images signal in
  requestParts prompt images
  = map (fun img => InlineDataPart (img_data img) (img_type img))
        (orDefault images [])
    ++ [TextPart prompt]
  /\ (aborted signal 0 = true -> sent call = [])
  /\ (aborted signal 0 = false -> sent call = [requestParts prompt images])
  /\ (forall e, outcome call = Threw e ->
        e = newError failedToGetResponse
        /\ exists e0,
             sendMessageStream chat (requestParts prompt images) = Threw e0
             /\ isAbortError e0 = false).
Proof.
  intros call. unfold call, streamResponse.
  split.
  { unfold requestParts. destruct images as [[| i imgs] |]; reflexivity. }
  destruct (aborted signal 0); simpl.
  - split; [reflexivity |]. split; [discriminate |]. discriminate.
  - split; [discriminate |].
    destruct (sendMessageStream chat (requestParts prompt images))
      as [stream | e0]; simpl.
    + split; [reflexivity | discriminate].
    + split; [reflexivity |].
      destruct (isAbortError e0) eqn:A; [discriminate |].
      intros e [= <-]. split; [reflexivity |]. now exists e0.
Qed.

(** ** What a generation leaves alone *)

Lemma sameParameters_refl (a : AppState) : sameParameters a a.
Proof. unfold sameParameters. tauto. Qed.

Lemma sameParameters_trans (a b c : AppState) :
  sameParameters a b -> sameParameters b c -> sameParameters a c.
Proof.
  unfold sameParameters. intros (A1 & A2 & A3 & A4) (B1 & B2 & B3 & B4).
  repeat split; congruence.
Qed.

Lemma sameParameters_update (activeId : option string)
  (upd : ChatSession -> ChatSession) (st : AppState) :
  (forall c, parametersOf (upd c) = parametersOf c) ->
  sameParameters (updateActiveChat activeId upd st) st.
Proof.
  intros H. unfold sameParameters. repeat split; try reflexivity.
  simpl. rewrite map_map. apply map_ext. intros s.
  now destruct (sameId activeId (cs_id s)).
Qed.

Lemma sameParameters_loading (b : bool) (st : AppState) :
  sameParameters (setIsLoading b st) st.
Proof. unfold sameParameters. simpl. tauto. Qed.

Lemma sameParameters_consume (activeId : option string) (id : string)
  (chunks : list GenerateContentResponse) :
  forall l,
    sameParameters
      (loop_state (fold_left (consumeChunk activeId id) chunks l))
      (loop_state l).
Proof.
  induction chunks as [| chunk chunks IH]; intros l; simpl;
    [apply sameParameters_refl |].
  eapply sameParameters_trans; [apply IH |].
  unfold consumeChunk. destruct (truthyOpt (gcr_text chunk)); simpl;
    [now apply sameParameters_update | apply sameParameters_refl].
Qed.

Lemma sameParameters_catch (activeId : option string) (id : string)
  (e : Thrown) (st : AppState) :
  sameParameters (catchClause activeId id e st) st.
Proof.
  unfold catchClause. destruct (negb (isAbortError e));
    [now apply sameParameters_update | apply sameParameters_refl].
Qed.

Lemma sameParameters_tryBlock (activeId : option string) (id : string)
  (call : Completion Generator) (st : AppState) :
  sameParameters (tryBlock activeId id call st) st.
Proof.
  destruct call as [g | e]; simpl; [| apply sameParameters_catch].
  pose proof (sameParameters_consume activeId id (yields g)
                {| fullResponse := EmptyString; finalResponsePacket := None;
                   loop_state := st |}) as D.
  fold (drain activeId id g st) in D. simpl in D.
  destruct (failure g) as [e |].
  - eapply sameParameters_trans; [apply sameParameters_catch | exact D].
  - eapply sameParameters_trans; [| exact D].
    unfold attachSources.
    destruct (finalResponsePacket (drain activeId id g st)) as [packet |];
      [| apply sameParameters_refl].
    destruct (gcr_groundingChunks packet);
      [now apply sameParameters_update | apply sameParameters_refl].
Qed.

Lemma sameParameters_submitPrompt (svc : Service) (now : N)
  (signal : AbortSignal) (prompt : string) (images : option (list Image))
  (history : option (list ChatMessage)) (st : AppState) :
  sameParameters
    (run_state (submitPrompt svc now signal prompt images history st)) st.
Proof.
  unfold submitPrompt.
  destruct (activeChat st) as [chat0 |]; [| apply sameParameters_refl].
  destruct (isLoading st); [apply sameParameters_refl |].
  assert (P : sameParameters
                (withPlaceholder now (orDefault history (cs_messages chat0)) st)
                st).
  { unfold withPlaceholder.
    eapply sameParameters_trans; [now apply sameParameters_update |].
    apply sameParameters_loading. }
  destruct (openChat svc chat0 (orDefault history (cs_messages chat0)));
    simpl; [| exact P].
  eapply sameParameters_trans; [apply sameParameters_loading |].
  eapply sameParameters_trans; [apply sameParameters_tryBlock | exact P].
Qed.

(** X3. A generation never touches the generation parameters: after
    [submitPrompt], however it went, every session has the identifier,
    title, system prompt, sampling parameters, safety settings, search
    flag, pin flag and model it had, the sessions are as many and in the
    same order, and the folders, the selection and the input box are
    unchanged. *)
Theorem submitPrompt_keeps_parameters (svc : Service) (now : N)
  (signal : AbortSignal) (prompt : string) (images : option (list Image))
  (history : option (list ChatMessage)) (st : AppState) :
  let st' := run_state (submitPrompt svc now signal prompt images history st) in
  map parametersOf (chatSessions st') = map parametersOf (chatSessions st)
  /\ length (chatSessions st') = length (chatSessions st)
  /\ folders st' = folders st
  /\ activeChatId st' = activeChatId st
  /\ input st' = input st.
Proof.
  intros st'.
  destruct (sameParameters_submitPrompt svc now signal prompt images history
              st) as (P & F & A & I).
  fold st' in P, F, A, I.
  split; [exact P |]. split; [| now repeat split].
  rewrite <- (length_map parametersOf (chatSessions st')), P.
  apply length_map.
Qed.

(** ** Identifiers, keys and data URLs *)

Lemma toString_inj (a b : N) : toString a = toString b -> a = b.
Proof.
  unfold toString. intros H.
  assert (Hnil : forall n, N.to_uint n <> Decimal.Nil).
  { intros [| p]; [discriminate |].
    exact (DecimalPos.Unsigned.to_uint_nonnil p). }
  apply DecimalN.Unsigned.to_uint_inj.
  pose proof (NilZero.usu (N.to_uint a) (Hnil a)) as Ha.
  pose proof (NilZero.usu (N.to_uint b) (Hnil b)) as Hb.
  rewrite H in Ha. rewrite Ha in Hb. now injection Hb.
Qed.

Lemma openChat_configured (svc : Service) (chat0 : ChatSession)
  (history : list ChatMessage) :
  truthyOpt (API_KEY svc) = true ->
  exists chat, openChat svc chat0 history = Returned chat.
Proof.
  intros H. unfold openChat, initializeChat, getAiClient. rewrite H.
  eexists. reflexivity.
Qed.

Lemma openChat_unconfigured (svc : Service) (chat0 : ChatSession)
  (history : list ChatMessage) :
  truthyOpt (API_KEY svc) = false ->
  openChat svc chat0 history = Threw (newError keyNotConfigured).
Proof.
  intros H. unfold openChat, initializeChat, getAiClient. now rewrite H.
Qed.

(** X4. With no API key configured, [submitPrompt] sends nothing and its
    promise is rejected with the configuration error; the empty placeholder
    has already been appended and the loading flag is left set, so that
    every later call of [submitPrompt] returns at once without effect. *)
Theorem missing_key_blocks_chat (svc : Service) (now : N)
  (signal : AbortSignal) (prompt : string) (images : option (list Image))
  (history : option (list ChatMessage)) (st : AppState)
  (chat0 : ChatSession) :
  truthyOpt (API_KEY svc) = false ->
  activeChat st = Some chat0 ->
  isLoading st = false ->
  let r := submitPrompt svc now signal prompt images history st in
  run_rejected r = Some (newError keyNotConfigured)
  /\ run_requests r = []
  /\ isLoading (run_state r) = true
  /\ activeMessages (run_state r)
     = orDefault history (cs_messages chat0) ++ [placeholder now EmptyString []]
  /\ (forall svc' now' signal' prompt' images' history',
        submitPrompt svc' now' signal' prompt' images' history' (run_state r)
        = unchanged (run_state r)).
Proof.
  intros Hkey Hc Hl r.
  assert (R : r = {| run_state :=
                       withPlaceholder now
                         (orDefault history (cs_messages chat0)) st;
                     run_rejected := Some (newError keyNotConfigured);
                     run_requests := [] |}).
  { unfold r, submitPrompt. rewrite Hc, Hl.
    now rewrite (openChat_unconfigured svc chat0 _ Hkey). }
  rewrite R. simpl.
  destruct (withPlaceholder_spec now history st chat0 Hc) as (_ & _ & M).
  split; [reflexivity |]. split; [reflexivity |].
  split; [reflexivity |]. split; [exact M |].
  intros. unfold submitPrompt, unchanged.
  destruct (activeChat (withPlaceholder _ _ _)); reflexivity.
Qed.

Lemma missing_key_blocks_chat_witness :
  let svc := {| API_KEY := None;
                remote := fun _ _ => Threw (newError EmptyString) |} in
  let st := freshStore 1000 EmptyString in
  let r := submitPrompt svc 1001 neverAborted "Hi" None None st in
  truthyOpt (API_KEY svc) = false
  /\ isLoading (run_state r) = true
  /\ submitPrompt (answering (Threw (newError EmptyString))) 1002 neverAborted
       "Hi" None None (run_state r)
     = unchanged (run_state r).
Proof.
  intros svc st r.
  destruct (missing_key_blocks_chat svc 1001 neverAborted "Hi" None None st
              (newChat 1000) eq_refl eq_refl eq_refl)
    as (_ & _ & L & _ & B).
  split; [reflexivity |]. split; [exact L |]. apply B.
Defined.

Lemma split_free (sep : ascii) (s : string) :
  occurs sep s = false -> split sep s = [s].
Proof.
  induction s as [| c s IH]; simpl; [reflexivity |].
  intros H. apply orb_false_iff in H. destruct H as [Hc Hs].
  rewrite (IH Hs). now rewrite Hc.
Qed.

Lemma split_at (sep : ascii) (a b : string) :
  occurs sep a = false ->
  split sep (String.append a (String sep b)) = a :: split sep b.
Proof.
  induction a as [| c a IH]; simpl; intros H.
  - rewrite Ascii.eqb_refl. destruct (split sep b); reflexivity.
  - apply orb_false_iff in H. destruct H as [Hc Ha].
    rewrite (IH Ha). now rewrite Hc.
Qed.

Lemma occurs_append (c : ascii) (a b : string) :
  occurs c (String.append a b) = occurs c a || occurs c b.
Proof.
  induction a as [| x a IH]; simpl; [reflexivity |].
  now rewrite IH, orb_assoc.
Qed.

(** X5. The image that [handleEditMessage] and [handleRegenerate] read back
    from a stored data URL is the image [handleSend] built the URL from,
    provided the media type holds no comma, semicolon or colon and the
    payload holds no comma. *)
Theorem dataUrl_round_trip (image : Image) :
  occurs "," (img_type image) = false ->
  occurs ";" (img_type image) = false ->
  occurs ":" (img_type image) = false ->
  occurs "," (img_data image) = false ->
  dataOfUrl (dataUrl image) = Some (img_data image)
  /\ typeOfUrl (dataUrl image) = Some (img_type image)
  /\ imageOfUrl (dataUrl image) = image.
Proof.
  intros Hc Hs Hk Hd.
  assert (D : dataOfUrl (dataUrl image) = Some (img_data image)).
  { unfold dataOfUrl.
    change (dataUrl image)
      with (String.append "data:"
              (String.append (img_type image)
                 (String.append ";base64"
                    (String "," (img_data image))))).
    rewrite <- !append_assoc.
    rewrite split_at.
    - now rewrite (split_free _ _ Hd).
    - rewrite !occurs_append, Hc. reflexivity. }
  assert (T : typeOfUrl (dataUrl image) = Some (img_type image)).
  { unfold typeOfUrl.
    change (dataUrl image)
      with (String.append "data:"
              (String.append (img_type image)
                 (String ";" (String.append "base64," (img_data image))))).
    rewrite <- append_assoc.
    rewrite split_at by (rewrite occurs_append, Hs; reflexivity).
    cbn [nth_error].
    change (String.append "data:" (img_type image))
      with (String.append "data" (String ":" (img_type image))).
    rewrite split_at by reflexivity.
    now rewrite (split_free _ _ Hk). }
  split; [exact D |]. split; [exact T |].
  unfold imageOfUrl. rewrite D, T. now destruct image.
Qed.

Lemma dataUrl_round_trip_witness :
  let image := {| img_data := "iVBORw0KGgo="; img_type := "image/png" |} in
  dataUrl image = "data:image/png;base64,iVBORw0KGgo="
  /\ imageOfUrl (dataUrl image) = image.
Proof.
  intros image. split; [reflexivity |].
  exact (proj2 (proj2 (dataUrl_round_trip image eq_refl eq_refl eq_refl
                         eq_refl))).
Defined.

(** ** Sending, editing and regenerating *)

Lemma outcomeMessages_fresh (now : N) (history : list ChatMessage)
  (call : Completion Generator) :
  (forall m, In m history -> msg_id m <> toString (now + 1)) ->
  exists content sources,
    outcomeMessages now history call
    = history ++ [placeholder now content sources].
Proof.
  intros F. unfold outcomeMessages, written. cbv zeta.
  change (msg_id (modelMessage now)) with (toString (now + 1)).
  assert (W : forall full,
             (if truthy full then setContent (toString (now + 1)) full history
              else history) = history).
  { intros full. destruct (truthy full); [| reflexivity].
    now apply setContent_absent. }
  destruct (raised call) as [e |].
  - destruct (isAbortError e).
    + rewrite W. eauto.
    + rewrite (setContent_absent _ _ _ F). eauto.
  - destruct (lastOf (delivered call)) as [packet |].
    + destruct (gcr_groundingChunks packet).
      * rewrite W, (setSources_absent _ _ _ F). eauto.
      * rewrite W. eauto.
    + rewrite W. eauto.
Qed.

Lemma streamResponse_sent (chat : Chat) (prompt : string)
  (images : option (list Image)) (signal : AbortSignal) :
  signal 0%nat = false ->
  sent (streamResponse chat prompt images (Some signal))
  = [requestParts prompt images].
Proof.
  intros H. unfold streamResponse. simpl aborted. rewrite H.
  destruct (sendMessageStream chat _); reflexivity.
Qed.

(** A generation over a history that does not hold the identifier of its
    placeholder. *)
Lemma generation_appends (svc : Service) (now : N) (signal : AbortSignal)
  (prompt : string) (images : option (list Image))
  (history : list ChatMessage) (st : AppState) (chat0 : ChatSession) :
  truthyOpt (API_KEY svc) = true ->
  activeChat st = Some chat0 ->
  isLoading st = false ->
  (forall m, In m history -> msg_id m <> toString (now + 1)) ->
  let r := submitPrompt svc now signal prompt images (Some history) st in
  (exists content sources,
      activeMessages (run_state r)
      = history ++ [placeholder now content sources])
  /\ input (run_state r) = input st
  /\ isLoading (run_state r) = false
  /\ run_rejected r = None
  /\ (signal 0%nat = false -> run_requests r = [requestParts prompt images]).
Proof.
  intros Hkey Hc Hl F r.
  destruct (openChat_configured svc chat0
              (orDefault (Some history) (cs_messages chat0)) Hkey)
    as [chat Ho].
  pose proof (submitPrompt_messages svc now signal prompt images
                (Some history) st chat0 chat Hc Hl Ho) as M.
  pose proof (submitPrompt_frame svc now signal prompt images
                (Some history) st chat0 chat Hc Hl Ho)
    as (_ & _ & Fi & Fl & _).
  pose proof (submitPrompt_run svc now signal prompt images
                (Some history) st chat0 chat Hc Hl Ho) as R.
  fold r in M, Fi, Fl, R.
  split.
  { rewrite M. now apply outcomeMessages_fresh. }
  split; [exact Fi |]. split; [exact Fl |].
  rewrite R. cbn [run_rejected run_requests].
  split; [reflexivity |]. intros H0. now apply streamResponse_sent.
Qed.

Lemma handleSend_run (svc : Service) (now now' : N) (signal : AbortSignal)
  (image : option Image) (st : AppState) (chat0 : ChatSession) :
  activeChat st = Some chat0 ->
  truthy (trim (input st)) = true \/ image <> None ->
  handleSend svc now now' signal image st
  = submitPrompt svc now' signal (trim (input st))
      (option_map (fun i => [i]) image)
      (Some (cs_messages chat0 ++ [userMessage now (trim (input st)) image]))
      (updateActiveChat (activeChatId st)
         (fun chat =>
            withMessages
              (cs_messages chat0 ++ [userMessage now (trim (input st)) image])
              (withTitle (titleAfterSend chat0 (trim (input st))) chat))
         (setInput EmptyString st)).
Proof.
  intros Hc Hne. unfold handleSend, titleAfterSend. rewrite Hc.
  destruct image as [i |].
  - destruct (truthy (trim (input st))); reflexivity.
  - destruct Hne as [Ht | Hn]; [rewrite Ht; reflexivity | contradiction].
Qed.

Lemma activeChat_sent (now : N) (image : option Image) (st : AppState)
  (chat0 : ChatSession) (messages : list ChatMessage) (title : string) :
  activeChat st = Some chat0 ->
  activeChat
    (updateActiveChat (activeChatId st)
       (fun chat => withMessages messages (withTitle title chat))
       (setInput EmptyString st))
  = Some (withMessages messages (withTitle title chat0)).
Proof.
  intros Hc.
  rewrite activeChat_update; [| reflexivity | reflexivity].
  change (activeChat (setInput EmptyString st)) with (activeChat st).
  now rewrite Hc.
Qed.

(** X6. [handleSend] with a non-blank input or an image, on an idle store
    with a configured key: the active conversation becomes its former
    messages, then the user message carrying the trimmed input and the
    image's data URL, then the one model message of the reply; the input box
    is emptied, the loading flag is lowered again, and unless the signal was
    already aborted exactly one request went out, made of the image parts
    followed by the trimmed text. *)
Theorem handleSend_appends (svc : Service) (now now' : N)
  (signal : AbortSignal) (image : option Image) (st : AppState)
  (chat0 : ChatSession) :
  truthyOpt (API_KEY svc) = true ->
  activeChat st = Some chat0 ->
  isLoading st = false ->
  truthy (trim (input st)) = true \/ image <> None ->
  (now <= now')%N ->
  (forall m, In m (cs_messages chat0) -> msg_id m <> toString (now' + 1)) ->
  let r := handleSend svc now now' signal image st in
  (exists content sources,
      activeMessages (run_state r)
      = cs_messages chat0
        ++ [userMessage now (trim (input st)) image;
            placeholder now' content sources])
  /\ input (run_state r) = EmptyString
  /\ isLoading (run_state r) = false
  /\ (signal 0%nat = false ->
      run_requests r
      = [requestParts (trim (input st)) (option_map (fun i => [i]) image)]).
Proof.
  intros Hkey Hc Hl Hne Hle F r. unfold r.
  rewrite (handleSend_run svc now now' signal image st chat0 Hc Hne).
  match goal with
  | |- context [submitPrompt _ _ _ ?p ?i (Some ?h) ?s] =>
      destruct (generation_appends svc now' signal p i h s
                  (withMessages h
                     (withTitle (titleAfterSend chat0 (trim (input st)))
                        chat0))
                  Hkey (activeChat_sent now image st chat0 h _ Hc) Hl)
        as ((content & sources & M) & Fi & Fl & _ & Rq)
  end.
  - intros m Hm. apply in_app_or in Hm. destruct Hm as [Hm | [Hm | []]].
    + now apply F.
    + subst m. cbn [msg_id userMessage]. intros E.
      apply toString_inj in E. lia.
  - split.
    + exists content, sources. rewrite M. now rewrite <- app_assoc.
    + split; [exact Fi |]. split; [exact Fl | exact Rq].
Qed.

Lemma handleSend_appends_witness :
  let svc := answering (Returned {| api_chunks := [textPacket "Hello!"];
                                    api_failure := None |}) in
  let r := handleSend svc 1001 1002 neverAborted None (freshStore 1000 " Hi ")
  in
  exists content sources,
    activeMessages (run_state r)
    = [userMessage 1001 "Hi" None; placeholder 1002 content sources].
Proof.
  intros svc r.
  destruct (handleSend_appends svc 1001 1002 neverAborted None
              (freshStore 1000 " Hi ") (newChat 1000)
              eq_refl eq_refl eq_refl (or_introl eq_refl))
    as ((content & sources & M) & _).
  - lia.
  - intros m [].
  - exists content, sources. exact M.
Defined.

Lemma parametersOf_id (a b : ChatSession) :
  parametersOf a = parametersOf b -> cs_id a = cs_id b.
Proof. unfold parametersOf. congruence. Qed.

Lemma parametersOf_title (a b : ChatSession) :
  parametersOf a = parametersOf b -> cs_title a = cs_title b.
Proof. unfold parametersOf. congruence. Qed.

Lemma activeChat_parameters (a b : AppState) :
  sameParameters a b ->
  option_map parametersOf (activeChat a)
  = option_map parametersOf (activeChat b).
Proof.
  intros (S & _ & A & _). unfold activeChat. rewrite A.
  generalize (chatSessions b) S. clear S.
  induction (chatSessions a) as [| x xs IH]; intros [| y ys] S;
    try discriminate; [reflexivity |].
  assert (E : parametersOf x = parametersOf y)
    by exact (f_equal (hd (parametersOf x)) S).
  assert (S' : map parametersOf xs = map parametersOf ys)
    by exact (f_equal (@tl _) S).
  cbn [find]. rewrite (parametersOf_id x y E).
  destruct (sameId (activeChatId b) (cs_id y)).
  - cbn [option_map]. now rewrite E.
  - now apply IH.
Qed.

Lemma substring_all (n : nat) (s : string) :
  (String.length s <= n)%nat -> substring 0 n s = s.
Proof.
  revert s. induction n as [| n IH]; intros [| c s] H; simpl in *;
    try reflexivity; try lia.
  rewrite IH; [reflexivity | lia].
Qed.

Lemma substring_length (n : nat) (s : string) :
  (n <= String.length s)%nat -> String.length (substring 0 n s) = n.
Proof.
  revert s. induction n as [| n IH]; intros [| c s] H; simpl in *;
    try reflexivity; try lia.
  rewrite IH; [reflexivity | lia].
Qed.

Lemma append_length (a b : string) :
  String.length (String.append a b)
  = (String.length a + String.length b)%nat.
Proof. induction a as [| c a IH]; simpl; [reflexivity | now rewrite IH]. Qed.

(** X7. The title [handleSend] leaves on the active conversation: the first
    message of a conversation names it, by its trimmed text when that has at
    most 30 characters, and else by the first 30 characters followed by three
    dots, 33 characters in all; a later message, or a first message that is
    an image without text, leaves the title as it was. *)
Theorem handleSend_titles (svc : Service) (now now' : N)
  (signal : AbortSignal) (image : option Image) (st : AppState)
  (chat0 : ChatSession) :
  activeChat st = Some chat0 ->
  truthy (trim (input st)) = true \/ image <> None ->
  let t := trim (input st) in
  let r := handleSend svc now now' signal image st in
  exists chat,
    activeChat (run_state r) = Some chat
    /\ (cs_messages chat0 = [] -> truthy t = true ->
        (String.length t <= 30)%nat -> cs_title chat = t)
    /\ (cs_messages chat0 = [] -> (30 < String.length t)%nat ->
        cs_title chat = String.append (substring 0 30 t) "..."
        /\ String.length (cs_title chat) = 33%nat)
    /\ (cs_messages chat0 <> [] \/ truthy t = false ->
        cs_title chat = cs_title chat0).
Proof.
  intros Hc Hne t r. unfold r.
  rewrite (handleSend_run svc now now' signal image st chat0 Hc Hne).
  fold t.
  match goal with
  | |- context [submitPrompt ?v ?n ?g ?p ?i ?h ?s] =>
      pose proof (activeChat_parameters _ _
                    (sameParameters_submitPrompt v n g p i h s)) as P;
      destruct (activeChat (run_state (submitPrompt v n g p i h s)))
        as [chat |] eqn:A
  end.
  2:{ rewrite (activeChat_sent now image st chat0 _ _ Hc) in P.
      discriminate. }
  rewrite (activeChat_sent now image st chat0 _ _ Hc) in P.
  assert (T : cs_title chat = titleAfterSend chat0 t).
  { exact (parametersOf_title _ _
             (f_equal (fun o => orDefault o (parametersOf chat)) P)). }
  exists chat. split; [reflexivity |]. rewrite T. unfold titleAfterSend.
  split; [| split].
  - intros E Ht Hlen. rewrite E, Ht.
    rewrite (substring_all 30 t Hlen).
    apply Nat.ltb_ge in Hlen. rewrite Hlen. apply append_empty_r.
  - intros E Hlen. rewrite E.
    assert (Ht : truthy t = true).
    { destruct t; [simpl in Hlen; lia | reflexivity]. }
    rewrite Ht. pose proof Hlen as Hb. apply Nat.ltb_lt in Hb. rewrite Hb.
    split; [reflexivity |].
    rewrite append_length, substring_length by lia. reflexivity.
  - intros [Hm | Ht].
    + destruct (cs_messages chat0); [contradiction | reflexivity].
    + rewrite Ht. now destruct (cs_messages chat0).
Qed.

Lemma handleSend_titles_witness :
  let text := "Please summarise the attached quarterly report" in
  let r := handleSend (answering (Threw (newError EmptyString))) 1001 1002
             neverAborted None (freshStore 1000 text) in
  exists chat,
    activeChat (run_state r) = Some chat
    /\ cs_title chat = "Please summarise the attached ...".
Proof.
  intros text r.
  destruct (handleSend_titles (answering (Threw (newError EmptyString)))
              1001 1002 neverAborted None (freshStore 1000 text)
              (newChat 1000) eq_refl (or_introl eq_refl))
    as (chat & A & _ & L & _).
  exists chat. split; [exact A |].
  destruct (L eq_refl) as [E _]; [vm_compute; lia | exact E].
Defined.

Lemma trimStart_blank (s : string) :
  forallb isWhiteSpace (list_ascii_of_string s) = true ->
  trimStart s = EmptyString.
Proof.
  induction s as [| c s IH]; simpl; [reflexivity |].
  intros H. apply andb_true_iff in H. destruct H as [Hc Hs].
  rewrite Hc. now apply IH.
Qed.

(** X8. An input made of white space only, with no image attached, is not
    sent: [handleSend] leaves the store as it is, the input box included, and
    makes no request. *)
Theorem handleSend_ignores_blank (svc : Service) (now now' : N)
  (signal : AbortSignal) (st : AppState) :
  forallb isWhiteSpace (list_ascii_of_string (input st)) = true ->
  handleSend svc now now' signal None st = unchanged st.
Proof.
  intros H. unfold handleSend, trim.
  rewrite (trimStart_blank _ H). reflexivity.
Qed.

Lemma handleSend_ignores_blank_witness :
  let st := freshStore 1000 (String.append "  " nl) in
  handleSend (answering (Threw (newError EmptyString))) 1001 1002
    neverAborted None st
  = unchanged st.
Proof.
  intros st. apply (handleSend_ignores_blank _ 1001 1002 neverAborted st).
  reflexivity.
Defined.

Lemma findIndex_app {A : Type} (p : A -> bool) (before after : list A)
  (x : A) :
  (forall y, In y before -> p y = false) ->
  p x = true ->
  findIndex p (before ++ x :: after) = Some (length before).
Proof.
  intros Hb Hx. induction before as [| y before IH]; simpl.
  - now rewrite Hx.
  - rewrite (Hb y (or_introl eq_refl)), IH; [reflexivity |].
    intros z Hz. apply Hb. now right.
Qed.

Lemma findIndex_none {A : Type} (p : A -> bool) (l : list A) :
  (forall y, In y l -> p y = false) -> findIndex p l = None.
Proof.
  intros H. induction l as [| y l IH]; simpl; [reflexivity |].
  rewrite (H y (or_introl eq_refl)), IH; [reflexivity |].
  intros z Hz. apply H. now right.
Qed.

Lemma handleEditMessage_run (svc : Service) (now : N) (signal : AbortSignal)
  (messageId newContent : string) (st : AppState) (chat0 : ChatSession)
  (before after : list ChatMessage) (original : ChatMessage) :
  activeChat st = Some chat0 ->
  cs_messages chat0 = before ++ original :: after ->
  msg_id original = messageId ->
  (forall m, In m before -> msg_id m <> messageId) ->
  handleEditMessage svc now signal messageId newContent st
  = submitPrompt svc now signal newContent
      (imageInfo (withContent newContent original))
      (Some (before ++ [withContent newContent original]))
      (updateActiveChat (activeChatId st)
         (withMessages (before ++ [withContent newContent original])) st).
Proof.
  intros Hc Hm Hid Hb. unfold handleEditMessage. rewrite Hc, Hm.
  rewrite findIndex_app.
  - rewrite nth_error_app2, Nat.sub_diag by lia. cbn [nth_error].
    rewrite firstn_app, Nat.sub_diag, firstn_all. cbn [firstn].
    now rewrite app_nil_r.
  - intros y Hy. apply String.eqb_neq. now apply Hb.
  - now apply String.eqb_eq.
Qed.

(** X9. [handleEditMessage] on a message of the active conversation: the
    conversation is cut after the first message with that identifier, which
    takes the new content; everything that followed is dropped.  On an idle
    store with a configured key the reply is generated after it; while a
    generation is marked as running the cut is still made, but nothing is
    requested. *)
Theorem handleEditMessage_truncates (svc : Service) (now : N)
  (signal : AbortSignal) (messageId newContent : string) (st : AppState)
  (chat0 : ChatSession) (before after : list ChatMessage)
  (original : ChatMessage) :
  activeChat st = Some chat0 ->
  cs_messages chat0 = before ++ original :: after ->
  msg_id original = messageId ->
  (forall m, In m before -> msg_id m <> messageId) ->
  let edited := withContent newContent original in
  let r := handleEditMessage svc now signal messageId newContent st in
  (isLoading st = true ->
   activeMessages (run_state r) = before ++ [edited]
   /\ run_requests r = [])
  /\ (isLoading st = false ->
      truthyOpt (API_KEY svc) = true ->
      (forall m, In m (before ++ [edited]) -> msg_id m <> toString (now + 1)) ->
      exists content sources,
        activeMessages (run_state r)
        = before ++ [edited; placeholder now content sources]).
Proof.
  intros Hc Hm Hid Hb edited r. unfold r.
  rewrite (handleEditMessage_run svc now signal messageId newContent st chat0
             before after original Hc Hm Hid Hb).
  fold edited.
  assert (A : activeChat
                (updateActiveChat (activeChatId st)
                   (withMessages (before ++ [edited])) st)
              = Some (withMessages (before ++ [edited]) chat0)).
  { rewrite activeChat_update; [| reflexivity | reflexivity].
    now rewrite Hc. }
  split.
  - intros Hl. unfold submitPrompt. rewrite A.
    change (isLoading (updateActiveChat (activeChatId st)
                         (withMessages (before ++ [edited])) st))
      with (isLoading st).
    rewrite Hl. cbn [run_state run_requests]. unfold activeMessages.
    rewrite A. split; reflexivity.
  - intros Hl Hkey F.
    destruct (generation_appends svc now signal newContent
                (imageInfo edited) (before ++ [edited]) _ _ Hkey A Hl F)
      as ((content & sources & M) & _).
    exists content, sources. rewrite M. now rewrite <- app_assoc.
Qed.

Lemma handleEditMessage_truncates_witness :
  let svc := answering (Returned {| api_chunks := [textPacket "Four."];
                                    api_failure := None |}) in
  let question := userMessage 1001 "What is 2 + 2 ?" None in
  let st := updateActiveChat (Some "1000")
              (withMessages [question; placeholder 1002 "Five." [];
                             userMessage 1003 "Sure?" None;
                             placeholder 1004 "Yes." []])
              (freshStore 1000 EmptyString) in
  let r := handleEditMessage svc 1005 neverAborted "1001" "What is 3 + 1 ?" st
  in
  exists content sources,
    activeMessages (run_state r)
    = [withContent "What is 3 + 1 ?" question;
       placeholder 1005 content sources].
Proof.
  intros svc question st r.
  destruct (handleEditMessage_truncates svc 1005 neverAborted "1001"
              "What is 3 + 1 ?" st
              (withMessages [question; placeholder 1002 "Five." [];
                             userMessage 1003 "Sure?" None;
                             placeholder 1004 "Yes." []] (newChat 1000))
              [] [placeholder 1002 "Five." []; userMessage 1003 "Sure?" None;
                  placeholder 1004 "Yes." []]
              question eq_refl eq_refl eq_refl)
    as (_ & G).
  - intros m [].
  - apply G; [reflexivity | reflexivity |].
    intros m [Hm | []]. subst m. vm_compute. discriminate.
Defined.

Lemma lastOf_requestParts (prompt : string) (images : option (list Image)) :
  lastOf (requestParts prompt images) = Some (TextPart prompt).
Proof.
  unfold requestParts. destruct images as [[| i l] |]; try reflexivity.
  apply lastOf_snoc.
Qed.

(** X10. [handleRegenerate] on an idle store with a configured key, when the
    active conversation holds a user message: every model message of the
    conversation is removed, not only the last reply, the other messages
    keep their order, and the new reply is put at the end; the text sent is
    the content of the last user message. *)
Theorem handleRegenerate_drops_replies (svc : Service) (now : N)
  (signal : AbortSignal) (st : AppState) (chat0 : ChatSession)
  (lastUser : ChatMessage) :
  truthyOpt (API_KEY svc) = true ->
  activeChat st = Some chat0 ->
  isLoading st = false ->
  lastOf (filter (fun m => MessageRole_eqb (msg_role m) USER)
                 (cs_messages chat0)) = Some lastUser ->
  (forall m, In m (cs_messages chat0) -> msg_id m <> toString (now + 1)) ->
  let kept := filter (fun m => negb (MessageRole_eqb (msg_role m) MODEL))
                     (cs_messages chat0) in
  let r := handleRegenerate svc now signal st in
  (exists content sources,
      activeMessages (run_state r)
      = kept ++ [placeholder now content sources])
  /\ (forall m, In m kept <-> In m (cs_messages chat0) /\ msg_role m <> MODEL)
  /\ (signal 0%nat = false ->
      exists parts,
        run_requests r = [parts]
        /\ lastOf parts = Some (TextPart (msg_content lastUser))).
Proof.
  intros Hkey Hc Hl Hu F kept r.
  assert (R : r = submitPrompt svc now signal (msg_content lastUser)
                    (imageInfo lastUser) (Some kept)
                    (updateActiveChat (activeChatId st) (withMessages kept)
                       st)).
  { unfold r, handleRegenerate. rewrite Hc, Hl.
    fold kept. rewrite Hu.
    destruct (cs_messages chat0) eqn:E; [discriminate Hu | reflexivity]. }
  assert (A : activeChat
                (updateActiveChat (activeChatId st) (withMessages kept) st)
              = Some (withMessages kept chat0)).
  { rewrite activeChat_update; [| reflexivity | reflexivity].
    now rewrite Hc. }
  assert (K : forall m, In m kept
                        <-> In m (cs_messages chat0) /\ msg_role m <> MODEL).
  { intros m. unfold kept. rewrite filter_In. split; intros [Hi Hr].
    - split; [exact Hi |]. intros E. rewrite E in Hr. discriminate.
    - split; [exact Hi |]. now rewrite MessageRole_eqb_neq. }
  destruct (generation_appends svc now signal (msg_content lastUser)
              (imageInfo lastUser) kept _ _ Hkey A Hl)
    as (M & _ & _ & _ & Rq).
  { intros m Hm. apply F. now apply K. }
  rewrite R. split; [exact M |]. split; [exact K |].
  intros H0. eexists. split; [now apply Rq |]. apply lastOf_requestParts.
Qed.

Lemma handleRegenerate_drops_replies_witness :
  let svc := answering (Returned {| api_chunks := [textPacket "Yes, four."];
                                    api_failure := None |}) in
  let first := userMessage 1001 "What is 2 + 2 ?" None in
  let second := userMessage 1003 "Sure?" None in
  let st := updateActiveChat (Some "1000")
              (withMessages [first; placeholder 1002 "Four." []; second;
                             placeholder 1004 "Yes." []])
              (freshStore 1000 EmptyString) in
  let r := handleRegenerate svc 1005 neverAborted st in
  (exists content sources,
      activeMessages (run_state r)
      = [first; second; placeholder 1005 content sources])
  /\ run_requests r = [[TextPart "Sure?"]].
Proof.
  intros svc first second st r.
  destruct (handleRegenerate_drops_replies svc 1005 neverAborted st
              (withMessages [first; placeholder 1002 "Four." []; second;
                             placeholder 1004 "Yes." []] (newChat 1000))
              second eq_refl eq_refl eq_refl eq_refl)
    as (M & _ & _).
  - intros m Hm. cbn [cs_messages withMessages] in Hm.
    destruct Hm as [Hm | [Hm | [Hm | [Hm | []]]]]; subst m; vm_compute;
      discriminate.
  - split; [exact M | reflexivity].
Defined.

(** ** Loading, saving and the sidebar handlers *)

Lemma withDefaults_id (s : ChatSession) : cs_id (withDefaults s) = cs_id s.
Proof. reflexivity. Qed.

Lemma withDefaults_idempotent (s : ChatSession) :
  withDefaults (withDefaults s) = withDefaults s.
Proof.
  unfold withDefaults. cbn [cs_id cs_title cs_messages cs_systemPrompt
    cs_temperature cs_topK cs_topP cs_safetySettings cs_maxOutputTokens
    cs_stopSequences cs_useGoogleSearch cs_pinned cs_model orDefault].
  f_equal. destruct (truthy (cs_model s)) eqn:E; [now rewrite E | reflexivity].
Qed.

Lemma existsb_withDefaults (a : string) (sessions : list ChatSession) :
  In a (map cs_id sessions) ->
  existsb (fun s => sameId (Some a) (cs_id s)) (map withDefaults sessions)
  = true.
Proof.
  intros H. apply in_map_iff in H. destruct H as (s & E & Hs).
  apply existsb_exists. exists (withDefaults s). split.
  - now apply in_map.
  - rewrite withDefaults_id, E. apply String.eqb_refl.
Qed.

(** X11. What the mount effect makes of local storage.  When the items of
    the dark mode and of the folders can be read, stored sessions are loaded
    with their defaults filled in; the stored selection is kept when it
    names one of them, and else the first stored session is selected.  When
    the sessions are missing, unreadable or an empty list, or the folders or
    the dark mode are unreadable, the component starts with one fresh
    conversation, which is selected.  Unreadable sessions still leave the
    stored folders loaded; an unreadable dark mode leaves nothing loaded. *)
Theorem mount_restores_or_starts_fresh (now : N) (ls : LocalStorage) :
  let st := mount now ls initialState in
  (forall first rest,
      item_chatSessions ls = Parsed (first :: rest) ->
      item_chatFolders ls <> Malformed ->
      item_isDarkMode ls <> Malformed ->
      chatSessions st = map withDefaults (first :: rest)
      /\ (forall a, item_activeChatId ls = Some a -> truthy a = true ->
                    In a (map cs_id (first :: rest)) ->
                    activeChatId st = Some a)
      /\ ((forall a, item_activeChatId ls = Some a ->
                     ~ In a (map cs_id (first :: rest))) ->
          activeChatId st = Some (cs_id first)))
  /\ (item_chatSessions ls = Missing \/ item_chatSessions ls = Malformed
      \/ item_chatSessions ls = Parsed [] \/ item_chatFolders ls = Malformed
      \/ item_isDarkMode ls = Malformed ->
      chatSessions st = [newChat now]
      /\ activeChatId st = Some (toString now))
  /\ (forall fs, item_chatFolders ls = Parsed fs ->
                 item_isDarkMode ls <> Malformed -> folders st = fs)
  /\ (item_isDarkMode ls = Malformed -> folders st = []).
Proof.
  intros st. unfold st, mount, loadFromStorage.
  destruct ls as [ss fs active dark].
  cbn [item_chatSessions item_chatFolders item_activeChatId item_isDarkMode].
  split; [| split; [| split]].
  - intros first rest Es Ef Ed. subst ss.
    assert (G : forall st1,
      let st2 := setChatSessions (fun _ => map withDefaults (first :: rest))
                                 st1 in
      let st' :=
        if truthyOpt active
           && existsb (fun s => sameId active (cs_id s))
                      (map withDefaults (first :: rest))
        then setActiveChatId active st2
        else setActiveChatId (Some (cs_id first)) st2 in
      chatSessions st' = map withDefaults (first :: rest)
      /\ (forall a, active = Some a -> truthy a = true ->
                    In a (map cs_id (first :: rest)) ->
                    activeChatId st' = Some a)
      /\ ((forall a, active = Some a -> ~ In a (map cs_id (first :: rest))) ->
          activeChatId st' = Some (cs_id first))).
    { intros st1 st2 st'. split; [| split].
      - unfold st'. destruct (_ && _); reflexivity.
      - intros a Ea Ht Hin. subst active. unfold st'.
        cbn [truthyOpt]. rewrite Ht, (existsb_withDefaults a _ Hin).
        reflexivity.
      - intros Hno. unfold st'.
        destruct active as [a |]; [| reflexivity].
        destruct (existsb _ _) eqn:E.
        + apply existsb_exists in E. destruct E as (s & Hs & E).
          apply in_map_iff in Hs. destruct Hs as (s0 & Es & Hs).
          subst s. rewrite withDefaults_id in E. apply String.eqb_eq in E.
          exfalso. apply (Hno a eq_refl). rewrite E. now apply in_map.
        + now rewrite andb_false_r. }
    destruct dark as [| | dark]; [| contradiction |];
      (destruct fs as [| | fs]; [apply G | contradiction | apply G]).
  - intros H.
    destruct dark as [| | dark]; try (split; reflexivity);
      (destruct fs as [| | fs]; try (split; reflexivity);
       destruct H as [H | [H | [H | [H | H]]]]; subst; try discriminate;
       try (split; reflexivity);
       cbn [map]; rewrite andb_false_r; split; reflexivity).
  - intros fs0 E Ed. subst fs.
    destruct dark as [| | dark]; [| contradiction |];
      (destruct ss as [| | [| first rest]]; try reflexivity;
       [cbn [map]; rewrite andb_false_r; reflexivity
       | destruct (_ && _); reflexivity]).
  - intros ->. reflexivity.
Qed.

(** X12. Saving and reloading: a store with a selected, stored conversation
    comes back from local storage with the same conversations, in order,
    their defaults filled in, the same folders and the same selection; saved
    and reloaded once more, the loaded store comes back as it is. *)
Theorem persist_then_mount (now now' : N) (dark dark' : bool)
  (st : AppState) (ls ls' : LocalStorage) (a : string) :
  activeChatId st = Some a ->
  truthy a = true ->
  In a (map cs_id (chatSessions st)) ->
  let st' := mount now (persist dark st ls) initialState in
  chatSessions st' = map withDefaults (chatSessions st)
  /\ folders st' = folders st
  /\ activeChatId st' = Some a
  /\ mount now' (persist dark' st' ls') initialState = st'.
Proof.
  intros Ea Ht Hin st'.
  assert (L : forall sessions fs,
             In a (map cs_id sessions) ->
             mount now
               (persist dark
                        {| chatSessions := sessions; folders := fs;
                           activeChatId := Some a; input := input st;
                           isLoading := isLoading st |} ls) initialState
             = {| chatSessions := map withDefaults sessions; folders := fs;
                  activeChatId := Some a; input := EmptyString;
                  isLoading := false |}).
  { intros sessions fs H. unfold mount, persist, loadFromStorage.
    cbn [item_chatSessions item_chatFolders item_activeChatId
         item_isDarkMode chatSessions folders activeChatId truthyOpt].
    rewrite Ht. cbn [truthyOpt]. rewrite Ht.
    destruct sessions as [| s sessions]; [destruct H |].
    destruct fs as [| f fs];
      rewrite (existsb_withDefaults a (s :: sessions) H); reflexivity. }
  assert (S : st' = {| chatSessions := map withDefaults (chatSessions st);
                       folders := folders st; activeChatId := Some a;
                       input := EmptyString; isLoading := false |}).
  { unfold st'. rewrite <- (L (chatSessions st) (folders st) Hin).
    destruct st as [ss fs act i l]. cbn in Ea. now subst act. }
  rewrite S. cbn [chatSessions folders activeChatId].
  split; [reflexivity |]. split; [reflexivity |]. split; [reflexivity |].
  unfold mount, persist, loadFromStorage.
  cbn [item_chatSessions item_chatFolders item_activeChatId item_isDarkMode
       chatSessions folders activeChatId truthyOpt].
  rewrite Ht. cbn [truthyOpt]. rewrite Ht.
  assert (H2 : In a (map cs_id (map withDefaults (chatSessions st)))).
  { rewrite map_map. exact Hin. }
  assert (I : map withDefaults (map withDefaults (chatSessions st))
              = map withDefaults (chatSessions st)).
  { rewrite map_map. apply map_ext. apply withDefaults_idempotent. }
  destruct (map withDefaults (chatSessions st)) as [| s sessions] eqn:E;
    [destruct H2 |].
  rewrite <- E in *. 
  destruct (folders st) as [| f fs];
    rewrite (existsb_withDefaults a _ H2), I, E; reflexivity.
Qed.

Lemma persist_then_mount_witness :
  let st := freshStore 1000 "draft" in
  let st' := mount 2000 (persist true st
                           {| item_chatSessions := Malformed;
                              item_chatFolders := Malformed;
                              item_activeChatId := None;
                              item_isDarkMode := Malformed |})
               initialState in
  chatSessions st' = map withDefaults (chatSessions st)
  /\ activeChatId st' = Some "1000".
Proof.
  intros st.
  destruct (persist_then_mount 2000 3000 true false st
              {| item_chatSessions := Malformed;
                 item_chatFolders := Malformed;
                 item_activeChatId := None;
                 item_isDarkMode := Malformed |}
              {| item_chatSessions := Missing; item_chatFolders := Missing;
                 item_activeChatId := None; item_isDarkMode := Missing |}
              "1000" eq_refl eq_refl (or_introl eq_refl))
    as (S & _ & A & _).
  split; [exact S | exact A].
Defined.

(** X13. A confirmed [handleDeleteChat] removes the conversation and every
    trace of it: the other conversations are kept in their order, no folder
    lists the deleted identifier any longer, folders are neither added nor
    removed, and a selection of another conversation is kept; at most a fresh
    conversation is put in front when nothing is left.  Declining the
    confirmation changes nothing. *)
Theorem handleDeleteChat_removes (chatId : string) (now : N)
  (st : AppState) :
  let st' := handleDeleteChat chatId true now st in
  (chatSessions st' = remainingChats chatId st
   \/ remainingChats chatId st = []
      /\ activeChatId st = Some chatId
      /\ chatSessions st' = [newChat now])
  /\ (forall s, In s (remainingChats chatId st)
                <-> In s (chatSessions st) /\ cs_id s <> chatId)
  /\ (forall f, In f (folders st') -> inFolder chatId f = false)
  /\ map f_id (folders st') = map f_id (folders st)
  /\ (activeChatId st <> Some chatId -> activeChatId st' = activeChatId st)
  /\ handleDeleteChat chatId false now st = st.
Proof.
  intros st'.
  assert (Fo : folders st'
               = map (fun f => withChatIds (withoutId chatId (f_chatIds f)) f)
                     (folders st)).
  { unfold st', handleDeleteChat.
    destruct (sameId (activeChatId st) chatId); [| reflexivity].
    destruct (filter _ (chatSessions st)); reflexivity. }
  split; [| split; [| split; [| split; [| split]]]].
  - unfold st', handleDeleteChat, remainingChats.
    destruct (sameId (activeChatId st) chatId) eqn:E; [| now left].
    destruct (filter _ (chatSessions st)) eqn:R; [| now left].
    right. split; [reflexivity |]. split; [| reflexivity].
    destruct (activeChatId st) as [a |]; [| discriminate].
    cbn [sameId] in E. apply String.eqb_eq in E. now subst a.
  - intros s. unfold remainingChats. rewrite filter_In.
    split; intros [Hi Hn]; (split; [exact Hi |]).
    + intros E. rewrite E, String.eqb_refl in Hn. discriminate.
    + apply String.eqb_neq in Hn. now rewrite Hn.
  - intros f Hf. rewrite Fo in Hf. apply in_map_iff in Hf.
    destruct Hf as (g & E & _). subst f. apply inFolder_without_same.
  - rewrite Fo, map_map. reflexivity.
  - intros Hn. unfold st', handleDeleteChat.
    destruct (sameId (activeChatId st) chatId) eqn:E; [| reflexivity].
    destruct (activeChatId st) as [a |]; [| discriminate].
    cbn [sameId] in E. apply String.eqb_eq in E. now subst a.
  - reflexivity.
Qed.

Lemma filter_one {A : Type} (p : A -> bool) (l : list A) (x : A) :
  In x l -> p x = true -> (1 <= length (filter p l))%nat.
Proof.
  intros Hi Hp. induction l as [| y l IH]; [destruct Hi |].
  simpl. destruct Hi as [E | Hi].
  - subst y. rewrite Hp. simpl. lia.
  - specialize (IH Hi). destruct (p y); simpl; lia.
Qed.

Lemma filter_two {A : Type} (p : A -> bool) (l : list A) (x y : A) :
  In x l -> In y l -> x <> y -> p x = true -> p y = true ->
  (2 <= length (filter p l))%nat.
Proof.
  intros Hx Hy Hn Px Py. induction l as [| z l IH]; [destruct Hx |].
  simpl. destruct Hx as [Ex | Hx], Hy as [Ey | Hy].
  - congruence.
  - subst z. rewrite Px. simpl.
    pose proof (filter_one p l y Hy Py). lia.
  - subst z. rewrite Py. simpl.
    pose proof (filter_one p l x Hx Px). lia.
  - specialize (IH Hx Hy). destruct (p z); simpl; lia.
Qed.

(** X14. [handleDeleteFolder] deletes the folder only: the conversations and
    the selection stay as they are, the other folders are kept, and a
    conversation that was in the deleted folder is afterwards in no folder at
    all. *)
Theorem handleDeleteFolder_keeps_chats (folderId : string) (st : AppState) :
  foldersOk (folders st) ->
  let st' := handleDeleteFolder folderId st in
  chatSessions st' = chatSessions st
  /\ activeChatId st' = activeChatId st
  /\ (forall f, In f (folders st')
                <-> In f (folders st) /\ f_id f <> folderId)
  /\ (forall chatId f, In f (folders st) -> f_id f = folderId ->
                       inFolder chatId f = true ->
                       foldersHolding chatId (folders st') = 0%nat).
Proof.
  intros [_ Hone] st'.
  assert (M : forall f, In f (folders st')
                        <-> In f (folders st) /\ f_id f <> folderId).
  { intros f. unfold st', handleDeleteFolder. cbn [folders setFolders].
    rewrite filter_In. split; intros [Hi Hn]; (split; [exact Hi |]).
    - intros E. rewrite E, String.eqb_refl in Hn. discriminate.
    - apply String.eqb_neq in Hn. now rewrite Hn. }
  split; [reflexivity |]. split; [reflexivity |]. split; [exact M |].
  intros chatId f Hf Hid Hin. unfold foldersHolding.
  destruct (filter (inFolder chatId) (folders st')) as [| g rest] eqn:E;
    [reflexivity |].
  exfalso.
  assert (Hg : In g (filter (inFolder chatId) (folders st')))
    by (rewrite E; now left).
  apply filter_In in Hg. destruct Hg as [Hg Pg].
  apply M in Hg. destruct Hg as [Hg Hn].
  assert (D : f <> g) by (intros D; subst g; contradiction).
  pose proof (filter_two (inFolder chatId) (folders st) f g Hf Hg D Hin Pg)
    as T.
  specialize (Hone chatId). unfold foldersHolding in Hone. lia.
Qed.

Lemma handleDeleteFolder_keeps_chats_witness :
  let work := {| f_id := "7"; f_name := "Work"; f_chatIds := ["1000"];
                 f_isOpen := true |} in
  let st := setFolders (fun _ => [work]) (freshStore 1000 EmptyString) in
  foldersHolding "1000" (folders st) = 1%nat
  /\ foldersHolding "1000" (folders (handleDeleteFolder "7" st)) = 0%nat
  /\ chatSessions (handleDeleteFolder "7" st) = chatSessions st.
Proof.
  intros work st.
  assert (Ok : foldersOk (folders st)).
  { split.
    - repeat constructor. intros [].
    - intros chatId. unfold foldersHolding. cbn [folders setFolders st filter].
      destruct (inFolder chatId work); simpl; lia. }
  destruct (handleDeleteFolder_keeps_chats "7" st Ok) as (S & _ & _ & H).
  split; [reflexivity |]. split; [| exact S].
  apply (H "1000" work); [now left | reflexivity | reflexivity].
Defined.

(** X15. Toggling twice undoes itself: [handleToggleFolder] applied twice
    to the same folder gives back the store, and so does
    [handleTogglePinChat] applied twice to the same conversation, once every
    session carries a pinned flag, as created and loaded sessions do. *)
Theorem toggles_undo_themselves (id : string) (st : AppState) :
  (forall c, In c (chatSessions st) -> cs_pinned c <> None) ->
  handleToggleFolder id (handleToggleFolder id st) = st
  /\ handleTogglePinChat id (handleTogglePinChat id st) = st.
Proof.
  intros Hp. destruct st as [ss fs act i l]. cbn [chatSessions] in Hp.
  unfold handleToggleFolder, handleTogglePinChat, setFolders, setChatSessions.
  cbn [chatSessions folders activeChatId input isLoading].
  split; f_equal.
  - rewrite map_map. rewrite <- (map_id fs) at 2. apply map_ext.
    intros f. destruct (f_id f =? id) eqn:E.
    + cbn [f_id withIsOpen]. rewrite E. destruct f as [fi fn fc fo].
      unfold withIsOpen. cbn. now rewrite negb_involutive.
    + now rewrite E.
  - rewrite map_map. rewrite <- (map_id ss) at 2. apply map_ext_in.
    intros c Hc. specialize (Hp c Hc). destruct (cs_id c =? id) eqn:E.
    + cbn [cs_id withPinned]. rewrite E. destruct c. cbn in Hp |- *.
      unfold withPinned. cbn.
      destruct cs_pinned0 as [b |]; [| contradiction].
      cbn. now rewrite negb_involutive.
    + now rewrite E.
Qed.

Lemma toggles_undo_themselves_witness :
  let st := freshStore 1000 EmptyString in
  handleTogglePinChat "1000" st <> st
  /\ handleTogglePinChat "1000" (handleTogglePinChat "1000" st) = st.
Proof.
  intros st. split; [discriminate |].
  apply (toggles_undo_themselves "1000" st).
  intros c [E | []]. subst c. discriminate.
Defined.

Lemma openChat_spec (svc : Service) (chat0 : ChatSession)
  (history : list ChatMessage) :
  truthyOpt (API_KEY svc) = true ->
  exists chat,
    openChat svc chat0 history = Returned chat
    /\ sendMessageStream chat = remote svc (chat_config chat)
    /\ cfg_history (chat_config chat)
       = map (fun m => {| content_role := msg_role m;
                          content_parts := [TextPart (msg_content m)] |})
             history.
Proof.
  intros H. unfold openChat, initializeChat, getAiClient. rewrite H.
  eexists. split; [reflexivity |]. split; reflexivity.
Qed.

(** X16. What [handleSend] gives the service on an idle store with a
    configured key: the chat is created over the whole conversation as text
    turns, the new user message included, so the history the service is
    created with already ends with the user's text, and the same text is
    then sent as the message, after the image if there is one.  Images of
    the conversation are not part of that history. *)
Theorem handleSend_history_holds_prompt (svc : Service) (now now' : N)
  (signal : AbortSignal) (image : option Image) (st : AppState)
  (chat0 : ChatSession) :
  truthyOpt (API_KEY svc) = true ->
  activeChat st = Some chat0 ->
  isLoading st = false ->
  truthy (trim (input st)) = true \/ image <> None ->
  let t := trim (input st) in
  let images := option_map (fun i => [i]) image in
  let r := handleSend svc now now' signal image st in
  exists chat,
    sendMessageStream chat = remote svc (chat_config chat)
    /\ cfg_history (chat_config chat)
       = map (fun m => {| content_role := msg_role m;
                          content_parts := [TextPart (msg_content m)] |})
             (cs_messages chat0)
         ++ [{| content_role := USER; content_parts := [TextPart t] |}]
    /\ lastOf (requestParts t images) = Some (TextPart t)
    /\ run_requests r = sent (streamResponse chat t images (Some signal))
    /\ activeMessages (run_state r)
       = outcomeMessages now' (cs_messages chat0 ++ [userMessage now t image])
           (outcome (streamResponse chat t images (Some signal))).
Proof.
  intros Hkey Hc Hl Hne t images r. unfold r.
  rewrite (handleSend_run svc now now' signal image st chat0 Hc Hne).
  fold t images.
  set (h := cs_messages chat0 ++ [userMessage now t image]).
  set (c2 := withMessages h (withTitle (titleAfterSend chat0 t) chat0)).
  destruct (openChat_spec svc c2 h Hkey) as (chat & Ho & Hs & Hh).
  pose proof (activeChat_sent now image st chat0 h (titleAfterSend chat0 t)
                Hc) as A.
  fold c2 in A.
  exists chat. split; [exact Hs |]. split.
  { rewrite Hh. unfold h. now rewrite map_app. }
  split; [apply lastOf_requestParts |].
  split.
  - rewrite (submitPrompt_run svc now' signal t images (Some h) _ c2 chat
               A Hl Ho).
    reflexivity.
  - exact (submitPrompt_messages svc now' signal t images (Some h) _ c2 chat
             A Hl Ho).
Qed.

Lemma handleSend_history_holds_prompt_witness :
  let svc := answering (Returned {| api_chunks := [textPacket "Hello!"];
                                    api_failure := None |}) in
  let r := handleSend svc 1001 1002 neverAborted None (freshStore 1000 " Hi ")
  in
  exists chat,
    cfg_history (chat_config chat)
    = [{| content_role := USER; content_parts := [TextPart "Hi"] |}]
    /\ run_requests r = sent (streamResponse chat "Hi" None (Some neverAborted)).
Proof.
  intros svc r.
  destruct (handleSend_history_holds_prompt svc 1001 1002 neverAborted None
              (freshStore 1000 " Hi ") (newChat 1000)
              eq_refl eq_refl eq_refl (or_introl eq_refl))
    as (chat & _ & H & _ & R & _).
  exists chat. split; [exact H | exact R].
Defined.

(** ** One-shot generation *)

Lemma find_first {A : Type} (p : A -> bool) (l : list A) (x : A) :
  find p l = Some x <->
  exists before after,
    l = before ++ x :: after
    /\ (forall y, In y before -> p y = false)
    /\ p x = true.
Proof.
  split.
  - induction l as [| y l IH]; simpl; [discriminate |].
    destruct (p y) eqn:E.
    + intros H. injection H as H. subst y.
      exists [], l. split; [reflexivity |]. split; [intros ? [] | exact E].
    + intros H. destruct (IH H) as (before & after & El & Hb & Hx).
      exists (y :: before), after. subst l. split; [reflexivity |].
      split; [| exact Hx]. intros z [Hz | Hz]; [now subst z | now apply Hb].
  - intros (before & after & El & Hb & Hx). subst l.
    induction before as [| y before IH]; simpl.
    + now rewrite Hx.
    + rewrite (Hb y (or_introl eq_refl)). apply IH.
      intros z Hz. apply Hb. now right.
Qed.

(** X17. [editImage] asks the image model once, the image before the
    instruction, and returns the payload of the first part of the first
    candidate that carries inline data, wherever it stands among the parts.
    Every other outcome, a failure of the service as much as an answer
    without an image, reaches the caller as one and the same error, so the
    service's own message is never passed on; without a key the model is not
    asked at all. *)
Theorem editImage_result (svc : Service) (models : Models) (prompt : string)
  (image : Image) :
  let request :=
    {| gc_model := "gemini-2.5-flash-image";
       gc_contents := [InlineDataPart (img_data image) (img_type image);
                       TextPart prompt];
       gc_responseModalities := [IMAGE];
       gc_voiceName := None |} in
  (truthyOpt (API_KEY svc) = false ->
   forall models', editImage svc models' prompt image
                   = Threw (newError keyNotConfigured))
  /\ (truthyOpt (API_KEY svc) = true ->
      (forall data,
          editImage svc models prompt image = Returned data <->
          exists response before part after inlineData,
            generateContent models request = Returned response
            /\ firstCandidateParts response = Some (before ++ part :: after)
            /\ (forall q, In q before -> rp_inlineData q = None)
            /\ rp_inlineData part = Some inlineData
            /\ blob_data inlineData = data)
      /\ (forall e, editImage svc models prompt image = Threw e ->
                    e = newError failedToEditImage)).
Proof.
  intros request. split.
  - intros Hkey models'. unfold editImage, getAiClient. now rewrite Hkey.
  - intros Hkey. unfold editImage, getAiClient. rewrite Hkey.
    unfold fileToGenerativePart. fold request.
    destruct (generateContent models request) as [response | e0].
    2:{ split.
        - intros data. split; [discriminate |].
          intros (response & ? & ? & ? & ? & H & _). discriminate.
        - intros e H. now injection H as <-. }
    destruct (firstCandidateParts response) as [parts |] eqn:Ef.
    2:{ split.
        - intros data. split; [discriminate |].
          intros (r & ? & ? & ? & ? & H & H' & _).
          injection H as <-. congruence.
        - intros e H. now injection H as <-. }
    destruct (find (fun part => isSome (rp_inlineData part)) parts)
      as [part |] eqn:F.
    + apply find_first in F. destruct F as (before & after & El & Hb & Hx).
      destruct (rp_inlineData part) as [inlineData |] eqn:Ei;
        [| discriminate].
      split; [| discriminate].
      intros data. split.
      * intros H. injection H as H.
        exists response, before, part, after, inlineData.
        split; [reflexivity |]. split; [now rewrite Ef, El |].
        split; [| split; [exact Ei | exact H]].
        intros q Hq. specialize (Hb q Hq).
        now destruct (rp_inlineData q).
      * intros (r & before' & part' & after' & blob' & Hr & Hp & Hb' & Ei'
                & Hd).
        injection Hr as <-. rewrite Ef in Hp. injection Hp as Hp.
        assert (F' : find (fun part => isSome (rp_inlineData part)) parts
                     = Some part').
        { apply find_first. exists before', after'.
          split; [exact Hp |]. split; [| now rewrite Ei'].
          intros q Hq. now rewrite (Hb' q Hq). }
        assert (F : find (fun part => isSome (rp_inlineData part)) parts
                    = Some part).
        { apply find_first. exists before, after.
          split; [exact El |]. split; [exact Hb | now rewrite Ei]. }
        rewrite F in F'. injection F' as <-.
        rewrite Ei in Ei'. injection Ei' as <-. now rewrite Hd.
    + split.
      * intros data. split; [discriminate |].
        intros (r & before' & part' & after' & blob' & Hr & Hp & Hb' & Ei'
                & _).
        injection Hr as <-. rewrite Ef in Hp. injection Hp as Hp.
        assert (F' : find (fun part => isSome (rp_inlineData part)) parts
                     = Some part').
        { apply find_first. exists before', after'.
          split; [exact Hp |]. split; [| now rewrite Ei'].
          intros q Hq. now rewrite (Hb' q Hq). }
        rewrite F in F'. discriminate.
      * intros e H. now injection H as <-.
Qed.

(** X18. [generateSpeech] asks the speech model once and returns the payload
    of the first part of the first candidate, and only of that part: audio
    carried by a later part is not found.  Every other outcome reaches the
    caller as one and the same error; without a key the model is not asked
    at all. *)
Theorem generateSpeech_result (svc : Service) (models : Models)
  (text voice : string) :
  let request :=
    {| gc_model := "gemini-2.5-flash-preview-tts";
       gc_contents := [TextPart text];
       gc_responseModalities := [AUDIO];
       gc_voiceName := Some voice |} in
  (truthyOpt (API_KEY svc) = false ->
   forall models', generateSpeech svc models' text voice
                   = Threw (newError keyNotConfigured))
  /\ (truthyOpt (API_KEY svc) = true ->
      (forall data,
          generateSpeech svc models text voice = Returned data <->
          exists response part rest inlineData,
            generateContent models request = Returned response
            /\ firstCandidateParts response = Some (part :: rest)
            /\ rp_inlineData part = Some inlineData
            /\ blob_data inlineData = data)
      /\ (forall e, generateSpeech svc models text voice = Threw e ->
                    e = newError failedToGenerateSpeech)).
Proof.
  intros request. split.
  - intros Hkey models'. unfold generateSpeech, getAiClient. now rewrite Hkey.
  - intros Hkey. unfold generateSpeech, getAiClient. rewrite Hkey.
    fold request.
    destruct (generateContent models request) as [response | e0].
    2:{ split.
        - intros data. split; [discriminate |].
          intros (response & ? & ? & ? & H & _). discriminate.
        - intros e H. now injection H as <-. }
    destruct (firstCandidateParts response) as [[| part rest] |] eqn:Ef;
      cbn [nth_error].
    + split.
      * intros data. split; [discriminate |].
        intros (r & ? & ? & ? & H & H' & _). injection H as <-.
        congruence.
      * intros e H. now injection H as <-.
    + destruct (rp_inlineData part) as [inlineData |] eqn:Ei.
      * split; [| discriminate]. intros data. split.
        -- intros H. injection H as H.
           exists response, part, rest, inlineData. now repeat split.
        -- intros (r & part' & rest' & blob' & Hr & Hp & Ei' & Hd).
           injection Hr as <-. rewrite Ef in Hp. injection Hp as <- <-.
           rewrite Ei in Ei'. injection Ei' as <-. now rewrite Hd.
      * split.
        -- intros data. split; [discriminate |].
           intros (r & part' & rest' & blob' & Hr & Hp & Ei' & _).
           injection Hr as <-. rewrite Ef in Hp. injection Hp as <- <-.
           rewrite Ei in Ei'. discriminate.
        -- intros e H. now injection H as <-.
    + split.
      * intros data. split; [discriminate |].
        intros (r & ? & ? & ? & H & H' & _). injection H as <-.
        congruence.
      * intros e H. now injection H as <-.
Qed.

(** ** The live view over whole conversations *)

Lemma runLive_app (events more : list LiveEvent) :
  runLive (events ++ more) = fold_left handleEvent more (runLive events).
Proof. unfold runLive. apply fold_left_app. Qed.

Lemma kept_addOrUpdate (now : N) (role : MessageRole) (text : string)
  (isFinal : bool) (prev : list TranscriptionMessage) (i : nat)
  (t : TranscriptionMessage) :
  nth_error prev i = Some t -> tr_isFinal t = true ->
  nth_error (addOrUpdateTranscription now role text isFinal prev) i = Some t.
Proof.
  intros H F.
  assert (Hi : (i < length prev)%nat)
    by (apply nth_error_Some; congruence).
  assert (App : forall x, nth_error (prev ++ [x]) i = Some t)
    by (intros x; now rewrite nth_error_app1).
  unfold addOrUpdateTranscription. cbv zeta.
  destruct (MessageRole_eqb role TOOL); [apply App |].
  assert (Ap : nth_error
                 (if truthy (trim text)
                  then prev ++ [{| tr_id := toString now; tr_role := role;
                                   tr_text := text; tr_isFinal := isFinal |}]
                  else prev) i = Some t)
    by (destruct (truthy (trim text)); [apply App | exact H]).
  destruct (lastOf prev) as [last |] eqn:L; [| exact Ap].
  destruct (MessageRole_eqb (tr_role last) role && negb (tr_isFinal last))
    eqn:C; [| exact Ap].
  apply andb_true_iff in C. destruct C as [_ C].
  apply negb_true_iff in C.
  pose proof (lastOf_some _ _ L) as E.
  remember (removelast prev) as rl eqn:R. clear R.
  rewrite E in H.
  destruct (Nat.lt_ge_cases i (length rl)) as [Hlt | Hge].
  - rewrite nth_error_app1 in H by exact Hlt.
    now rewrite nth_error_app1.
  - rewrite nth_error_app2 in H by exact Hge.
    destruct (i - length rl)%nat as [| n]; simpl in H.
    + injection H as <-. congruence.
    + destruct n; discriminate.
Qed.

Lemma kept_finalizeAll (prev : list TranscriptionMessage) (i : nat)
  (t : TranscriptionMessage) :
  nth_error prev i = Some t -> tr_isFinal t = true ->
  nth_error (finalizeAll prev) i = Some t.
Proof.
  intros H F. unfold finalizeAll. rewrite nth_error_map, H. simpl.
  now rewrite F.
Qed.

Lemma kept_announce (now : N) (message : LiveServerMessage) (st : LiveState)
  (i : nat) (t : TranscriptionMessage) :
  nth_error (transcriptions st) i = Some t -> tr_isFinal t = true ->
  nth_error (transcriptions (announceToolCalls now message st)) i = Some t.
Proof.
  intros H F. unfold announceToolCalls.
  destruct (toolCall message) as [functionCalls |]; [| exact H].
  revert st H. induction functionCalls as [| fc l IH]; intros st H;
    [exact H |].
  cbn [fold_left]. apply IH. cbn [transcriptions setTranscriptions].
  now apply kept_addOrUpdate.
Qed.

Lemma kept_transcribe (now : N) (message : LiveServerMessage) (st : LiveState)
  (i : nat) (t : TranscriptionMessage) :
  nth_error (transcriptions st) i = Some t -> tr_isFinal t = true ->
  nth_error (transcriptions (transcribe now message st)) i = Some t.
Proof.
  intros H F. unfold transcribe. cbv zeta.
  set (st1 := match inputTranscription message with
              | Some text =>
                  setTranscriptions
                    (addOrUpdateTranscription now USER text false) st
              | None => st
              end).
  assert (H1 : nth_error (transcriptions st1) i = Some t).
  { unfold st1. destruct (inputTranscription message); [| exact H].
    cbn [transcriptions setTranscriptions]. now apply kept_addOrUpdate. }
  set (st2 := match outputTranscription message with
              | Some text =>
                  setTranscriptions
                    (addOrUpdateTranscription now MODEL text false) st1
              | None => st1
              end).
  assert (H2 : nth_error (transcriptions st2) i = Some t).
  { unfold st2. destruct (outputTranscription message); [| exact H1].
    cbn [transcriptions setTranscriptions]. now apply kept_addOrUpdate. }
  destruct (turnComplete message); [| exact H2].
  cbn [transcriptions setTranscriptions]. now apply kept_finalizeAll.
Qed.

Lemma transcriptions_schedule (currentTime : Q) (message : LiveServerMessage)
  (st : LiveState) :
  transcriptions (schedule currentTime message st) = transcriptions st.
Proof.
  unfold schedule. destruct (audio message); [| reflexivity].
  now destruct (outputAudioContextRef st).
Qed.

Lemma transcriptions_interrupt (message : LiveServerMessage) (st : LiveState) :
  transcriptions (interrupt message st) = transcriptions st.
Proof. unfold interrupt. now destruct (interrupted message). Qed.

Lemma kept_handleEvent (e : LiveEvent) (st : LiveState) (i : nat)
  (t : TranscriptionMessage) :
  nth_error (transcriptions st) i = Some t -> tr_isFinal t = true ->
  nth_error (transcriptions (handleEvent st e)) i
  = Some (match e with
          | Opened =>
              if String.eqb (tr_id t) "start"
              then withText "Connection open. Start speaking." t else t
          | _ => t
          end).
Proof.
  intros H F. destruct e as [now currentTime message | source | | now fc].
  - cbn [handleEvent]. unfold onmessage.
    rewrite transcriptions_interrupt, transcriptions_schedule.
    apply kept_transcribe; [| exact F]. now apply kept_announce.
  - exact H.
  - cbn [handleEvent]. unfold onopen.
    cbn [transcriptions setTranscriptions]. rewrite nth_error_map, H.
    reflexivity.
  - cbn [handleEvent]. unfold toolResult.
    cbn [transcriptions setTranscriptions]. now apply kept_addOrUpdate.
Qed.

(** X19. What later events can do to a final entry of the transcript of a
    live conversation.  An entry that is final after some events is found at
    the same place after any further events, and it is unchanged unless its
    id is [start] and the connection opens among those events: then its text
    has become [Connection open. Start speaking.] and its other fields are
    as before.  A message that completes the turn leaves every entry final,
    so what was said up to a completed turn is never altered afterwards. *)
Theorem final_entries_are_kept (events : list LiveEvent) :
  (forall more i t,
      nth_error (transcriptions (runLive events)) i = Some t ->
      tr_isFinal t = true ->
      nth_error (transcriptions (runLive (events ++ more))) i
      = Some (if String.eqb (tr_id t) "start"
                 && existsb (fun e => match e with
                                      | Opened => true
                                      | _ => false
                                      end) more
              then {| tr_id := tr_id t; tr_role := tr_role t;
                      tr_text := "Connection open. Start speaking.";
                      tr_isFinal := tr_isFinal t |}
              else t))
  /\ (forall now currentTime message t,
         turnComplete message = true ->
         In t (transcriptions
                 (runLive (events ++ [Message now currentTime message]))) ->
         tr_isFinal t = true).
Proof.
  split.
  - intros more i t. rewrite runLive_app.
    generalize (runLive events). revert t.
    induction more as [| e more IH]; intros t st H F.
    + cbn [existsb fold_left]. rewrite andb_false_r. exact H.
    + cbn [fold_left existsb].
      pose proof (kept_handleEvent e st i t H F) as K.
      destruct e as [now currentTime message | source | | now fc];
        cbn [orb]; try exact (IH t _ K F).
      destruct (String.eqb (tr_id t) "start") eqn:E.
      * rewrite (IH _ _ K F). cbn [withText tr_id tr_role tr_text tr_isFinal].
        rewrite E. cbn [andb]. now destruct (existsb _ more).
      * rewrite (IH t _ K F), E. reflexivity.
  - intros now currentTime message t C. rewrite runLive_app.
    cbn [fold_left handleEvent]. unfold onmessage.
    rewrite transcriptions_interrupt, transcriptions_schedule.
    unfold transcribe. cbv zeta. rewrite C.
    cbn [transcriptions setTranscriptions]. rewrite finalizeAll_spec.
    intros Hin. apply in_map_iff in Hin. destruct Hin as (x & E & _).
    now subst t.
Qed.

Lemma duration_nonneg (b : AudioBuffer) : (0 <= duration b)%Q.
Proof. unfold duration, Qle. simpl. lia. Qed.

Lemma playbackOk_same (a b : LiveState) :
  playback a = playback b -> playbackOk b -> playbackOk a.
Proof.
  unfold playback, playbackOk. intros E. injection E as -> -> -> -> ->.
  trivial.
Qed.

Lemma playbackOk_schedule (currentTime : Q) (message : LiveServerMessage)
  (st : LiveState) :
  playbackOk st -> playbackOk (schedule currentTime message st).
Proof.
  intros (Hc & H0 & Hid & Hend). unfold schedule.
  destruct (audio message) as [dataInt16 |]; [| now repeat split].
  rewrite Hc. cbv zeta.
  set (startAt := Qmax (nextStartTimeRef st) currentTime).
  set (buffer := decodeAudioData dataInt16 24000 1).
  set (source := {| node_id := created st; node_buffer := buffer |}).
  assert (Hs : (nextStartTimeRef st <= startAt)%Q) by apply Q.le_max_l.
  pose proof (duration_nonneg buffer) as Hd.
  unfold playbackOk.
  cbn [outputAudioContextRef nextStartTimeRef calls created sourcesRef].
  split; [reflexivity |]. split; [lra |]. split.
  - intros s t Hin. apply in_app_or in Hin. destruct Hin as [Hin | [E | []]].
    + specialize (Hid s t Hin). lia.
    + injection E as <- _. cbn [node_id source]. lia.
  - intros s t Hs' Hin.
    apply in_app_or in Hin. destruct Hin as [Hin | [E | []]].
    + apply in_app_or in Hs'. destruct Hs' as [Hs' | [E | []]].
      * specialize (Hend s t Hs' Hin). lra.
      * subst s. specialize (Hid source t Hin). cbn [node_id source] in Hid.
        lia.
    + injection E as <- <-. cbn [node_buffer source]. lra.
Qed.

Lemma playbackOk_interrupt (message : LiveServerMessage) (st : LiveState) :
  playbackOk st -> playbackOk (interrupt message st).
Proof.
  intros (Hc & H0 & Hid & Hend). unfold interrupt.
  destruct (interrupted message); [| now repeat split].
  unfold playbackOk.
  cbn [outputAudioContextRef nextStartTimeRef calls created sourcesRef].
  split; [exact Hc |]. split; [lra |]. split.
  - intros s t Hin. apply in_app_or in Hin. destruct Hin as [Hin | Hin].
    + now apply (Hid s t).
    + apply in_map_iff in Hin. destruct Hin as (x & E & _). discriminate.
  - intros s t [].
Qed.

Lemma playbackOk_onended (source : AudioBufferSourceNode) (st : LiveState) :
  playbackOk st -> playbackOk (onended source st).
Proof.
  intros (Hc & H0 & Hid & Hend). unfold onended, playbackOk.
  cbn [outputAudioContextRef nextStartTimeRef calls created sourcesRef].
  split; [exact Hc |]. split; [exact H0 |]. split; [exact Hid |].
  intros s t Hs Hin. apply filter_In in Hs. destruct Hs as [Hs _].
  now apply Hend.
Qed.

Lemma playbackOk_runLive (events : list LiveEvent) :
  playbackOk (runLive events).
Proof.
  unfold runLive.
  assert (I : playbackOk startConversation).
  { unfold playbackOk, startConversation.
    cbn [outputAudioContextRef nextStartTimeRef calls created sourcesRef].
    split; [reflexivity |]. split; [lra |]. split; intros s t []. }
  revert I. generalize startConversation.
  induction events as [| e events IH]; intros st I; [exact I |].
  cbn [fold_left]. apply IH.
  destruct e as [now currentTime message | source | | now fc];
    cbn [handleEvent].
  - unfold onmessage. apply playbackOk_interrupt, playbackOk_schedule.
    apply (playbackOk_same _ st); [| exact I].
    apply playback_before_schedule.
  - now apply playbackOk_onended.
  - apply (playbackOk_same _ st); [reflexivity | exact I].
  - apply (playbackOk_same _ st); [reflexivity | exact I].
Qed.

(** X20. Playback never overlaps, however long the conversation: after any
    events, every source node still tracked ends no later than the cursor,
    and the next audio chunk to arrive is started no earlier than the end of
    each of them and not in the past of the audio clock. *)
Theorem playback_never_overlaps (events : list LiveEvent) :
  let st := runLive events in
  (forall s t, In s (sourcesRef st) -> In (Start s t) (calls st) ->
               (t + duration (node_buffer s) <= nextStartTimeRef st)%Q)
  /\ (forall now currentTime message dataInt16,
         audio message = Some dataInt16 ->
         exists startAt,
           startTimes (onmessage now currentTime message st)
           = startTimes st ++ [startAt]
           /\ (currentTime <= startAt)%Q
           /\ (forall s t, In s (sourcesRef st) -> In (Start s t) (calls st) ->
                           (t + duration (node_buffer s) <= startAt)%Q)).
Proof.
  intros st. destruct (playbackOk_runLive events) as (Hc & H0 & Hid & Hend).
  fold st in Hc, H0, Hid, Hend.
  split; [exact Hend |].
  intros now currentTime message dataInt16 Ha.
  destruct (onmessage_audio now currentTime message dataInt16 st Ha Hc)
    as (S & _).
  exists (Qmax (nextStartTimeRef st) currentTime).
  split; [exact S |]. split; [apply Q.le_max_r |].
  intros s t Hs Hin. specialize (Hend s t Hs Hin).
  pose proof (Q.le_max_l (nextStartTimeRef st) currentTime). lra.
Qed.

(** ** Audio samples *)

Lemma map_nth_seq {A B : Type} (f : A -> B) (l : list A) (d : A) :
  map (fun i => f (nth i l d)) (seq 0 (length l)) = map f l.
Proof.
  induction l as [| x l IH]; [reflexivity |].
  cbn [length seq map nth]. f_equal.
  rewrite <- seq_shift, map_map. exact IH.
Qed.

Lemma toInt16_scaled (v : Z) :
  isInt16 v -> toInt16 ((v # 32768) * 32768)%Q = v.
Proof.
  unfold isInt16, toInt16, truncate. intros H.
  change (Qnum ((v # 32768) * 32768)%Q) with (v * 32768)%Z.
  change (Zpos (Qden ((v # 32768) * 32768)%Q)) with 32768%Z.
  rewrite Z.quot_mul by lia. cbv zeta.
  destruct (32768 <=? v mod 65536)%Z eqn:E.
  - apply Z.leb_le in E.
    pose proof (Z.div_mod v 65536 ltac:(lia)).
    pose proof (Z.mod_pos_bound v 65536 ltac:(lia)). lia.
  - apply Z.leb_gt in E.
    pose proof (Z.div_mod v 65536 ltac:(lia)).
    pose proof (Z.mod_pos_bound v 65536 ltac:(lia)). lia.
Qed.

(** X21. [decodeAudioData] as the live view calls it, for one channel, on
    16-bit samples a buffer can be created for: the buffer has one frame per
    input sample, its channel holds every input sample in order, divided by
    32768, so every sample lies in [-1, 1), and the sample loop of
    [onaudioprocess] turns that channel back into the input samples. *)
Theorem decodeAudioData_samples (dataInt16 : list Z) (rate : positive) :
  Forall isInt16 dataInt16 ->
  creatable 1 (length dataInt16) rate ->
  let buffer := decodeAudioData dataInt16 rate 1 in
  channelData buffer = [map (fun v => (v # 32768)%Q) dataInt16]
  /\ frameCount buffer = length dataInt16
  /\ (forall channel x, In channel (channelData buffer) -> In x channel ->
                        (-1 <= x)%Q /\ (x < 1)%Q)
  /\ map onaudioprocess (channelData buffer) = [dataInt16].
Proof.
  intros Hall _ buffer. rewrite Forall_forall in Hall.
  assert (M : channelData buffer = [map (fun v => (v # 32768)%Q) dataInt16]).
  { unfold buffer, decodeAudioData. cbn [channelData seq map].
    rewrite Nat.div_1_r. f_equal.
    rewrite <- (map_nth_seq (fun v => (v # 32768)%Q) dataInt16 0%Z).
    apply map_ext. intros i. now rewrite Nat.mul_1_r, Nat.add_0_r. }
  split; [exact M |]. split.
  { unfold buffer, decodeAudioData. cbn [frameCount]. apply Nat.div_1_r. }
  split.
  { intros channel x Hc Hx. rewrite M in Hc. destruct Hc as [<- | []].
    apply in_map_iff in Hx. destruct Hx as (v & <- & Hv).
    specialize (Hall v Hv). unfold isInt16 in Hall.
    unfold Qle, Qlt. simpl. lia. }
  rewrite M. cbn [map]. f_equal. unfold onaudioprocess. rewrite map_map.
  rewrite <- (map_id dataInt16) at 2. apply map_ext_in.
  intros v Hv. apply toInt16_scaled. now apply Hall.
Qed.

Lemma decodeAudioData_samples_witness :
  let dataInt16 := [0; 16384; -32768; 32767]%Z in
  channelData (decodeAudioData dataInt16 24000 1)
  = [[0 # 32768; 16384 # 32768; -32768 # 32768; 32767 # 32768]%Q]
  /\ map onaudioprocess (channelData (decodeAudioData dataInt16 24000 1))
     = [dataInt16].
Proof.
  intros dataInt16.
  assert (H : Forall isInt16 dataInt16)
    by (unfold dataInt16, isInt16; repeat constructor; lia).
  assert (C : creatable 1 (length dataInt16) 24000)
    by (unfold creatable, dataInt16; simpl; lia).
  destruct (decodeAudioData_samples dataInt16 24000 H C)
    as (M & _ & _ & R).
  split; [exact M | exact R].
Defined.

Lemma wrap_int16 (q : Z) :
  let m := (q mod 65536)%Z in
  (isInt16 q -> (if (32768 <=? m)%Z then (m - 65536)%Z else m) = q)
  /\ ((32768 <= q < 65536)%Z ->
      (if (32768 <=? m)%Z then (m - 65536)%Z else m) = (q - 65536)%Z).
Proof.
  intros m. unfold isInt16.
  pose proof (Z.div_mod q 65536 ltac:(lia)) as D.
  pose proof (Z.mod_pos_bound q 65536 ltac:(lia)) as B.
  fold m in D, B.
  split; intros H; destruct (32768 <=? m)%Z eqn:E;
    [apply Z.leb_le in E | apply Z.leb_gt in E
     | apply Z.leb_le in E | apply Z.leb_gt in E]; lia.
Qed.

Lemma truncate_scaled (x : Q) :
  let n := (Qnum x * 32768)%Z in
  let b := Zpos (Qden x) in
  let q := truncate (x * 32768)%Q in
  exists r, n = (b * q + r)%Z
            /\ ((0 <= n)%Z -> (0 <= r < b)%Z)
            /\ ((n <= 0)%Z -> (- b < r <= 0)%Z).
Proof.
  intros n b q. unfold q, truncate.
  change (Qnum (x * 32768)%Q) with n.
  replace (Zpos (Qden (x * 32768)%Q)) with b
    by (unfold b; cbn [Qden Qmult]; now rewrite Pos.mul_1_r).
  exists (Z.rem n b). split; [apply Z.quot_rem'; unfold b; lia |].
  split; intros H.
  - apply Z.rem_bound_pos; unfold b; lia.
  - apply Z.rem_bound_pos_neg; unfold b; lia.
Qed.

(** X22. The sample conversion of [onaudioprocess].  An input sample in
    [-1, 1) becomes the integral part of 32768 times its value, less than
    one step of 1/32768 away from it.  Nothing is clipped: a sample from 1
    up to 2, which the 1.5-fold gain in front of the processor lets through,
    wraps around and comes out negative. *)
Theorem capture_wraps_overdrive (x : Q) :
  let v := toInt16 (x * 32768)%Q in
  ((-1 <= x)%Q -> (x < 1)%Q ->
   v = truncate (x * 32768)%Q
   /\ isInt16 v
   /\ ((v # 32768) - x < 1 # 32768)%Q
   /\ (x - (v # 32768) < 1 # 32768)%Q)
  /\ ((1 <= x)%Q -> (x < 2)%Q ->
      v = (truncate (x * 32768)%Q - 65536)%Z /\ (v < 0)%Z).
Proof.
  intros v. destruct (truncate_scaled x) as (r & E & Hpos & Hneg).
  cbv zeta in E, Hpos, Hneg.
  unfold v, toInt16. cbv zeta.
  set (q := truncate (x * 32768)%Q) in *.
  destruct x as [a b]. cbn [Qnum Qden] in E, Hpos, Hneg.
  pose proof (Pos2Z.is_pos b) as Hb.
  split.
  - unfold Qle, Qlt. cbn [Qnum Qden]. intros Hlo Hhi.
    assert (Hq : isInt16 q).
    { unfold isInt16.
      destruct (Z.le_gt_cases 0 (a * 32768)) as [Hs | Hs].
      - specialize (Hpos Hs). nia.
      - specialize (Hneg ltac:(lia)). nia. }
    rewrite (proj1 (wrap_int16 q) Hq).
    split; [reflexivity |]. split; [exact Hq |].
    unfold Qminus, Qplus, Qopp. cbn [Qnum Qden].
    rewrite !Pos2Z.inj_mul.
    destruct (Z.le_gt_cases 0 (a * 32768)) as [Hs | Hs].
    + specialize (Hpos Hs). split; nia.
    + specialize (Hneg ltac:(lia)). split; nia.
  - unfold Qle, Qlt. cbn [Qnum Qden]. intros Hlo Hhi.
    assert (Hs : (0 <= a * 32768)%Z) by lia.
    specialize (Hpos Hs).
    assert (Hq : (32768 <= q < 65536)%Z) by nia.
    rewrite (proj2 (wrap_int16 q) Hq). split; [reflexivity | lia].
Qed.

Lemma capture_wraps_overdrive_witness :
  onaudioprocess [1 # 2; 3 # 4; 1; (3 # 4) * (3 # 2)]%Q
  = [16384; 24576; -32768; -28672]%Z
  /\ (toInt16 (1 * 32768)%Q < 0)%Z.
Proof.
  split; [reflexivity |].
  destruct (capture_wraps_overdrive 1) as [_ H].
  apply H; [unfold Qle | unfold Qlt]; simpl; lia.
Defined.

(** ** The WAV container *)

Lemma setAt_app (offset : nat) (v : N) (a b : list N) :
  (offset < length a)%nat -> setAt offset v (a ++ b) = setAt offset v a ++ b.
Proof.
  revert offset. induction a as [| x a IH]; intros offset H.
  - simpl in H. lia.
  - destruct offset as [| k]; [reflexivity |].
    cbn [setAt app]. f_equal. apply IH. simpl in H. lia.
Qed.

Lemma setAt_length (offset : nat) (v : N) (a : list N) :
  length (setAt offset v a) = length a.
Proof.
  revert offset. induction a as [| x a IH]; intros [| k]; simpl;
    try reflexivity.
  now rewrite IH.
Qed.

Lemma uint32_bytes (u : N) :
  (u < 4294967296)%N ->
  (u mod 256
   + 256 * ((u / 256) mod 256
            + 256 * ((u / 256 / 256) mod 256
                     + 256 * ((u / 256 / 256 / 256) mod 256))))%N = u.
Proof.
  intros H. zify. Z.to_euclidean_division_equations. lia.
Qed.

Lemma uint16_bytes (u : N) :
  (u < 65536)%N -> (u mod 256 + 256 * ((u / 256) mod 256))%N = u.
Proof.
  intros H. zify. Z.to_euclidean_division_equations. lia.
Qed.

(** The header [pcmToWav] writes, byte by byte. *)
Lemma pcmToWav_header (pcmData : list N) (sampleRate numChannels
  bitsPerSample : N) :
  let u32 (v : N) := (v mod 4294967296)%N in
  let u16 (v : N) := (v mod 65536)%N in
  let b0 (u : N) := (u mod 256)%N in
  let b1 (u : N) := ((u / 256) mod 256)%N in
  let b2 (u : N) := ((u / 256 / 256) mod 256)%N in
  let b3 (u : N) := ((u / 256 / 256 / 256) mod 256)%N in
  let le32 (v : N) := [b0 (u32 v); b1 (u32 v); b2 (u32 v); b3 (u32 v)] in
  let le16 (v : N) := [b0 (u16 v); b1 (u16 v)] in
  let n := N.of_nat (length pcmData) in
  pcmToWav pcmData sampleRate numChannels bitsPerSample
  = (charCodes "RIFF" ++ le32 (36 + n)%N ++ charCodes "WAVE"
     ++ charCodes "fmt " ++ le32 16%N ++ le16 1%N ++ le16 numChannels
     ++ le32 sampleRate
     ++ le32 (sampleRate * numChannels * bitsPerSample / 8)%N
     ++ le16 (numChannels * bitsPerSample / 8)%N ++ le16 bitsPerSample
     ++ charCodes "data" ++ le32 n)
    ++ pcmData.
Proof.
  intros u32 u16 b0 b1 b2 b3 le32 le16 n.
  unfold pcmToWav. cbv zeta.
  remember (44 + length pcmData)%nat as total eqn:Et.
  assert (Z : repeat 0%N total
              = [0;0;0;0;0;0;0;0;0;0;0;0;0;0;0;0;0;0;0;0;0;0;
                 0;0;0;0;0;0;0;0;0;0;0;0;0;0;0;0;0;0;0;0;0;0]%N
                ++ repeat 0%N (length pcmData))
    by (rewrite Et, repeat_app; reflexivity).
  rewrite Z. clear Z.
  remember (repeat 0%N (length pcmData)) as tail eqn:Etail.
  assert (Ht : length tail = length pcmData)
    by (rewrite Etail; apply repeat_length).
  clear Etail.
  unfold setUint32, setUint16. cbv zeta. cbn [writeString Nat.add].
  unfold setUint8.
  repeat (rewrite setAt_app by (rewrite ?setAt_length; cbn [length]; lia)).
  cbn [setAt].
  rewrite firstn_app. cbn [length Nat.sub firstn].
  rewrite skipn_all2 by (rewrite length_app; cbn [length]; lia).
  rewrite !app_nil_r. reflexivity.
Qed.

(** X23. The file [pcmToWav] makes is the 44-byte header followed by the
    PCM bytes, unchanged.  The header carries the tags RIFF, WAVE, fmt and
    data at their places, and its fields, read back as little-endian
    numbers, are the sizes and parameters the function was given, reduced
    to the width of the field.  For the call of the speech view, with 24000
    Hz, one channel and 16 bits, and less than 4 GiB of audio, the sizes are
    exact, the byte rate is 48000 and the block alignment 2. *)
Theorem pcmToWav_layout (pcmData : list N) (sampleRate numChannels
  bitsPerSample : N) :
  let wav := pcmToWav pcmData sampleRate numChannels bitsPerSample in
  let n := N.of_nat (length pcmData) in
  (length wav = 44 + length pcmData)%nat
  /\ skipn 44 wav = pcmData
  /\ firstn 4 wav = charCodes "RIFF"
  /\ firstn 8 (skipn 8 wav) = charCodes "WAVEfmt "
  /\ firstn 4 (skipn 36 wav) = charCodes "data"
  /\ getUint32 4 wav = ((36 + n) mod 4294967296)%N
  /\ getUint32 16 wav = 16%N
  /\ getUint16 20 wav = 1%N
  /\ getUint16 22 wav = (numChannels mod 65536)%N
  /\ getUint32 24 wav = (sampleRate mod 4294967296)%N
  /\ getUint32 28 wav
     = ((sampleRate * numChannels * bitsPerSample / 8) mod 4294967296)%N
  /\ getUint16 32 wav = ((numChannels * bitsPerSample / 8) mod 65536)%N
  /\ getUint16 34 wav = (bitsPerSample mod 65536)%N
  /\ getUint32 40 wav = (n mod 4294967296)%N
  /\ ((36 + n < 4294967296)%N ->
      let tts := pcmToWav pcmData 24000 1 16 in
      getUint32 4 tts = (36 + n)%N /\ getUint32 40 tts = n
      /\ getUint16 22 tts = 1%N /\ getUint32 24 tts = 24000%N
      /\ getUint32 28 tts = 48000%N /\ getUint16 32 tts = 2%N
      /\ getUint16 34 tts = 16%N).
Proof.
  intros wav n.
  assert (R32 : forall v, (v mod 4294967296 < 4294967296)%N)
    by (intros v; apply N.mod_lt; lia).
  assert (R16 : forall v, (v mod 65536 < 65536)%N)
    by (intros v; apply N.mod_lt; lia).
  assert (G : forall s c b,
    let w := pcmToWav pcmData s c b in
    (length w = 44 + length pcmData)%nat
    /\ skipn 44 w = pcmData
    /\ firstn 4 w = charCodes "RIFF"
    /\ firstn 8 (skipn 8 w) = charCodes "WAVEfmt "
    /\ firstn 4 (skipn 36 w) = charCodes "data"
    /\ getUint32 4 w = ((36 + n) mod 4294967296)%N
    /\ getUint32 16 w = 16%N
    /\ getUint16 20 w = 1%N
    /\ getUint16 22 w = (c mod 65536)%N
    /\ getUint32 24 w = (s mod 4294967296)%N
    /\ getUint32 28 w = ((s * c * b / 8) mod 4294967296)%N
    /\ getUint16 32 w = ((c * b / 8) mod 65536)%N
    /\ getUint16 34 w = (b mod 65536)%N
    /\ getUint32 40 w = (n mod 4294967296)%N).
  { intros s c b w. unfold w. rewrite pcmToWav_header. cbv zeta. fold n.
    change (charCodes "RIFF") with [82; 73; 70; 70]%N.
    change (charCodes "WAVE") with [87; 65; 86; 69]%N.
    change (charCodes "fmt ") with [102; 109; 116; 32]%N.
    change (charCodes "data") with [100; 97; 116; 97]%N.
    change (charCodes "WAVEfmt ")
      with [87; 65; 86; 69; 102; 109; 116; 32]%N.
    unfold getUint32, getUint16.
    cbn [app length nth skipn firstn Nat.add].
    split; [reflexivity |]. split; [reflexivity |].
    split; [reflexivity |]. split; [reflexivity |].
    split; [reflexivity |].
    split; [apply uint32_bytes, R32 |].
    split; [reflexivity |]. split; [reflexivity |].
    split; [apply uint16_bytes, R16 |].
    split; [apply uint32_bytes, R32 |].
    split; [apply uint32_bytes, R32 |].
    split; [apply uint16_bytes, R16 |].
    split; [apply uint16_bytes, R16 |].
    apply uint32_bytes, R32. }
  destruct (G sampleRate numChannels bitsPerSample)
    as (H1 & H2 & H3 & H4 & H5 & H6 & H7 & H8 & H9 & H10 & H11 & H12 & H13
        & H14).
  repeat (split; [assumption |]).
  intros Hn tts.
  destruct (G 24000 1 16)%N
    as (_ & _ & _ & _ & _ & T6 & _ & _ & T9 & T10 & T11 & T12 & T13 & T14).
  fold tts in T6, T9, T10, T11, T12, T13, T14.
  rewrite T6, T9, T10, T11, T12, T13, T14.
  rewrite !N.mod_small by lia.
  repeat split; reflexivity.
Qed.

(** ** The fallback renderer *)

Lemma replaceAll_append (c : ascii) (replacement a b : string) :
  replaceAll c replacement (String.append a b)
  = String.append (replaceAll c replacement a) (replaceAll c replacement b).
Proof.
  induction a as [| x a IH]; [reflexivity |].
  cbn [String.append replaceAll]. rewrite IH.
  destruct (Ascii.eqb x c); [now rewrite append_assoc | reflexivity].
Qed.

Lemma fallback_cons (x : ascii) (rest : string) :
  replaceAll "010" "<br/>" (escapedText (String x rest))
  = String.append (entity x) (replaceAll "010" "<br/>" (escapedText rest)).
Proof.
  unfold escapedText, entity.
  change (String x rest) with (String.append (String x EmptyString) rest).
  rewrite !replaceAll_append.
  f_equal.
  destruct (Ascii.eqb x "&") eqn:E1;
    [apply Ascii.eqb_eq in E1; subst x; reflexivity |].
  destruct (Ascii.eqb x "<") eqn:E2;
    [apply Ascii.eqb_eq in E2; subst x; reflexivity |].
  destruct (Ascii.eqb x ">") eqn:E3;
    [apply Ascii.eqb_eq in E3; subst x; reflexivity |].
  destruct (Ascii.eqb x "034") eqn:E4;
    [apply Ascii.eqb_eq in E4; subst x; reflexivity |].
  destruct (Ascii.eqb x "'") eqn:E5;
    [apply Ascii.eqb_eq in E5; subst x; reflexivity |].
  cbn [replaceAll]. rewrite E1. cbn [replaceAll]. rewrite E2.
  cbn [replaceAll]. rewrite E3. cbn [replaceAll]. rewrite E4.
  cbn [replaceAll]. rewrite E5. cbn [replaceAll].
  destruct (Ascii.eqb x "010"); reflexivity.
Qed.

Lemma entity_quotes (x : ascii) :
  occurs "034" (entity x) = false /\ occurs "'" (entity x) = false.
Proof.
  unfold entity.
  destruct (Ascii.eqb x "&"); [split; reflexivity |].
  destruct (Ascii.eqb x "<"); [split; reflexivity |].
  destruct (Ascii.eqb x ">"); [split; reflexivity |].
  destruct (Ascii.eqb x "034") eqn:E4; [split; reflexivity |].
  destruct (Ascii.eqb x "'") eqn:E5; [split; reflexivity |].
  destruct (Ascii.eqb x "010"); [split; reflexivity |].
  cbn [occurs]. now rewrite E4, E5.
Qed.

Lemma entity_brackets (x : ascii) :
  Ascii.eqb x "010" = false ->
  occurs "<" (entity x) = false /\ occurs ">" (entity x) = false.
Proof.
  unfold entity. intros N.
  destruct (Ascii.eqb x "&"); [split; reflexivity |].
  destruct (Ascii.eqb x "<") eqn:E2; [split; reflexivity |].
  destruct (Ascii.eqb x ">") eqn:E3; [split; reflexivity |].
  destruct (Ascii.eqb x "034"); [split; reflexivity |].
  destruct (Ascii.eqb x "'"); [split; reflexivity |].
  rewrite N. cbn [occurs]. now rewrite E2, E3.
Qed.

(** X24. When [marked] or [DOMPurify] is not loaded, [renderMarkdown]
    handles the text character by character: the five replacements made one
    after the other amount to replacing each ampersand, angle bracket and
    quote by its entity at once, an entity is never escaped a second time,
    and each line feed becomes a break tag.  The HTML it returns holds no
    quote of either kind, and a text without line feeds gives HTML without
    any angle bracket, so no markup of the text survives. *)
Theorem renderMarkdown_escapes (marked DOMPurify : option (string -> string))
  (text : string) :
  marked = None \/ DOMPurify = None ->
  let html := renderMarkdown marked DOMPurify text in
  html = String.concat EmptyString (map entity (list_ascii_of_string text))
  /\ occurs "034" html = false
  /\ occurs "'" html = false
  /\ (occurs "010" text = false ->
      occurs "<" html = false /\ occurs ">" html = false).
Proof.
  intros Hnone html.
  assert (F : html = replaceAll "010" "<br/>" (escapedText text)).
  { unfold html, renderMarkdown.
    destruct Hnone as [-> | ->]; [reflexivity |].
    now destruct marked. }
  rewrite F. clear F html Hnone.
  induction text as [| x rest IH].
  - repeat split; reflexivity.
  - rewrite fallback_cons.
    destruct IH as (C & Q & A & B).
    destruct (entity_quotes x) as [Qx Ax].
    split; [| split; [| split]].
    + rewrite C. cbn [list_ascii_of_string map].
      destruct (map entity (list_ascii_of_string rest)) as [| e l];
        [now rewrite append_empty_r | reflexivity].
    + now rewrite occurs_append, Qx, Q.
    + now rewrite occurs_append, Ax, A.
    + cbn [occurs]. intros Hn. apply orb_false_iff in Hn.
      destruct Hn as [Hx Hr].
      destruct (entity_brackets x Hx) as [Lx Gx].
      destruct (B Hr) as [L G].
      now rewrite !occurs_append, Lx, Gx, L, G.
Qed.

Lemma renderMarkdown_escapes_witness :
  let text := "<img src=x onerror='alert(1)'> & more" in
  renderMarkdown None None text
  = "&lt;img src=x onerror=&#039;alert(1)&#039;&gt; &amp; more"
  /\ occurs "<" (renderMarkdown None None text) = false.
Proof.
  intros text. split; [reflexivity |].
  destruct (renderMarkdown_escapes None None text (or_introl eq_refl))
    as (_ & _ & _ & B).
  now apply B.
Defined.

(** ** Keys of the command palette *)

(** X25. In the open command palette with a selection among [count]
    commands, the arrow keys keep the selection among them, wrapping around
    at both ends, and undo each other; Enter runs the selected command, and
    no other, and closes the palette.  When the search matches no command,
    an arrow key turns the selection into [NaN], and Enter then runs
    nothing. *)
Theorem palette_arrows_stay_in_range (count i : nat) (ran : list nat) :
  (i < count)%nat ->
  let p := {| pal_isOpen := true; pal_selectedIndex := Some i;
              pal_ran := ran |} in
  let empty := handleKeyDown 0 ArrowDown p in
  (exists j, pal_selectedIndex (handleKeyDown count ArrowDown p) = Some j
             /\ (j < count)%nat
             /\ (j = if (S i =? count)%nat then 0 else S i)%nat)
  /\ (exists j, pal_selectedIndex (handleKeyDown count ArrowUp p) = Some j
                /\ (j < count)%nat
                /\ (j = if (i =? 0)%nat then count - 1 else i - 1)%nat)
  /\ handleKeyDown count ArrowUp (handleKeyDown count ArrowDown p) = p
  /\ handleKeyDown count ArrowDown (handleKeyDown count ArrowUp p) = p
  /\ handleKeyDown count Enter p
     = {| pal_isOpen := false; pal_selectedIndex := Some i;
          pal_ran := ran ++ [i] |}
  /\ pal_selectedIndex empty = None
  /\ handleKeyDown 0 Enter empty = empty.
Proof.
  intros Hi p empty.
  assert (Hc : (count =? 0)%nat = false) by (apply Nat.eqb_neq; lia).
  assert (D : ((i + 1) mod count
               = if (S i =? count)%nat then 0 else S i)%nat).
  { destruct (S i =? count)%nat eqn:E.
    - apply Nat.eqb_eq in E. replace (i + 1)%nat with count by lia.
      apply Nat.Div0.mod_same.
    - apply Nat.eqb_neq in E. rewrite Nat.mod_small by lia. lia. }
  assert (U : ((i + count - 1) mod count
               = if (i =? 0)%nat then count - 1 else i - 1)%nat).
  { destruct (i =? 0)%nat eqn:E.
    - apply Nat.eqb_eq in E. subst i. rewrite Nat.mod_small by lia. lia.
    - apply Nat.eqb_neq in E.
      replace (i + count - 1)%nat with (i - 1 + 1 * count)%nat by lia.
      rewrite Nat.Div0.mod_add. apply Nat.mod_small. lia. }
  assert (UD : (((i + 1) mod count + count - 1) mod count = i)%nat).
  { rewrite D. destruct (S i =? count)%nat eqn:E.
    - apply Nat.eqb_eq in E. rewrite Nat.mod_small by lia. lia.
    - apply Nat.eqb_neq in E.
      replace (S i + count - 1)%nat with (i + 1 * count)%nat by lia.
      rewrite Nat.Div0.mod_add. apply Nat.mod_small. lia. }
  assert (DU : (((i + count - 1) mod count + 1) mod count = i)%nat).
  { rewrite U. destruct (i =? 0)%nat eqn:E.
    - apply Nat.eqb_eq in E. subst i.
      replace (count - 1 + 1)%nat with count by lia.
      apply Nat.Div0.mod_same.
    - apply Nat.eqb_neq in E. rewrite Nat.mod_small by lia. lia. }
  unfold empty, p, handleKeyDown.
  cbn [pal_isOpen pal_selectedIndex pal_ran negb option_map remainder
       Nat.eqb].
  rewrite Hc.
  cbn [pal_isOpen pal_selectedIndex pal_ran negb option_map remainder].
  rewrite Hc, UD, DU.
  split.
  { exists ((i + 1) mod count)%nat. split; [reflexivity |].
    split; [apply Nat.mod_upper_bound; lia | exact D]. }
  split.
  { exists ((i + count - 1) mod count)%nat. split; [reflexivity |].
    split; [apply Nat.mod_upper_bound; lia | exact U]. }
  split; [reflexivity |]. split; [reflexivity |].
  split; [| split; reflexivity].
  apply Nat.ltb_lt in Hi. now rewrite Hi.
Qed.

Lemma palette_arrows_stay_in_range_witness :
  let p := {| pal_isOpen := true; pal_selectedIndex := Some 16%nat;
              pal_ran := [] |} in
  pal_selectedIndex (handleKeyDown 17 ArrowDown p) = Some 0%nat
  /\ handleKeyDown 17 ArrowUp (handleKeyDown 17 ArrowDown p) = p.
Proof.
  intros p.
  destruct (palette_arrows_stay_in_range 17 16 [] ltac:(lia))
    as ((j & S & _ & E) & _ & UD & _).
  split; [| exact UD]. fold p in S. rewrite S, E. reflexivity.
Defined.

(** ** Ending a live conversation *)

Lemma whenSet_in (ref : bool) (call c : TeardownCall) :
  In c (whenSet ref call) <-> ref = true /\ c = call.
Proof.
  destruct ref; simpl; split; intros H.
  - destruct H as [H | []]. now split.
  - left. now destruct H.
  - destruct H.
  - destruct H. discriminate.
Qed.

Lemma releaseInputs_spec (r : LiveRefs) :
  fst (releaseInputs r)
  = {| ref_isLive := false; ref_isCameraOn := false; ref_stream := false;
       ref_frameInterval := false;
       ref_scriptProcessor := ref_scriptProcessor r;
       ref_mediaStreamSource := ref_mediaStreamSource r;
       ref_sources := ref_sources r;
       ref_sessionPromise := ref_sessionPromise r |}
  /\ forall c, In c (snd (releaseInputs r)) ->
               c = StopVideoTracks \/ c = ClearInterval
               \/ c = StopAudioTracks \/ c = DisconnectScriptProcessor
               \/ c = DisconnectMediaStreamSource.
Proof.
  split; [reflexivity |].
  intros c. unfold releaseInputs, stopCamera. cbn [snd fst ref_stream
    ref_frameInterval ref_scriptProcessor ref_mediaStreamSource].
  rewrite !in_app_iff, !whenSet_in. intuition.
Qed.

Lemma stopSource_in (s : nat) (sources : list nat) :
  In (StopSource s) (map StopSource sources) <-> In s sources.
Proof.
  rewrite in_map_iff. split.
  - intros (x & E & H). now injection E as <-.
  - intros H. now exists s.
Qed.

Lemma other_in (c : TeardownCall) (sources : list nat) :
  (forall s, c <> StopSource s) -> ~ In c (map StopSource sources).
Proof.
  intros Hc H. apply in_map_iff in H. destruct H as (s & E & _).
  now apply (Hc s).
Qed.

(** X26. [stopConversation] when a context ref still holds [null], as it
    does until the microphone has been granted: the guard
    [ctx?.state !== 'closed'] lets the null ref through and the call of
    [close] on it throws, after the tracks were stopped and the nodes
    disconnected but before the session is closed and the refs are cleared.
    When both contexts exist it completes: every ref is cleared, a context
    is closed exactly when it does not report closed, the tracked sources
    are stopped and forgotten unless the output context reports closed, and
    the session is closed if there is one.  Run again on what it left, with
    both contexts reporting closed, it makes no call and changes nothing. *)
Theorem stopConversation_teardown (inputContext outputContext
  : option AudioContextState) (r : LiveRefs) :
  let t := stopConversation inputContext outputContext r in
  (td_ending t = ThrewTypeError <->
   inputContext = None \/ outputContext = None)
  /\ ref_isLive (td_refs t) = false
  /\ (inputContext = None ->
      ~ In CloseSession (td_calls t)
      /\ (forall s, ~ In (StopSource s) (td_calls t))
      /\ ref_sessionPromise (td_refs t) = ref_sessionPromise r
      /\ ref_scriptProcessor (td_refs t) = ref_scriptProcessor r
      /\ ref_sources (td_refs t) = ref_sources r)
  /\ (td_ending t = Completed ->
      ref_scriptProcessor (td_refs t) = false
      /\ ref_mediaStreamSource (td_refs t) = false
      /\ ref_sessionPromise (td_refs t) = false
      /\ ref_stream (td_refs t) = false
      /\ (In CloseInputContext (td_calls t) <-> inputContext <> Some closed)
      /\ (In CloseOutputContext (td_calls t) <-> outputContext <> Some closed)
      /\ (In CloseSession (td_calls t) <-> ref_sessionPromise r = true)
      /\ (outputContext <> Some closed ->
          ref_sources (td_refs t) = []
          /\ forall s, In s (ref_sources r) -> In (StopSource s) (td_calls t))
      /\ (outputContext = Some closed ->
          ref_sources (td_refs t) = ref_sources r
          /\ forall s, ~ In (StopSource s) (td_calls t))
      /\ stopConversation (Some closed) (Some closed) (td_refs t)
         = {| td_refs := td_refs t; td_calls := []; td_ending := Completed |}).
Proof.
  intros t. unfold t, stopConversation.
  destruct (releaseInputs_spec r) as [E P].
  destruct (releaseInputs r) as [r1 calls]. cbn [fst snd] in E, P.
  subst r1.
  assert (NS : forall s, ~ In (StopSource s) calls)
    by (intros s K; destruct (P _ K) as [? | [? | [? | [? | ?]]]];
        discriminate).
  assert (N1 : ~ In CloseSession calls)
    by (intros K; destruct (P _ K) as [? | [? | [? | [? | ?]]]];
        discriminate).
  assert (N2 : ~ In CloseInputContext calls)
    by (intros K; destruct (P _ K) as [? | [? | [? | [? | ?]]]];
        discriminate).
  assert (N3 : ~ In CloseOutputContext calls)
    by (intros K; destruct (P _ K) as [? | [? | [? | [? | ?]]]];
        discriminate).
  assert (M1 : ~ In CloseSession (map StopSource (ref_sources r)))
    by (apply other_in; discriminate).
  assert (M2 : ~ In CloseInputContext (map StopSource (ref_sources r)))
    by (apply other_in; discriminate).
  assert (M3 : ~ In CloseOutputContext (map StopSource (ref_sources r)))
    by (apply other_in; discriminate).
  clear P. unfold closeOutput, releaseSession.
  split; [| split; [| split]].
  - destruct inputContext as [[| |] |], outputContext as [[| |] |];
      cbn [notClosed td_ending]; split; intros H;
      try discriminate H; try reflexivity; auto;
      destruct H as [H | H]; discriminate H.
  - destruct inputContext as [[| |] |], outputContext as [[| |] |];
      reflexivity.
  - intros ->. cbn [notClosed td_refs td_calls ref_sessionPromise
                    ref_scriptProcessor ref_sources].
    split; [exact N1 |]. split; [exact NS |]. repeat split.
  - destruct inputContext as [[| |] |], outputContext as [[| |] |];
      cbn [notClosed td_refs td_calls td_ending ref_isLive ref_isCameraOn
           ref_stream ref_frameInterval ref_scriptProcessor
           ref_mediaStreamSource ref_sources ref_sessionPromise];
      intros H; try discriminate H; clear H;
      (split; [reflexivity |]); (split; [reflexivity |]);
      (split; [reflexivity |]); (split; [reflexivity |]);
      (split; [rewrite ?in_app_iff, ?whenSet_in; cbn [In];
               intuition congruence |]);
      (split; [rewrite ?in_app_iff, ?whenSet_in; cbn [In];
               intuition congruence |]);
      (split; [rewrite ?in_app_iff, ?whenSet_in; cbn [In];
               intuition congruence |]);
      (split; [intros H; try (now exfalso; apply H);
               (split; [reflexivity |]);
               intros s Hs; rewrite ?in_app_iff, stopSource_in; tauto |]);
      (split; [intros H; try discriminate H;
               (split; [reflexivity |]);
               intros s; rewrite ?in_app_iff, ?whenSet_in; cbn [In];
               specialize (NS s); intuition congruence |]);
      reflexivity.
Qed.

(** ** The lists of the sidebar *)

Lemma includes_empty (hay : string) : includes hay EmptyString = true.
Proof. destruct hay; reflexivity. Qed.

Lemma folderChats_in (chatSessions : list ChatSession) (folders : list Folder)
  (s : ChatSession) :
  In s chatSessions ->
  (chatToFolderMap_has folders (cs_id s) = true <->
   exists f, In f folders /\ In s (folderChats chatSessions f)).
Proof.
  intros Hs. unfold chatToFolderMap_has, folderChats.
  rewrite existsb_exists. split.
  - intros (f & Hf & E). exists f. split; [exact Hf |].
    apply filter_In. now split.
  - intros (f & Hf & H). exists f. split; [exact Hf |].
    apply filter_In in H. now destruct H.
Qed.

(** X27. The sidebar with an empty search loses no conversation: every
    stored conversation is among the pinned ones, or among those outside
    all folders, or under a folder that lists it.  With any search, a
    conversation listed outside all folders is neither pinned nor under a
    folder, the two lists hold only stored conversations whose title
    contains the search term, and a pinned conversation that a folder lists
    appears twice, since the lists under the folders take neither the search
    nor the pin into account. *)
Theorem sidebar_lists_every_chat (sort : list ChatSession -> list ChatSession)
  (chatSessions : list ChatSession) (folders : list Folder) :
  (forall l, Permutation (sort l) l) ->
  (forall s, In s chatSessions ->
     In s (pinnedChats sort chatSessions EmptyString)
     \/ In s (unfolderedChats chatSessions folders EmptyString)
     \/ exists f, In f folders /\ In s (folderChats chatSessions f))
  /\ (forall term s,
        In s (unfolderedChats chatSessions folders term) ->
        ~ In s (pinnedChats sort chatSessions term)
        /\ forall f, In f folders -> ~ In s (folderChats chatSessions f))
  /\ (forall term s,
        In s (pinnedChats sort chatSessions term)
        \/ In s (unfolderedChats chatSessions folders term) ->
        In s chatSessions
        /\ includes (toLowerCase (cs_title s)) (toLowerCase term) = true)
  /\ (forall term s f,
        In s (filteredSessions chatSessions term) ->
        cs_pinned s = Some true ->
        In f folders ->
        existsb (fun cid => cid =? cs_id s) (f_chatIds f) = true ->
        In s (pinnedChats sort chatSessions term)
        /\ In s (folderChats chatSessions f)).
Proof.
  intros Hsort.
  assert (P : forall term s,
             In s (pinnedChats sort chatSessions term)
             <-> In s (filteredSessions chatSessions term)
                 /\ orDefault (cs_pinned s) false = true).
  { intros term s. unfold pinnedChats. split; intros H.
    - apply (Permutation_in _ (Hsort _)) in H. now apply filter_In in H.
    - apply (Permutation_in _ (Permutation_sym (Hsort _))).
      now apply filter_In. }
  assert (F : forall term s,
             In s (filteredSessions chatSessions term)
             <-> In s chatSessions
                 /\ includes (toLowerCase (cs_title s)) (toLowerCase term)
                    = true)
    by (intros term s; unfold filteredSessions; apply filter_In).
  split; [| split; [| split]].
  - intros s Hs.
    assert (Hf : In s (filteredSessions chatSessions EmptyString)).
    { apply F. split; [exact Hs |]. apply includes_empty. }
    destruct (orDefault (cs_pinned s) false) eqn:Ep.
    { left. apply P. now split. }
    destruct (chatToFolderMap_has folders (cs_id s)) eqn:Eh.
    { right. right. now apply (folderChats_in chatSessions folders s Hs). }
    right. left. unfold unfolderedChats. apply filter_In.
    split; [exact Hf |]. now rewrite Ep, Eh.
  - intros term s H. unfold unfolderedChats in H. apply filter_In in H.
    destruct H as [Hf H]. apply andb_true_iff in H. destruct H as [Hp Hh].
    apply negb_true_iff in Hp. apply negb_true_iff in Hh.
    split.
    + intros K. apply P in K. destruct K as [_ K]. congruence.
    + intros f Hf' K.
      assert (Hs : In s chatSessions) by (apply F in Hf; tauto).
      assert (T : chatToFolderMap_has folders (cs_id s) = true)
        by (apply (folderChats_in chatSessions folders s Hs); eauto).
      congruence.
  - intros term s [H | H].
    + apply P in H. destruct H as [H _]. now apply F.
    + unfold unfolderedChats in H. apply filter_In in H.
      destruct H as [H _]. now apply F.
  - intros term s f Hf Hp Hin E. split.
    + apply P. split; [exact Hf |]. now rewrite Hp.
    + unfold folderChats. apply filter_In. split; [| exact E].
      apply F in Hf. tauto.
Qed.

Lemma sidebar_lists_every_chat_witness :
  let pinned := withPinned true (newChat 1000) in
  let work := {| f_id := "7"; f_name := "Work"; f_chatIds := ["1000"];
                 f_isOpen := true |} in
  In pinned (pinnedChats (fun l => l) [pinned; newChat 2000] "new")
  /\ In pinned (folderChats [pinned; newChat 2000] work)
  /\ unfolderedChats [pinned; newChat 2000] [work] EmptyString
     = [newChat 2000].
Proof.
  intros pinned work.
  destruct (sidebar_lists_every_chat (fun l => l) [pinned; newChat 2000]
              [work] (fun l => Permutation_refl l))
    as (_ & _ & _ & T).
  destruct (T "new" pinned work) as [A B];
    [now left | reflexivity | now left | reflexivity |].
  split; [exact A |]. split; [exact B | reflexivity].
Defined.

(** ** Settings *)

Lemma changeSetting_active (updater : ChatSession -> ChatSession)
  (st : AppState) (chat0 : ChatSession) :
  (forall c, cs_id (updater c) = cs_id c) ->
  activeChat st = Some chat0 ->
  activeChat (changeSetting updater st) = Some (updater chat0)
  /\ isLoading (changeSetting updater st) = isLoading st.
Proof.
  intros Hid Hc. unfold changeSetting. rewrite Hc. cbn [isSome].
  split; [| reflexivity].
  rewrite activeChat_update; [| reflexivity | exact Hid].
  now rewrite Hc.
Qed.

Lemma HarmCategory_eqb_eq (a b : HarmCategory) :
  HarmCategory_eqb a b = true <-> a = b.
Proof. destruct a, b; simpl; split; congruence. Qed.

(** X28. [handleSafetySettingsChange] sets the threshold of the named
    category in the active conversation and nothing else: the settings keep
    their categories and their order, every setting of the category takes
    the new threshold and the other settings are kept.  A category the list
    does not hold is not added, so on a conversation whose list is empty the
    change is lost; a conversation without a list starts from the four
    default settings. *)
Theorem handleSafetySettingsChange_sets_one (changed : HarmCategory)
  (level : HarmBlockThreshold) (st : AppState) (chat0 : ChatSession) :
  activeChat st = Some chat0 ->
  let before := orDefault (cs_safetySettings chat0) defaultSafetySettings in
  exists chat after,
    activeChat (handleSafetySettingsChange changed level st) = Some chat
    /\ cs_safetySettings chat = Some after
    /\ map category after = map category before
    /\ (forall s, In s after -> category s = changed -> threshold s = level)
    /\ (forall s, In s before -> category s <> changed -> In s after)
    /\ (~ In changed (map category before) -> after = before)
    /\ (cs_safetySettings chat0 = None ->
        In {| category := changed; threshold := level |} after
        /\ length after = 4%nat).
Proof.
  intros Hc before.
  set (f := fun setting =>
              if HarmCategory_eqb (category setting) changed
              then {| category := category setting; threshold := level |}
              else setting).
  exists (withSafetySettings (map f before) chat0), (map f before).
  split.
  { unfold handleSafetySettingsChange.
    exact (proj1 (changeSetting_active
                    (fun chat =>
                       withSafetySettings
                         (map f (orDefault (cs_safetySettings chat)
                                           defaultSafetySettings))
                         chat)
                    st chat0 (fun c => eq_refl) Hc)). }
  split; [reflexivity |]. split.
  { rewrite map_map. apply map_ext. intros s. unfold f.
    now destruct (HarmCategory_eqb (category s) changed). }
  split.
  { intros s Hs E. apply in_map_iff in Hs. destruct Hs as (s0 & <- & _).
    unfold f in E |- *.
    destruct (HarmCategory_eqb (category s0) changed) eqn:B;
      [reflexivity |].
    apply HarmCategory_eqb_eq in E. congruence. }
  split.
  { intros s Hs N. apply in_map_iff. exists s. split; [| exact Hs].
    unfold f. destruct (HarmCategory_eqb (category s) changed) eqn:B;
      [| reflexivity].
    apply HarmCategory_eqb_eq in B. contradiction. }
  split.
  { intros N. rewrite <- (map_id before) at 2. apply map_ext_in.
    intros s Hs. unfold f.
    destruct (HarmCategory_eqb (category s) changed) eqn:B; [| reflexivity].
    apply HarmCategory_eqb_eq in B. exfalso. apply N. rewrite <- B.
    now apply in_map. }
  intros E. unfold before. rewrite E. cbn [orDefault].
  split; [| reflexivity].
  unfold defaultSafetySettings, f. cbn [map category threshold].
  destruct changed; cbn [HarmCategory_eqb In]; auto.
Qed.

Lemma handleSafetySettingsChange_sets_one_witness :
  exists chat,
    activeChat (handleSafetySettingsChange HARM_CATEGORY_HATE_SPEECH
                  BLOCK_NONE (freshStore 1000 EmptyString)) = Some chat
    /\ option_map (map threshold) (cs_safetySettings chat)
       = Some [BLOCK_MEDIUM_AND_ABOVE; BLOCK_NONE; BLOCK_MEDIUM_AND_ABOVE;
               BLOCK_MEDIUM_AND_ABOVE].
Proof.
  destruct (handleSafetySettingsChange_sets_one HARM_CATEGORY_HATE_SPEECH
              BLOCK_NONE (freshStore 1000 EmptyString) (newChat 1000)
              eq_refl)
    as (chat & after & A & _).
  exists chat. split; [exact A |].
  injection A as <-. reflexivity.
Defined.

(** X29. The settings reach the service: after the personality, the
    temperature, the stop sequences, the search switch and the model have
    been set, the chat the next generation creates is configured with that
    model and temperature, with the personality as system instruction, or
    the built-in one when the personality is empty, with the stop sequences
    only when there are some, and with the search tool only when search is
    switched on; the other parameters are those of the conversation. *)
Theorem settings_reach_the_service (svc : Service) (now : N)
  (signal : AbortSignal) (prompt : string) (images : option (list Image))
  (st : AppState) (chat0 : ChatSession) (personality model : string)
  (temp : Q) (sequences : list string) (search : bool) :
  truthyOpt (API_KEY svc) = true ->
  activeChat st = Some chat0 ->
  isLoading st = false ->
  let st' :=
    handleModelChange model
      (handleGoogleSearchToggle search
         (handleStopSequencesChange sequences
            (handleTemperatureChange temp
               (handlePromptChange personality st)))) in
  let r := submitPrompt svc now signal prompt images None st' in
  exists chat,
    sendMessageStream chat = remote svc (chat_config chat)
    /\ run_requests r = sent (streamResponse chat prompt images (Some signal))
    /\ activeMessages (run_state r)
       = outcomeMessages now (cs_messages chat0)
           (outcome (streamResponse chat prompt images (Some signal)))
    /\ cfg_model (chat_config chat) = model
    /\ cfg_temperature (chat_config chat) = temp
    /\ cfg_systemInstruction (chat_config chat)
       = (if truthy personality then personality
          else defaultSystemInstruction)
    /\ cfg_stopSequences (chat_config chat)
       = (match sequences with [] => None | _ :: _ => Some sequences end)
    /\ cfg_tools (chat_config chat)
       = (if search then Some [GoogleSearch] else None)
    /\ cfg_topK (chat_config chat) = cs_topK chat0
    /\ cfg_topP (chat_config chat) = cs_topP chat0
    /\ cfg_maxOutputTokens (chat_config chat) = cs_maxOutputTokens chat0
    /\ cfg_safetySettings (chat_config chat) = cs_safetySettings chat0.
Proof.
  intros Hkey Hc Hl st' r.
  set (c5 := withModel model
               (withUseGoogleSearch search
                  (withStopSequences sequences
                     (withTemperature temp
                        (withSystemPrompt personality chat0))))).
  assert (A : activeChat st' = Some c5 /\ isLoading st' = false).
  { unfold st', handleModelChange, handleGoogleSearchToggle,
      handleStopSequencesChange, handleTemperatureChange, handlePromptChange.
    destruct (changeSetting_active (withSystemPrompt personality) st chat0
                ltac:(reflexivity) Hc) as [A1 L1].
    destruct (changeSetting_active (withTemperature temp) _ _
                ltac:(reflexivity) A1) as [A2 L2].
    destruct (changeSetting_active (withStopSequences sequences) _ _
                ltac:(reflexivity) A2) as [A3 L3].
    destruct (changeSetting_active (withUseGoogleSearch search) _ _
                ltac:(reflexivity) A3) as [A4 L4].
    destruct (changeSetting_active (withModel model) _ _
                ltac:(reflexivity) A4) as [A5 L5].
    split; [exact A5 |]. congruence. }
  destruct A as [A L].
  assert (O : exists chat,
             openChat svc c5 (cs_messages chat0) = Returned chat
             /\ sendMessageStream chat = remote svc (chat_config chat)
             /\ cfg_model (chat_config chat) = model
             /\ cfg_temperature (chat_config chat) = temp
             /\ cfg_systemInstruction (chat_config chat)
                = (if truthy personality then personality
                   else defaultSystemInstruction)
             /\ cfg_stopSequences (chat_config chat)
                = (match sequences with
                   | [] => None
                   | _ :: _ => Some sequences
                   end)
             /\ cfg_tools (chat_config chat)
                = (if search then Some [GoogleSearch] else None)
             /\ cfg_topK (chat_config chat) = cs_topK chat0
             /\ cfg_topP (chat_config chat) = cs_topP chat0
             /\ cfg_maxOutputTokens (chat_config chat)
                = cs_maxOutputTokens chat0
             /\ cfg_safetySettings (chat_config chat)
                = cs_safetySettings chat0).
  { unfold openChat, initializeChat, getAiClient. rewrite Hkey.
    eexists. split; [reflexivity |].
    cbn [chat_config sendMessageStream cfg_model cfg_temperature
         cfg_systemInstruction cfg_stopSequences cfg_tools cfg_topK cfg_topP
         cfg_maxOutputTokens cfg_safetySettings c5 withModel
         withUseGoogleSearch withStopSequences withTemperature
         withSystemPrompt cs_model cs_temperature cs_systemPrompt
         cs_stopSequences cs_useGoogleSearch cs_topK cs_topP
         cs_maxOutputTokens cs_safetySettings orDefault truthyOpt].
    repeat split; try reflexivity. now destruct search. }
  destruct O as (chat & Ho & Hs & Hrest).
  exists chat. split; [exact Hs |].
  assert (Ho' : openChat svc c5 (orDefault None (cs_messages c5))
                = Returned chat) by exact Ho.
  split.
  { unfold r.
    rewrite (submitPrompt_run svc now signal prompt images None st' c5 chat
               A L Ho').
    reflexivity. }
  split; [| exact Hrest].
  exact (submitPrompt_messages svc now signal prompt images None st' c5 chat
           A L Ho').
Qed.

Lemma settings_reach_the_service_witness :
  let svc := answering (Returned {| api_chunks := [textPacket "Hello!"];
                                    api_failure := None |}) in
  let st' :=
    handleModelChange "gemini-2.5-pro"
      (handleGoogleSearchToggle true
         (handleStopSequencesChange []
            (handleTemperatureChange (2 # 10)
               (handlePromptChange EmptyString
                  (freshStore 1000 EmptyString))))) in
  exists chat,
    run_requests (submitPrompt svc 1001 neverAborted "Hi" None None st')
    = sent (streamResponse chat "Hi" None (Some neverAborted))
    /\ cfg_model (chat_config chat) = "gemini-2.5-pro"
    /\ cfg_systemInstruction (chat_config chat) = defaultSystemInstruction
    /\ cfg_stopSequences (chat_config chat) = None
    /\ cfg_tools (chat_config chat) = Some [GoogleSearch].
Proof.
  intros svc st'.
  destruct (settings_reach_the_service svc 1001 neverAborted "Hi" None
              (freshStore 1000 EmptyString) (newChat 1000) EmptyString
              "gemini-2.5-pro" (2 # 10) [] true eq_refl eq_refl eq_refl)
    as (chat & _ & R & _ & M & _ & I & S & T & _).
  exists chat. split; [exact R |]. split; [exact M |].
  split; [exact I |]. split; [exact S | exact T].
Defined.
